(** * A shallow embedding of the tetris engine

    The engine is the class [tetris] of the repository: a grid of colour
    tags, one active piece, the Nintendo rotation tables, the NES style
    randomizer, gravity ticks, the hard drop and the line removal.

    Conventions of the embedding.
    - C++ [int] values are [Z]; every value the engine computes is bounded
      by the grid size, so signed arithmetic never wraps.  The score is a
      [std::size_t]: its addition wraps, and the modulus is written out.
    - [std::vector] is [list], indexed by [nat]; an [int] index is
      converted where the vector is accessed.  An access outside a vector
      is undefined behaviour in the source: reads give [0] and writes do
      nothing here, and the well-formedness predicate [wf] states that
      the engine never gets there.
    - [std::set<int>] is [gset nat].
    - The random engine is an explicit effect: a computation of type
      [rand A] asks for integers drawn from closed ranges.
    - The exceptions [gameover] and [std::runtime_error] are the
      constructors of [outcome].
    - The drawing code ([frame], ncurses) has no effect on the state and
      is left out. *)

From Stdlib Require Import ZArith Lia Ascii QArith.
From stdpp Require Import base tactics option list list_numbers numbers gmap sets fin_sets.

Local Open Scope Z_scope.

(** Closed decidable facts about sample states are settled by
    evaluation. *)
Ltac by_computation := apply (bool_decide_unpack _); vm_compute; exact I.

(** ** Blocks, extents and the shape catalog *)

(** [struct block { int y, x; }] *)
Record block : Type := Block { block_y : Z; block_x : Z }.

#[global] Instance block_eq_dec : EqDecision block.
Proof. solve_decision. Defined.

#[global] Instance block_inhabited : Inhabited block := populate (Block 0 0).

(** [block::operator+] *)
Definition block_add (a b : block) : block :=
  Block (block_y a + block_y b) (block_x a + block_x b).

(** [struct extent { int y_min, y_max, x_min, x_max; }] *)
Record extent : Type := Extent { y_min : Z; y_max : Z; x_min : Z; x_max : Z }.

(** [using shape_t = std::vector<block>] *)
Abbreviation shape_t := (list block).

Definition B (y x : Z) : block := Block y x.

(** [shapes_]: the right-handed Nintendo rotation system, one list of
    rotation states per piece kind. *)
Definition shapes_ : list (list shape_t) :=
  [ (* I piece *)
    [ [B 0 (-2); B 0 (-1); B 0 0; B 0 1];
      [B (-2) 0; B (-1) 0; B 0 0; B 1 0] ];
    (* O piece *)
    [ [B 0 0; B 0 1; B 1 0; B 1 1] ];
    (* J piece *)
    [ [B 1 1; B 0 1; B 0 0; B 0 (-1)];
      [B 1 (-1); B 1 0; B 0 0; B (-1) 0];
      [B (-1) (-1); B 0 (-1); B 0 0; B 0 1];
      [B (-1) 1; B (-1) 0; B 0 0; B 1 0] ];
    (* L piece *)
    [ [B 1 (-1); B 0 (-1); B 0 0; B 0 1];
      [B (-1) (-1); B (-1) 0; B 0 0; B 1 0];
      [B (-1) 1; B 0 1; B 0 0; B 0 (-1)];
      [B 1 1; B 1 0; B 0 0; B (-1) 0] ];
    (* S piece *)
    [ [B (-1) 0; B 0 0; B 0 1; B 1 1];
      [B 0 1; B 0 0; B 1 0; B 1 (-1)] ];
    (* Z piece *)
    [ [B (-1) 1; B 0 1; B 0 0; B 1 0];
      [B 1 1; B 1 0; B 0 0; B 0 (-1)] ];
    (* T piece *)
    [ [B 0 0; B (-1) 0; B 0 (-1); B 0 1];
      [B 0 0; B (-1) 0; B 1 0; B 0 1];
      [B 0 0; B 0 (-1); B 1 0; B 0 1];
      [B 0 0; B 0 (-1); B 1 0; B (-1) 0] ] ].

(** [n_shapes_ = shapes_.size()] *)
Definition n_shapes_ : Z := Z.of_nat (length shapes_).

(** [shapes_[shape].size()], the number of rotation states of a kind. *)
Definition n_rot (shape : nat) : Z :=
  Z.of_nat (length (shapes_ !!! shape)).

(** ** The active piece *)

(** [struct piece]; the back pointer [t] is the engine itself. *)
Record piece : Type := Piece {
  shape : nat;          (* index into shapes_ *)
  location : block;
  rotation : Z;
  color : Z             (* [1, 7] *)
}.

(** [piece::get_rotated]: [%] is C++ remainder, which truncates. *)
Definition get_rotated (p : piece) (ccw : bool) : Z :=
  let rot := if ccw then rotation p - 1 else rotation p + 1 in
  Z.rem (rot + n_rot (shape p)) (n_rot (shape p)).

(** [piece::rotate] *)
Definition rotate (p : piece) (ccw : bool) : piece :=
  Piece (shape p) (location p) (get_rotated p ccw) (color p).

(** [t->shapes_[shape][rot]] *)
Definition shape_at (shape : nat) (rot : Z) : shape_t :=
  (shapes_ !!! shape) !!! Z.to_nat rot.

(** [piece::get_shape] *)
Definition get_shape (p : piece) : shape_t :=
  shape_at (shape p) (rotation p).

(** [piece::get_rotated_shape] *)
Definition get_rotated_shape (p : piece) (ccw : bool) : shape_t :=
  shape_at (shape p) (get_rotated p ccw).

(** [piece::get_extent]: the bounding box of the offsets, starting from
    the first block and folding over the others. *)
Definition extent_step (e : extent) (b : block) : extent :=
  Extent (Z.min (y_min e) (block_y b)) (Z.max (y_max e) (block_y b))
         (Z.min (x_min e) (block_x b)) (Z.max (x_max e) (block_x b)).

Definition shape_extent (s : shape_t) : extent :=
  let b0 := s !!! 0%nat in
  foldl extent_step
        (Extent (block_y b0) (block_y b0) (block_x b0) (block_x b0))
        (drop 1 s).

Definition get_extent (p : piece) : extent := shape_extent (get_shape p).

(** The cells of the grid a piece covers: [location + block] for every
    block of the current rotation state. *)
Definition cells_at (loc : block) (s : shape_t) : list block :=
  map (block_add loc) s.

Definition piece_cells (p : piece) : list block :=
  cells_at (location p) (get_shape p).

(** ** The random engine

    [std::uniform_int_distribution<>(lo, hi)(e)] is the one effect of the
    engine besides its own state: a computation either returns or asks
    for an integer of the closed range [lo, hi] and goes on with it. *)
Inductive rand (A : Type) : Type :=
| Ret (a : A)
| Draw (lo hi : Z) (k : Z → rand A).

Arguments Ret {A} a.
Arguments Draw {A} lo hi k.

Fixpoint rand_bind {A B : Type} (m : rand A) (f : A → rand B) : rand B :=
  match m with
  | Ret a => f a
  | Draw lo hi k => Draw lo hi (λ d, rand_bind (k d) f)
  end.

#[global] Instance rand_ret : MRet rand := λ A a, Ret a.
#[global] Instance rand_mbind : MBind rand := λ A B f m, rand_bind m f.

(** One draw of [uniform_int_distribution<>(lo, hi)]. *)
Definition uniform (lo hi : Z) : rand Z := Draw lo hi Ret.

(** Running a computation against the integers the engine hands out;
    [None] when a supplied integer is outside the range asked for, or
    when the supply ends. *)
Fixpoint run {A : Type} (m : rand A) (ds : list Z) : option (A * list Z) :=
  match m with
  | Ret a => Some (a, ds)
  | Draw lo hi k =>
      match ds with
      | [] => None
      | d :: ds' =>
          if bool_decide (lo ≤ d ≤ hi) then run (k d) ds' else None
      end
  end.

(** The probability that a computation ends in a result satisfying [P]
    when every integer of a range is as likely as any other, which is
    what [std::uniform_int_distribution] provides. *)
Fixpoint prob {A : Type} (m : rand A) (P : A → bool) : Q :=
  match m with
  | Ret a => if P a then 1%Q else 0%Q
  | Draw lo hi k =>
      (foldr (λ d acc, prob (k d) P + acc) 0 (seqZ lo (hi - lo + 1))
       / inject_Z (hi - lo + 1))%Q
  end.

(** ** The grid *)

Abbreviation board_t := (list (list Z)).

(** [board_[y][x]] read with [int] indices. *)
Definition cell (bd : board_t) (y x : Z) : Z :=
  if bool_decide (0 ≤ y ∧ 0 ≤ x)
  then default 0 (row ← bd !! Z.to_nat y; row !! Z.to_nat x)
  else 0.

(** [board_[y][x] = v] with [int] indices. *)
Definition set_cell (bd : board_t) (y x : Z) (v : Z) : board_t :=
  if bool_decide (0 ≤ y ∧ 0 ≤ x)
  then alter (λ row, <[Z.to_nat x := v]> row) (Z.to_nat y) bd
  else bd.

(** [std::all_of(board_[i].cbegin(), board_[i].cend(), c != 0)] *)
Definition row_full (bd : board_t) (i : nat) : bool :=
  forallb (λ c, negb (c =? 0)) (default [] (bd !! i)).

(** ** The engine state *)

(** The mutable members of [class tetris]. *)
Record tetris : Type := Tetris {
  tick_cnt_ : Z;
  prev_shape_ : Z;
  score_ : Z;            (* std::size_t *)
  board_ : board_t;
  curr_piece_ : piece
}.

Definition set_tick_cnt (v : Z) (t : tetris) : tetris :=
  Tetris v (prev_shape_ t) (score_ t) (board_ t) (curr_piece_ t).
Definition set_prev_shape (v : Z) (t : tetris) : tetris :=
  Tetris (tick_cnt_ t) v (score_ t) (board_ t) (curr_piece_ t).
Definition set_score (v : Z) (t : tetris) : tetris :=
  Tetris (tick_cnt_ t) (prev_shape_ t) v (board_ t) (curr_piece_ t).
Definition set_board (bd : board_t) (t : tetris) : tetris :=
  Tetris (tick_cnt_ t) (prev_shape_ t) (score_ t) bd (curr_piece_ t).
Definition set_curr_piece (p : piece) (t : tetris) : tetris :=
  Tetris (tick_cnt_ t) (prev_shape_ t) (score_ t) (board_ t) p.

(** How an operation that may throw ends: normally, with [gameover], or
    with [std::runtime_error("space too small")]; each carries the
    members as the operation left them. *)
Inductive outcome : Type :=
| Ok (t : tetris)
| GameOver (t : tetris)
| SpaceTooSmall (t : tetris).

Definition outcome_state (o : outcome) : tetris :=
  match o with Ok t | GameOver t | SpaceTooSmall t => t end.

(** [tick_times_], ticks per second, and [move_ticks_ =
    std::floor(tick_times_ * move_intervals_)] with [move_intervals_ =
    0.5]: fifty ticks per automatic move. *)
Definition tick_times_ : Z := 100.
Definition move_ticks_ : Z := 50.

(** [std::size_t] arithmetic is modulo [2^64]. *)
Definition size_modulus : Z := 2 ^ 64.
Definition size_add (a b : Z) : Z := (a + b) mod size_modulus.

(** ** Sample states

    Small grids, four cells wide, used to run the engine below. *)

(** An O piece in the first visible rows of a grid of six rows, above
    two rows that lack their last two cells. *)
Definition sample_drop : tetris :=
  Tetris 7 1 0
         [ [0; 0; 0; 0]; [0; 0; 0; 0];
           [0; 0; 3; 3]; [0; 0; 3; 3]; [1; 1; 0; 0]; [1; 1; 0; 0] ]
         (Piece 1 (Block 2 2) 0 3).

(** The same piece after it has fallen two rows. *)
Definition sample_landed : tetris :=
  Tetris 0 1 0
         [ [0; 0; 0; 0]; [0; 0; 0; 0];
           [0; 0; 0; 0]; [0; 0; 0; 0]; [1; 1; 3; 3]; [1; 1; 3; 3] ]
         (Piece 1 (Block 4 2) 0 3).

(** An upright I piece against the left wall. *)
Definition sample_wall : tetris :=
  Tetris 0 0 0
         [ [5; 0; 0; 0]; [5; 0; 0; 0];
           [5; 0; 0; 0]; [5; 0; 0; 0]; [0; 0; 0; 0]; [0; 0; 0; 0] ]
         (Piece 0 (Block 2 0) 1 5).

(** An empty grid of six rows before the first piece. *)
Definition sample_empty : tetris :=
  Tetris 0 (-1) 0 (replicate 6 (replicate 4 0)) (Piece 0 (Block 0 0) 0 0).

(** The empty grid after an O piece of colour 3 has been spawned in the
    last two columns. *)
Definition sample_spawned : tetris :=
  Tetris 0 1 0
         [ [0; 0; 0; 0]; [0; 0; 0; 0];
           [0; 0; 3; 3]; [0; 0; 3; 3]; [0; 0; 0; 0]; [0; 0; 0; 0] ]
         (Piece 1 (Block 2 2) 0 3).

(** A grid whose first visible row is occupied. *)
Definition sample_topped : tetris :=
  Tetris 0 (-1) 0
         [ [0; 0; 0; 0]; [0; 0; 0; 0];
           [2; 2; 2; 2]; [0; 0; 0; 0]; [0; 0; 0; 0]; [0; 0; 0; 0] ]
         (Piece 0 (Block 0 0) 0 0).

(** Six rows, the two hidden ones empty, rows 3 and 5 full. *)
Definition sample_grid : board_t :=
  [ [0; 0; 0; 0]; [0; 0; 0; 0];
    [0; 6; 0; 0]; [1; 1; 1; 1]; [0; 2; 2; 0]; [3; 3; 3; 3] ].

(** A T piece with room to turn. *)
Definition sample_turn : tetris :=
  Tetris 3 6 0
         [ [0; 0; 0; 0]; [0; 0; 0; 0];
           [0; 4; 0; 0]; [4; 4; 4; 0]; [0; 0; 0; 0]; [0; 0; 0; 0] ]
         (Piece 6 (Block 3 1) 0 4).

(** *** Two games on a grid of four columns and four visible rows

    A key list gives what [getch] returns in each pass of the loop;
    with [move_ticks_ = 50] a piece that has landed is locked by the
    fiftieth tick after the last reset of the counter. *)

(** An O piece is dropped in the first two columns.  The bar that
    follows is turned upright at once -- it then reaches through both
    hidden rows -- and pushed one column to the left, where it rests on
    the O piece.  A second O piece is dropped beside the first. *)
Definition sample_keys_bar : list (option ascii) :=
  [Some "s"%char] ++ replicate 49 None ++
  [Some "w"%char; Some "a"%char] ++ replicate 48 None ++
  [Some "s"%char] ++ replicate 49 None.

(** The draws of that game: kind, colour, rotation and column of the
    three pieces. *)
Definition sample_draws_bar : list Z :=
  [1; 2; 0; 0] ++ [0; 5; 0; 2] ++ [1; 3; 0; 2].

(** Where that game stands: the second O piece has landed and rows 4
    and 5 are full; the next tick locks it. *)
Definition sample_stacked : tetris :=
  Tetris 49 1 0
         [ [0; 5; 0; 0]; [0; 5; 0; 0];
           [0; 5; 0; 0]; [0; 5; 0; 0]; [2; 2; 3; 3]; [2; 2; 3; 3] ]
         (Piece 1 (Block 4 2) 0 3).

(** A J piece is dropped.  An L piece is turned at once, which brings
    it into hidden row 1, and pushed to the right wall, where it rests
    on the J piece.  A second L piece is turned at once and rests on
    the J piece too: hidden row 1 is full. *)
Definition sample_keys_hook : list (option ascii) :=
  [Some "s"%char] ++ replicate 49 None ++
  [Some "w"%char; Some "d"%char] ++ replicate 48 None ++
  [Some "w"%char] ++ replicate 49 None.

(** The draws of that game; the kind of the third piece is the kind of
    the second, so it is drawn twice. *)
Definition sample_draws_hook : list Z :=
  [2; 3; 0; 2] ++ [3; 5; 0; 2] ++ [3; 3; 6; 0; 1].

(** Where that game stands: the second L piece cannot fall; the next
    tick locks it. *)
Definition sample_hooked : tetris :=
  Tetris 49 3 0
         [ [0; 0; 0; 0]; [6; 6; 5; 5];
           [0; 6; 0; 5]; [0; 6; 0; 5]; [0; 3; 3; 3]; [0; 0; 0; 3] ]
         (Piece 3 (Block 2 1) 1 6).

(** ** The earlier engine

    The class [tetris] of [tetris.cc]: no hidden rows, no rotation
    tables -- a piece carries its blocks and is turned by a quarter-turn
    matrix -- a kind drawn afresh each time, and a hard drop that locks
    at once.  It has its own copies of the grid operations, as the
    source has. *)

Module TetrisCc.

(** One pass of the loop of [block::rotate], with the clockwise matrix
    [{{0, 1}, {-1, 0}}]. *)
Definition rotate_once (b : block) : block :=
  Block (block_y b * 0 + block_x b * 1) (block_y b * (-1) + block_x b * 0).

(** [block::rotate]: [cnt %= 4; while (cnt--) ...].  For a count that
    is not negative the loop runs [cnt % 4] times.  A negative count
    that is no multiple of four leaves a negative remainder, and the
    loop then counts down past the least [int], which is undefined: the
    model makes no turn there.  The engine passes [1] and the draws
    [0] to [3] only, and the theorems about rotations take a count that
    is not negative. *)
Definition block_rotate (cnt : Z) (b : block) : block :=
  Nat.iter (Z.to_nat (Z.rem cnt 4)) rotate_once b.

(** [shapes_]: one list of blocks per kind. *)
Definition shapes_ : list shape_t :=
  [ [B 0 (-1); B 0 0; B 0 1; B 0 2];
    [B 0 0; B 0 1; B 1 0; B 1 1];
    [B (-1) 0; B 0 0; B 0 1; B 1 1];
    [B (-1) 0; B 0 0; B 0 (-1); B 1 (-1)];
    [B 1 (-1); B 0 (-1); B 0 0; B 0 1];
    [B 1 1; B 0 1; B 0 0; B 0 (-1)];
    [B 0 0; B (-1) 0; B 0 (-1); B 0 1] ].

Definition n_shapes_ : Z := Z.of_nat (length shapes_).

(** [struct piece] *)
Record piece : Type := Piece {
  shape_index : nat;    (* index into shapes_ *)
  shape : list block;
  location : block;
  color : Z
}.

(** [piece::rotate] *)
Definition rotate (cnt : Z) (p : piece) : piece :=
  Piece (shape_index p) (map (block_rotate cnt) (shape p)) (location p) (color p).

(** [piece::get_extent] *)
Definition get_extent (p : piece) : extent := shape_extent (shape p).

Definition piece_cells (p : piece) : list block :=
  cells_at (location p) (shape p).

(** The mutable members of the class. *)
Record tetris : Type := Tetris {
  tick_cnt_ : Z;
  score_ : Z;            (* std::size_t *)
  board_ : board_t;
  curr_piece_ : piece
}.

Definition set_tick_cnt (v : Z) (t : tetris) : tetris :=
  Tetris v (score_ t) (board_ t) (curr_piece_ t).
Definition set_score (v : Z) (t : tetris) : tetris :=
  Tetris (tick_cnt_ t) v (board_ t) (curr_piece_ t).
Definition set_board (bd : board_t) (t : tetris) : tetris :=
  Tetris (tick_cnt_ t) (score_ t) bd (curr_piece_ t).
Definition set_curr_piece (p : piece) (t : tetris) : tetris :=
  Tetris (tick_cnt_ t) (score_ t) (board_ t) p.

(** How an operation that may throw ends. *)
Inductive outcome : Type :=
| Ok (t : tetris)
| GameOver (t : tetris)
| SpaceTooSmall (t : tetris).

Definition outcome_state (o : outcome) : tetris :=
  match o with Ok t | GameOver t | SpaceTooSmall t => t end.

Section engine.

Variables (height_ width_ : nat).

(** [tetris::check_boundary] *)
Definition check_boundary (b : block) (y x : Z) : bool :=
  let yy := block_y b + y in
  let xx := block_x b + x in
  (0 <=? yy) && (yy <? Z.of_nat height_) &&
  (0 <=? xx) && (xx <? Z.of_nat width_).

(** [tetris::board_cell], read. *)
Definition board_cell (bd : board_t) (b : block) (y x : Z) : Z :=
  cell bd (block_y b + y) (block_x b + x).

(** [tetris::update_piece] *)
Definition update_piece (c : Z) (y x : Z) (t : tetris) : tetris :=
  let loc := location (curr_piece_ t) in
  set_board
    (foldl (λ bd blk,
              let b := block_add loc blk in
              set_cell bd (block_y b + y) (block_x b + x) c)
           (board_ t) (shape (curr_piece_ t)))
    t.

(** [tetris::can_move] *)
Definition can_move (y x : Z) (t : tetris) : bool * tetris :=
  let t1 := update_piece 0 0 0 t in
  let loc := location (curr_piece_ t1) in
  let movable :=
    forallb (λ blk,
               let block_loc := block_add loc blk in
               negb (negb (check_boundary block_loc y x) ||
                     negb (board_cell (board_ t1) block_loc y x =? 0)))
            (shape (curr_piece_ t1)) in
  (movable, update_piece (color (curr_piece_ t1)) 0 0 t1).

(** [tetris::move_piece] *)
Definition move_piece (y x : Z) (t : tetris) : bool * tetris :=
  let '(movable, t1) := can_move y x t in
  if negb movable then (false, t1)
  else
    let t2 := update_piece 0 0 0 t1 in
    let p := curr_piece_ t2 in
    let loc := Block (block_y (location p) + y) (block_x (location p) + x) in
    let t3 := set_curr_piece (Piece (shape_index p) (shape p) loc (color p)) t2 in
    (true, update_piece (color (curr_piece_ t3)) 0 0 t3).

(** [tetris::can_rotate] *)
Definition can_rotate (cnt : Z) (t : tetris) : bool * tetris :=
  let t1 := update_piece 0 0 0 t in
  let loc := location (curr_piece_ t1) in
  let rotatable :=
    forallb (λ blk,
               let rotated := block_rotate cnt blk in
               let block_loc := block_add loc rotated in
               negb (negb (check_boundary block_loc 0 0) ||
                     negb (board_cell (board_ t1) block_loc 0 0 =? 0)))
            (shape (curr_piece_ t1)) in
  (rotatable, update_piece (color (curr_piece_ t1)) 0 0 t1).

(** [tetris::rotate_piece] *)
Definition rotate_piece (cnt : Z) (t : tetris) : bool * tetris :=
  let '(rotatable, t1) := can_rotate cnt t in
  if negb rotatable then (false, t1)
  else
    let t2 := update_piece 0 0 0 t1 in
    let t3 := set_curr_piece (rotate cnt (curr_piece_ t2)) t2 in
    (true, update_piece (color (curr_piece_ t3)) 0 0 t3).

(** [tetris::clear_line] *)
Definition clear_line (y : nat) (bd : board_t) : board_t :=
  foldl (λ bd x, alter (λ row, <[x := 0]> row) y bd) bd (seq 0 width_).

(** [for (x...) board_[y][x] = board_[from][x];] *)
Definition copy_line (from y : nat) (bd : board_t) : board_t :=
  foldl (λ bd x,
           alter (λ row, <[x := default 0 (r ← bd !! from; r !! x)]> row) y bd)
        bd (seq 0 width_).

(** The inner [while] of [try_remove_line]; [None] is [from < 0]. *)
Fixpoint find_from (R : gset nat) (moved : list bool) (y : nat) : option nat :=
  match y with
  | O => None
  | S from =>
      if bool_decide (from ∈ R) || default false (moved !! from)
      then find_from R moved from
      else Some from
  end.

(** The body of the outer [for] of [try_remove_line]. *)
Definition remove_step (R : gset nat) (s : board_t * list bool) (y : nat)
  : board_t * list bool :=
  match find_from R s.2 y with
  | Some from => (copy_line from y s.1, <[from := true]> s.2)
  | None => (clear_line y s.1, s.2)
  end.

(** [try_remove_line] from [std::vector<bool> moved] on: [y] runs from
    the lowest line to remove up to [1], then [clear_line(0)]. *)
Definition remove_lines (R : gset nat) (bd : board_t) : board_t :=
  let moved := replicate height_ false in
  let ys := reverse (seq 1 (max_list (elements R))) in
  clear_line 0 (foldl (remove_step R) (bd, moved) ys).1.

(** The first loop of [try_remove_line]. *)
Definition lines_to_remove (t : tetris) : gset nat :=
  let ext := get_extent (curr_piece_ t) in
  let hi := block_y (location (curr_piece_ t)) + y_max ext in
  let lo := block_y (location (curr_piece_ t)) + y_min ext in
  foldl (λ (R : gset nat) i,
           if row_full (board_ t) (Z.to_nat i) then {[ Z.to_nat i ]} ∪ R else R)
        ∅ (reverse (seqZ lo (hi - lo + 1))).

(** [tetris::try_remove_line] *)
Definition try_remove_line (t : tetris) : tetris :=
  let R := lines_to_remove t in
  if decide (R = ∅) then t
  else
    let t1 := set_score (size_add (score_ t) (Z.of_nat (size R))) t in
    set_board (remove_lines R (board_ t1)) t1.

(** [tetris::new_piece] *)
Definition new_piece (t : tetris) : rand outcome :=
  s ← uniform 0 (n_shapes_ - 1);
  c ← uniform 1 7;
  rot ← uniform 0 3;
  let p := rotate rot (Piece (Z.to_nat s) (shapes_ !!! Z.to_nat s)
                             (location (curr_piece_ t)) c) in
  let t := set_curr_piece p t in
  let ext := get_extent p in
  let xmin := - x_min ext in
  let xmax := Z.of_nat width_ - x_max ext - 1 in
  let y := - y_min ext in
  if (xmax <? xmin) || (Z.of_nat height_ <=? y + y_max ext)
  then mret (SpaceTooSmall t)
  else
    x ← uniform xmin xmax;
    let p := Piece (shape_index p) (shape p) (Block (- y_min ext) x) (color p) in
    let t := set_curr_piece p t in
    if existsb (λ blk, negb (board_cell (board_ t) (block_add (location p) blk) 0 0 =? 0))
               (shape p)
    then mret (GameOver t)
    else mret (Ok (update_piece (color p) 0 0 t)).

(** [tetris::tick] *)
Definition tick (t : tetris) : rand outcome :=
  let t := set_tick_cnt (tick_cnt_ t + 1) t in
  if move_ticks_ <=? tick_cnt_ t then
    let t := set_tick_cnt 0 t in
    let '(moved, t) := move_piece 1 0 t in
    if negb moved then new_piece (try_remove_line t)
    else mret (Ok t)
  else mret (Ok t).

(** [while (move_piece()) ;] -- [None] when [fuel] attempts were not
    enough. *)
Fixpoint drop_loop (fuel : nat) (t : tetris) : option tetris :=
  match fuel with
  | O => None
  | S n =>
      let '(moved, t1) := move_piece 1 0 t in
      if moved then drop_loop n t1 else Some t1
  end.

(** The [else if (c == 's')] branch of [tetris::loop]: fall, remove the
    lines, reset the tick counter, pop up the next piece. *)
Definition hard_drop (t : tetris) : option (rand outcome) :=
  t1 ← drop_loop (S height_) t;
  Some (new_piece (set_tick_cnt 0 (try_remove_line t1))).

(** [falls t t']: successful one-row downward moves lead from [t] to
    [t']. *)
Inductive falls : tetris → tetris → Prop :=
| falls_here (t : tetris) : falls t t
| falls_down (t t1 t2 : tetris) :
    move_piece 1 0 t = (true, t1) → falls t1 t2 → falls t t2.

(** The grid has its dimensions and the piece, which has a block, lies
    inside it and is stamped on it in its colour. *)
Definition board_dims (bd : board_t) : Prop :=
  length bd = height_ ∧ Forall (λ row, length row = width_) bd.

Definition wf (t : tetris) : Prop :=
  board_dims (board_ t) ∧
  shape (curr_piece_ t) ≠ [] ∧
  Forall (λ b, check_boundary b 0 0 = true ∧
               board_cell (board_ t) b 0 0 = color (curr_piece_ t))
         (piece_cells (curr_piece_ t)).

End engine.

(** *** Sample states, on a grid of four rows of four cells *)

(** An O piece at the top, above two half-filled rows. *)
Definition sample_drop : tetris :=
  Tetris 7 0
         [ [0; 0; 3; 3]; [0; 0; 3; 3]; [1; 1; 0; 0]; [1; 1; 0; 0] ]
         (Piece 1 [B 0 0; B 0 1; B 1 0; B 1 1] (Block 0 2) 3).

(** The same piece after it has fallen two rows. *)
Definition sample_landed : tetris :=
  Tetris 7 0
         [ [0; 0; 0; 0]; [0; 0; 0; 0]; [1; 1; 3; 3]; [1; 1; 3; 3] ]
         (Piece 1 [B 0 0; B 0 1; B 1 0; B 1 1] (Block 2 2) 3).

(** A T piece with room to turn. *)
Definition sample_turn : tetris :=
  Tetris 3 0
         [ [0; 4; 0; 0]; [4; 4; 4; 0]; [0; 0; 0; 0]; [0; 0; 0; 0] ]
         (Piece 6 [B 0 0; B (-1) 0; B 0 (-1); B 0 1] (Block 1 1) 4).

(** An empty grid before the first piece, whose blocks are none yet. *)
Definition sample_empty : tetris :=
  Tetris 0 0 (replicate 4 (replicate 4 0)) (Piece 0 [] (Block 0 0) 0).

(** The empty grid after an O piece of colour 3 has been spawned in the
    last two columns. *)
Definition sample_spawned : tetris :=
  Tetris 0 0
         [ [0; 0; 3; 3]; [0; 0; 3; 3]; [0; 0; 0; 0]; [0; 0; 0; 0] ]
         (Piece 1 [B 0 0; B 0 1; B 1 0; B 1 1] (Block 0 2) 3).

End TetrisCc.

(** ** The engine *)

Section engine.

(** [height_], [width_] are the constructor's arguments and
    [invisible_lines_] the number of hidden rows above the visible
    area: [2] in the engine with rotation tables, none in the earlier
    engine of [tetris.cc], whose line removal is otherwise the same. *)
Variables (height_ width_ invisible_lines_ : nat).

Definition board_height_ : nat := (height_ + invisible_lines_)%nat.

(** [tetris::check_boundary] *)
Definition check_boundary (b : block) (y x : Z) : bool :=
  let yy := block_y b + y in
  let xx := block_x b + x in
  (0 <=? yy) && (yy <? Z.of_nat board_height_) &&
  (0 <=? xx) && (xx <? Z.of_nat width_).

(** [tetris::board_cell], read. *)
Definition board_cell (bd : board_t) (b : block) (y x : Z) : Z :=
  cell bd (block_y b + y) (block_x b + x).

(** [board_cell(b) = v] *)
Definition write_cell (bd : board_t) (b : block) (v : Z) : board_t :=
  set_cell bd (block_y b) (block_x b) v.

(** [tetris::update_piece]: stamps a colour on the cells of the
    current piece, without checking boundaries. *)
Definition update_piece (c : Z) (t : tetris) : tetris :=
  let loc := location (curr_piece_ t) in
  set_board
    (foldl (λ bd blk, write_cell bd (block_add loc blk) c)
           (board_ t) (get_shape (curr_piece_ t)))
    t.

(** [tetris::can_move]: the loop leaves at the first block that fails,
    so [movable] is the conjunction over the blocks. *)
Definition can_move (y x : Z) (t : tetris) : bool * tetris :=
  let t1 := update_piece 0 t in
  let loc := location (curr_piece_ t1) in
  let movable :=
    forallb (λ blk,
               let block_loc := block_add loc blk in
               negb (negb (check_boundary block_loc y x) ||
                     negb (board_cell (board_ t1) block_loc y x =? 0)))
            (get_shape (curr_piece_ t1)) in
  (movable, update_piece (color (curr_piece_ t1)) t1).

(** [tetris::move_piece] *)
Definition move_piece (y x : Z) (t : tetris) : bool * tetris :=
  let '(movable, t1) := can_move y x t in
  if negb movable then (false, t1)
  else
    let t2 := update_piece 0 t1 in
    let p := curr_piece_ t2 in
    let loc := Block (block_y (location p) + y) (block_x (location p) + x) in
    let t3 := set_curr_piece (Piece (shape p) loc (rotation p) (color p)) t2 in
    (true, update_piece (color (curr_piece_ t3)) t3).

(** [tetris::can_rotate] *)
Definition can_rotate (ccw : bool) (t : tetris) : bool * tetris :=
  let t1 := update_piece 0 t in
  let loc := location (curr_piece_ t1) in
  let rotatable :=
    forallb (λ blk,
               let block_loc := block_add loc blk in
               negb (negb (check_boundary block_loc 0 0) ||
                     negb (board_cell (board_ t1) block_loc 0 0 =? 0)))
            (get_rotated_shape (curr_piece_ t1) ccw) in
  (rotatable, update_piece (color (curr_piece_ t1)) t1).

(** [tetris::rotate_piece] *)
Definition rotate_piece (ccw : bool) (t : tetris) : bool * tetris :=
  let '(rotatable, t1) := can_rotate ccw t in
  if negb rotatable then (false, t1)
  else
    let t2 := update_piece 0 t1 in
    let t3 := set_curr_piece (rotate (curr_piece_ t2) ccw) t2 in
    (true, update_piece (color (curr_piece_ t3)) t3).

(** [tetris::clear_line] *)
Definition clear_line (y : nat) (bd : board_t) : board_t :=
  foldl (λ bd x, alter (λ row, <[x := 0]> row) y bd) bd (seq 0 width_).

(** [for (x...) board_[y][x] = board_[from][x];] *)
Definition copy_line (from y : nat) (bd : board_t) : board_t :=
  foldl (λ bd x,
           alter (λ row, <[x := default 0 (r ← bd !! from; r !! x)]> row) y bd)
        bd (seq 0 width_).

(** The number of lines to remove that lie below row [r], that is, at a
    greater index: the grid is drawn with row [0] at the top. *)
Definition removed_below (R : gset nat) (r : nat) : nat :=
  size (filter (λ q, r < q)%nat R).

(** The inner [while] of [try_remove_line], entered with
    [from = y - 1]: it walks up past the rows that are to be removed
    or were moved already.  [None] is [from < 0]. *)
Fixpoint find_from (R : gset nat) (moved : list bool) (y : nat) : option nat :=
  match y with
  | O => None
  | S from =>
      if bool_decide (from ∈ R) || default false (moved !! from)
      then find_from R moved from
      else Some from
  end.

(** The body of the outer [for] of [try_remove_line]. *)
Definition remove_step (R : gset nat) (s : board_t * list bool) (y : nat)
  : board_t * list bool :=
  match find_from R s.2 y with
  | Some from => (copy_line from y s.1, <[from := true]> s.2)
  | None => (clear_line y s.1, s.2)
  end.

(** [*lines_to_remove.crbegin()], the greatest element. *)
Definition last_line (R : gset nat) : nat := max_list (elements R).

(** [try_remove_line] from [std::vector<bool> moved] on: [y] runs from
    the lowest line to remove up to [invisible_lines_ + 1], then
    [clear_line(invisible_lines_)]. *)
Definition remove_lines (R : gset nat) (bd : board_t) : board_t :=
  let moved := replicate board_height_ false in
  let ys := reverse (seq (S invisible_lines_) (last_line R - invisible_lines_)) in
  clear_line invisible_lines_ (foldl (remove_step R) (bd, moved) ys).1.

(** The first loop of [try_remove_line]: the full rows among those the
    current piece spans. *)
Definition lines_to_remove (t : tetris) : gset nat :=
  let ext := get_extent (curr_piece_ t) in
  let hi := block_y (location (curr_piece_ t)) + y_max ext in
  let lo := block_y (location (curr_piece_ t)) + y_min ext in
  foldl (λ (R : gset nat) i,
           if row_full (board_ t) (Z.to_nat i) then {[ Z.to_nat i ]} ∪ R else R)
        ∅ (reverse (seqZ lo (hi - lo + 1))).

(** [tetris::try_remove_line] *)
Definition try_remove_line (t : tetris) : tetris :=
  let R := lines_to_remove t in
  if decide (R = ∅) then t
  else
    let t1 := set_score (size_add (score_ t) (Z.of_nat (size R))) t in
    set_board (remove_lines R (board_ t1)) t1.

(** [tetris::random_shape] *)
Definition random_shape (t : tetris) : rand (Z * tetris) :=
  ret ← uniform 0 n_shapes_;
  ret ← (if (ret =? n_shapes_) || (ret =? prev_shape_ t)
         then uniform 0 (n_shapes_ - 1)
         else mret ret);
  mret (ret, set_prev_shape ret t).

(** [tetris::new_piece] *)
Definition new_piece (t : tetris) : rand outcome :=
  '(s, t) ← random_shape t;
  c ← uniform 1 7;
  r ← uniform 0 (n_rot (Z.to_nat s) - 1);
  let p := Piece (Z.to_nat s) (location (curr_piece_ t)) r c in
  let t := set_curr_piece p t in
  let ext := get_extent p in
  let xmin := - x_min ext in
  let xmax := Z.of_nat width_ - x_max ext - 1 in
  let y := Z.of_nat invisible_lines_ - y_min ext in
  if (xmax <? xmin) || (Z.of_nat board_height_ <=? y + y_max ext)
  then mret (SpaceTooSmall t)
  else
    x ← uniform xmin xmax;
    let p := Piece (Z.to_nat s) (Block y x) r c in
    let t := set_curr_piece p t in
    if existsb (λ blk, negb (board_cell (board_ t) (block_add (location p) blk) 0 0 =? 0))
               (get_shape p)
    then mret (GameOver t)
    else mret (Ok (update_piece (color p) t)).

(** The members after [new_piece] has assigned kind [s], colour [c],
    rotation [r] and the anchor of column [x], before it looks at the
    grid. *)
Definition placed (s c r x : Z) (t : tetris) : tetris :=
  let ext := shape_extent (shape_at (Z.to_nat s) r) in
  set_curr_piece
    (Piece (Z.to_nat s) (Block (Z.of_nat invisible_lines_ - y_min ext) x) r c)
    (set_prev_shape s t).

(** [tetris::tick] *)
Definition tick (t : tetris) : rand outcome :=
  let t := set_tick_cnt (tick_cnt_ t + 1) t in
  if move_ticks_ <=? tick_cnt_ t then
    let t := set_tick_cnt 0 t in
    let '(moved, t) := move_piece 1 0 t in
    if negb moved then new_piece (try_remove_line t)
    else mret (Ok t)
  else mret (Ok t).

(** [while (move_piece()) ;] of the hard drop.  The loop has no bound
    of its own in the source; [None] means that [fuel] attempts were
    not enough. *)
Fixpoint drop_loop (fuel : nat) (t : tetris) : option tetris :=
  match fuel with
  | O => None
  | S n =>
      let '(moved, t1) := move_piece 1 0 t in
      if moved then drop_loop n t1 else Some t1
  end.

(** The [else if (c == 's')] branch of [tetris::loop]. *)
Definition hard_drop (t : tetris) : option tetris :=
  t1 ← drop_loop (S board_height_) t;
  Some (set_tick_cnt 0 t1).

(** [falls t t']: [t'] is reached from [t] by successful one-row
    downward moves, the iterations of the hard drop's [while]. *)
Inductive falls : tetris → tetris → Prop :=
| falls_here (t : tetris) : falls t t
| falls_down (t t1 t2 : tetris) :
    move_piece 1 0 t = (true, t1) → falls t1 t2 → falls t t2.


(** What one pass of the body of [tetris::loop] leaves behind. *)
Inductive loop_state : Type :=
| Running (t : tetris)
| Quit (t : tetris)
| Over (t : tetris)
| Aborted (t : tetris).

Definition loop_state_tetris (ls : loop_state) : tetris :=
  match ls with Running t | Quit t | Over t | Aborted t => t end.

(** The key dispatch of [tetris::loop]. *)
Definition handle_key (c : ascii) (t : tetris) : option loop_state :=
  t1 ← (if decide (c = "w"%char) then Some (rotate_piece false t).2
        else if decide (c = "a"%char) then Some (move_piece 0 (-1) t).2
        else if decide (c = "d"%char) then Some (move_piece 0 1 t).2
        else if decide (c = "s"%char) then hard_drop t
        else Some t);
  Some (if decide (c = "q"%char) then Quit t1 else Running t1).

(** The body of the [while (true)] of [tetris::loop]: a tick, then the
    key that [getch] returned, if any. *)
Definition loop_body (key : option ascii) (t : tetris)
  : rand (option loop_state) :=
  o ← tick t;
  mret (match o with
        | Ok t1 =>
            match key with
            | Some c => handle_key c t1
            | None => Some (Running t1)
            end
        | GameOver t1 => Some (Over t1)
        | SpaceTooSmall t1 => Some (Aborted t1)
        end).

(** The constructor: an empty grid and a first piece. *)
Definition init : rand outcome :=
  new_piece (Tetris 0 (-1) 0
                    (replicate board_height_ (replicate width_ 0))
                    (Piece 0 (Block 0 0) 0 0)).

(** The passes of the [while (true)] of [tetris::loop], one for every
    element of [keys] -- what [getch] returns in that pass -- for as
    long as the loop goes on. *)
Fixpoint loop (keys : list (option ascii)) (t : tetris)
  : rand (option loop_state) :=
  match keys with
  | [] => mret (Some (Running t))
  | key :: keys =>
      ls ← loop_body key t;
      match ls with
      | Some (Running t1) => loop keys t1
      | _ => mret ls
      end
  end.

(** [tetris t(height, width); t.start();]: the constructor, then the
    loop.  An exception out of the constructor ends the program. *)
Definition start (keys : list (option ascii)) : rand (option loop_state) :=
  o ← init;
  match o with
  | Ok t => loop keys t
  | GameOver t => mret (Some (Over t))
  | SpaceTooSmall t => mret (Some (Aborted t))
  end.

(** *** Well-formed states *)

Definition board_dims (bd : board_t) : Prop :=
  length bd = board_height_ ∧ Forall (λ row, length row = width_) bd.

Definition valid_piece (p : piece) : Prop :=
  (shape p < length shapes_)%nat ∧
  0 ≤ rotation p < n_rot (shape p) ∧
  1 ≤ color p ≤ 7.

(** The grid has its dimensions, the piece is one of the catalog and
    its cells lie inside the grid and carry its colour. *)
Definition wf (t : tetris) : Prop :=
  board_dims (board_ t) ∧
  valid_piece (curr_piece_ t) ∧
  Forall (λ b, check_boundary b 0 0 = true ∧
               board_cell (board_ t) b 0 0 = color (curr_piece_ t))
         (piece_cells (curr_piece_ t)).

Local Abbreviation rows := board_height_.


(** * Properties *)

(** ** Rotation indices *)

Lemma rem_step_up (r n : Z) :
  0 ≤ r < n → Z.rem (r + 1 + n) n = (if decide (r + 1 = n) then 0 else r + 1).
Proof.
  intros Hr. rewrite Z.rem_mod_nonneg by lia.
  case_decide as Hn.
  - replace (r + 1 + n) with (0 + 2 * n) by lia.
    rewrite Z_mod_plus_full. apply Z.mod_small. lia.
  - replace (r + 1 + n) with (r + 1 + 1 * n) by lia.
    rewrite Z_mod_plus_full. apply Z.mod_small. lia.
Qed.

Lemma rem_step_down (r n : Z) :
  0 ≤ r < n → Z.rem (r - 1 + n) n = (if decide (r = 0) then n - 1 else r - 1).
Proof.
  intros Hr. rewrite Z.rem_mod_nonneg by lia.
  case_decide as Hn.
  - subst r. replace (0 - 1 + n) with (n - 1) by lia. apply Z.mod_small. lia.
  - replace (r - 1 + n) with (r - 1 + 1 * n) by lia.
    rewrite Z_mod_plus_full. apply Z.mod_small. lia.
Qed.

Lemma get_rotated_cw (p : piece) :
  0 ≤ rotation p < n_rot (shape p) →
  get_rotated p false =
    (if decide (rotation p + 1 = n_rot (shape p)) then 0 else rotation p + 1).
Proof. intros Hr. unfold get_rotated. by apply rem_step_up. Qed.

Lemma get_rotated_ccw (p : piece) :
  0 ≤ rotation p < n_rot (shape p) →
  get_rotated p true =
    (if decide (rotation p = 0) then n_rot (shape p) - 1 else rotation p - 1).
Proof. intros Hr. unfold get_rotated. by apply rem_step_down. Qed.

Lemma get_rotated_valid (p : piece) (ccw : bool) :
  0 ≤ rotation p < n_rot (shape p) →
  0 ≤ get_rotated p ccw < n_rot (shape p).
Proof.
  intros Hr. destruct ccw.
  - rewrite get_rotated_ccw by done. case_decide; lia.
  - rewrite get_rotated_cw by done. case_decide; lia.
Qed.

(** C10.  For a piece of any kind whose rotation index is valid for its
    kind, the index computed for a clockwise turn followed by the one
    computed for a counter-clockwise turn is the original index, and so
    is counter-clockwise followed by clockwise; the computed index is
    again a valid index into the rotation states of the kind. *)
Theorem get_rotated_round_trip (p : piece) :
  (shape p < length shapes_)%nat →
  0 ≤ rotation p < n_rot (shape p) →
  get_rotated (rotate p false) true = rotation p ∧
  get_rotated (rotate p true) false = rotation p ∧
  ∀ ccw, 0 ≤ get_rotated p ccw < n_rot (shape p).
Proof.
  intros _ Hr. split_and!.
  - pose proof (get_rotated_valid p false Hr) as Hv.
    rewrite get_rotated_ccw by done. simpl.
    rewrite get_rotated_cw by done. repeat case_decide; lia.
  - pose proof (get_rotated_valid p true Hr) as Hv.
    rewrite get_rotated_cw by done. simpl.
    rewrite get_rotated_ccw by done. repeat case_decide; lia.
  - intros ccw. by apply get_rotated_valid.
Qed.

Lemma get_rotated_round_trip_witness :
  let p := Piece 2 (Block 5 4) 3 1 in
  get_rotated (rotate p false) true = rotation p ∧
  get_rotated (rotate p true) false = rotation p ∧
  ∀ ccw, 0 ≤ get_rotated p ccw < n_rot (shape p).
Proof.
  apply (get_rotated_round_trip (Piece 2 (Block 5 4) 3 1)).
  - simpl. lia.
  - vm_compute. split; [discriminate | reflexivity].
Defined.

(** ** The randomizer *)

(** C4.  [random_shape] first asks for an integer of [0 .. K], [K] the
    number of kinds.  Exactly when that integer is [K] or the previous
    kind, it asks once more, for an integer of [0 .. K - 1], and
    whatever that second integer is becomes the result (and the new
    previous kind), also when it is the previous kind again; otherwise
    the first integer is the result and nothing more is drawn. *)
Theorem random_shape_policy (t : tetris) :
  (∃ k, random_shape t = Draw 0 n_shapes_ k ∧
        ∀ d, k d =
             if bool_decide (d = n_shapes_ ∨ d = prev_shape_ t)
             then Draw 0 (n_shapes_ - 1) (λ d2, Ret (d2, set_prev_shape d2 t))
             else Ret (d, set_prev_shape d t)) ∧
  (∀ d1 d2 ds,
      0 ≤ d1 ≤ n_shapes_ → 0 ≤ d2 ≤ n_shapes_ - 1 →
      d1 = n_shapes_ ∨ d1 = prev_shape_ t →
      run (random_shape t) (d1 :: d2 :: ds) = Some ((d2, set_prev_shape d2 t), ds)) ∧
  (∀ d1 ds,
      0 ≤ d1 ≤ n_shapes_ →
      ¬ (d1 = n_shapes_ ∨ d1 = prev_shape_ t) →
      run (random_shape t) (d1 :: ds) = Some ((d1, set_prev_shape d1 t), ds)).
Proof.
  split_and!.
  - eexists. split; [reflexivity |]. intros d. cbv beta.
    case_bool_decide as Hd.
    + assert ((d =? n_shapes_) || (d =? prev_shape_ t) = true) as ->; [| reflexivity].
      apply orb_true_iff. destruct Hd; [left | right]; by apply Z.eqb_eq.
    + assert ((d =? n_shapes_) || (d =? prev_shape_ t) = false) as ->; [| reflexivity].
      apply orb_false_iff. split; apply Z.eqb_neq; tauto.
  - intros d1 d2 ds H1 H2 Hre. unfold random_shape. simpl.
    rewrite bool_decide_eq_true_2 by done.
    assert ((d1 =? n_shapes_) || (d1 =? prev_shape_ t) = true) as ->.
    { apply orb_true_iff. destruct Hre; [left | right]; by apply Z.eqb_eq. }
    simpl. rewrite bool_decide_eq_true_2 by done. reflexivity.
  - intros d1 ds H1 Hre. unfold random_shape. simpl.
    rewrite bool_decide_eq_true_2 by done.
    assert ((d1 =? n_shapes_) || (d1 =? prev_shape_ t) = false) as ->.
    { apply orb_false_iff. split; apply Z.eqb_neq; tauto. }
    reflexivity.
Qed.

Lemma random_shape_policy_witness :
  let t := Tetris 0 3 0 [] (Piece 0 (Block 0 0) 0 0) in
  run (random_shape t) [3; 3; 5] = Some ((3, set_prev_shape 3 t), [5]) ∧
  run (random_shape t) [7; 2; 5] = Some ((2, set_prev_shape 2 t), [5]) ∧
  run (random_shape t) [4; 2; 5] = Some ((4, set_prev_shape 4 t), [2; 5]).
Proof.
  intros t.
  destruct (random_shape_policy t) as (_ & Hre & Hkeep).
  split_and!.
  - apply Hre; [vm_compute; split; discriminate .. | right; reflexivity].
  - apply Hre; [vm_compute; split; discriminate .. | left; reflexivity].
  - apply Hkeep; [vm_compute; split; discriminate |].
    intros [H | H]; vm_compute in H; discriminate.
Defined.

(** X11.  With seven kinds and a valid previous kind [p], the previous
    kind comes again with probability 1/28 and every other kind with
    probability 9/56; at the first draw of a game, when no kind
    precedes, every kind has probability 1/7. *)
Lemma random_shape_distribution (t : tetris) (k : Z) :
  0 ≤ k < n_shapes_ →
  (prob (random_shape t) (λ r, r.1 =? k) ==
     if decide (0 ≤ prev_shape_ t < n_shapes_)
     then (if decide (k = prev_shape_ t) then 1 # 28 else 9 # 56)
     else 1 # 7)%Q.
Proof.
  intros Hk. change n_shapes_ with 7 in *.
  destruct t as [tc pv sc bd pc]. simpl prev_shape_.
  assert (k = 0 ∨ k = 1 ∨ k = 2 ∨ k = 3 ∨ k = 4 ∨ k = 5 ∨ k = 6) as Hks by lia.
  case_decide as Hp.
  - assert (pv = 0 ∨ pv = 1 ∨ pv = 2 ∨ pv = 3 ∨ pv = 4 ∨ pv = 5 ∨ pv = 6) as Hps by lia.
    destruct_or!; subst; vm_compute; reflexivity.
  - assert (∀ d, 0 ≤ d < 7 → (d =? pv) = false) as Hne
      by (intros; apply Z.eqb_neq; lia).
    unfold random_shape. cbn.
    change (seqZ 0 (n_shapes_ - 0 + 1)) with [0; 1; 2; 3; 4; 5; 6; 7].
    cbn [foldr]. rewrite !Hne by lia.
    destruct_or!; subst; vm_compute; reflexivity.
Qed.

(** ** The grid: reading and writing cells *)

Section grid.

Variables (h w : nat).

(** The shape of a grid of [h] rows of [w] cells. *)
Local Abbreviation dims bd := (length bd = h ∧ Forall (λ row : list Z, length row = w) bd).

Lemma dims_row (bd : board_t) (i : nat) :
  dims bd → (i < h)%nat → ∃ row, bd !! i = Some row ∧ length row = w.
Proof.
  intros [Hlen Hrows] Hi.
  destruct (lookup_lt_is_Some_2 bd i) as [row Hrow]; [lia |].
  exists row. split; [done |].
  by eapply (Forall_lookup_1 _ _ _ _ Hrows).
Qed.

Lemma dims_alter (bd : board_t) (f : list Z → list Z) (i : nat) :
  (∀ row, length (f row) = length row) → dims bd → dims (alter f i bd).
Proof.
  intros Hf [Hlen Hrows]. split; [by rewrite length_alter |].
  apply Forall_lookup_2. intros j row.
  rewrite list_lookup_alter. case_decide as Hij.
  - subst j. destruct (bd !! i) as [row'|] eqn:Hj; simpl; [| done].
    intros [= <-]. rewrite Hf. by eapply (Forall_lookup_1 _ _ _ _ Hrows).
  - intros Hj. by eapply (Forall_lookup_1 _ _ _ _ Hrows).
Qed.

Lemma dims_set_cell (bd : board_t) (y x v : Z) :
  dims bd → dims (set_cell bd y x v).
Proof.
  intros Hd. unfold set_cell. case_bool_decide; [| done].
  apply dims_alter; [| done]. intros row. apply length_insert.
Qed.

Lemma cell_in (bd : board_t) (y x : Z) :
  dims bd → 0 ≤ y < Z.of_nat h → 0 ≤ x < Z.of_nat w →
  ∃ row, bd !! Z.to_nat y = Some row ∧ length row = w ∧
         row !! Z.to_nat x = Some (cell bd y x).
Proof.
  intros Hd Hy Hx.
  destruct (dims_row bd (Z.to_nat y) Hd) as (row & Hrow & Hlen); [lia |].
  exists row. split_and!; [done .. |].
  unfold cell. rewrite bool_decide_eq_true_2 by lia. rewrite Hrow. simpl.
  destruct (lookup_lt_is_Some_2 row (Z.to_nat x)) as [c Hc]; [lia |].
  by rewrite Hc.
Qed.

Lemma cell_set_cell (bd : board_t) (y x v y' x' : Z) :
  dims bd → 0 ≤ y' < Z.of_nat h → 0 ≤ x' < Z.of_nat w →
  cell (set_cell bd y x v) y' x' =
    if decide (y = y' ∧ x = x') then v else cell bd y' x'.
Proof.
  intros Hd Hy Hx.
  destruct (cell_in bd y' x' Hd Hy Hx) as (row & Hrow & Hlen & Hc).
  unfold set_cell. case_bool_decide as Hpos.
  - unfold cell at 1. rewrite bool_decide_eq_true_2 by lia.
    rewrite list_lookup_alter. case_decide as Hyy.
    + assert (y = y') as -> by lia. rewrite Hrow. simpl.
      destruct (decide (x = x')) as [-> | Hxx].
      * rewrite list_lookup_insert_eq by lia. simpl.
        by rewrite decide_True.
      * rewrite list_lookup_insert_ne by lia. rewrite Hc. simpl.
        rewrite decide_False; [done | tauto].
    + rewrite Hrow. simpl. rewrite Hc. simpl.
      rewrite decide_False; [done |]. intros [-> _]. done.
  - rewrite decide_False; [done | lia].
Qed.

(** Two grids of the same shape with the same cells are the same. *)
Lemma board_ext (bd1 bd2 : board_t) :
  dims bd1 → dims bd2 →
  (∀ y x, 0 ≤ y < Z.of_nat h → 0 ≤ x < Z.of_nat w → cell bd1 y x = cell bd2 y x) →
  bd1 = bd2.
Proof.
  intros Hd1 Hd2 Hc. apply list_eq. intros i.
  destruct (decide (i < h)%nat) as [Hi | Hi].
  - destruct (dims_row bd1 i Hd1 Hi) as (r1 & Hr1 & Hl1).
    destruct (dims_row bd2 i Hd2 Hi) as (r2 & Hr2 & Hl2).
    rewrite Hr1, Hr2. f_equal. apply list_eq. intros j.
    destruct (decide (j < w)%nat) as [Hj | Hj].
    + destruct (cell_in bd1 (Z.of_nat i) (Z.of_nat j) Hd1) as (r1' & Hr1' & _ & Hc1); [lia .. |].
      destruct (cell_in bd2 (Z.of_nat i) (Z.of_nat j) Hd2) as (r2' & Hr2' & _ & Hc2); [lia .. |].
      rewrite !Nat2Z.id in *. simplify_eq.
      rewrite Hc1, Hc2. f_equal. apply Hc; lia.
    + rewrite !lookup_ge_None_2 by lia. done.
  - destruct Hd1, Hd2. rewrite !lookup_ge_None_2 by lia. done.
Qed.

(** Writing one value on a list of cells. *)
Lemma dims_stamp (cells : list block) (v : Z) (bd : board_t) :
  dims bd → dims (foldl (λ bd b, set_cell bd (block_y b) (block_x b) v) bd cells).
Proof.
  revert bd. induction cells as [| c cells IH]; intros bd Hd; simpl; [done |].
  apply IH. by apply dims_set_cell.
Qed.

Lemma cell_stamp (cells : list block) (v : Z) (bd : board_t) (y x : Z) :
  dims bd → 0 ≤ y < Z.of_nat h → 0 ≤ x < Z.of_nat w →
  cell (foldl (λ bd b, set_cell bd (block_y b) (block_x b) v) bd cells) y x =
    if decide (Block y x ∈ cells) then v else cell bd y x.
Proof.
  intros Hd Hy Hx. revert bd Hd.
  induction cells as [| c cells IH]; intros bd Hd; cbn [foldl].
  - rewrite decide_False; [done | by apply not_elem_of_nil].
  - rewrite IH by by apply dims_set_cell.
    rewrite cell_set_cell by done.
    destruct c as [cy cx]. simpl.
    destruct (decide (Block y x ∈ cells)) as [Hin | Hin].
    + rewrite decide_True by (apply elem_of_cons; auto). done.
    + destruct (decide (cy = y ∧ cx = x)) as [[-> ->] | Hne].
      * rewrite decide_True by (apply elem_of_cons; auto). done.
      * rewrite decide_False; [done |].
        intros [[= <- <-] | ?]%elem_of_cons; tauto.
Qed.

End grid.

(** ** Moving and rotating the piece *)

Lemma check_boundary_spec (b : block) (y x : Z) :
  check_boundary b y x = true ↔
  0 ≤ block_y b + y < Z.of_nat rows ∧ 0 ≤ block_x b + x < Z.of_nat width_.
Proof.
  unfold check_boundary. rewrite !andb_true_iff.
  rewrite !Z.leb_le, !Z.ltb_lt. lia.
Qed.

(** [update_piece] writes the colour on [piece_cells]. *)
Lemma update_piece_board (c : Z) (t : tetris) :
  board_ (update_piece c t) =
    foldl (λ bd b, set_cell bd (block_y b) (block_x b) c)
          (board_ t) (piece_cells (curr_piece_ t)).
Proof.
  unfold update_piece, piece_cells, cells_at. simpl.
  symmetry. apply (foldl_fmap (λ bd b, set_cell bd (block_y b) (block_x b) c)).
Qed.

Lemma update_piece_dims (c : Z) (t : tetris) :
  board_dims (board_ t) → board_dims (board_ (update_piece c t)).
Proof. intros Hd. rewrite update_piece_board. by apply dims_stamp. Qed.

Lemma update_piece_cell (c : Z) (t : tetris) (y x : Z) :
  board_dims (board_ t) → 0 ≤ y < Z.of_nat rows → 0 ≤ x < Z.of_nat width_ →
  cell (board_ (update_piece c t)) y x =
    if decide (Block y x ∈ piece_cells (curr_piece_ t)) then c
    else cell (board_ t) y x.
Proof.
  intros Hd Hy Hx. rewrite update_piece_board.
  by apply (cell_stamp rows width_).
Qed.

Lemma update_piece_piece (c : Z) (t : tetris) :
  curr_piece_ (update_piece c t) = curr_piece_ t.
Proof. reflexivity. Qed.

(** Clearing the piece and stamping it again gives the state back, when
    the piece was stamped on the grid. *)
Lemma update_piece_restore_board (t : tetris) :
  wf t →
  board_ (update_piece (color (curr_piece_ t)) (update_piece 0 t)) = board_ t.
Proof.
  intros (Hd & Hp & Hcells).
  apply (board_ext rows width_).
  - by do 2 apply update_piece_dims.
  - done.
  - intros y x Hy Hx.
    rewrite update_piece_cell by (by try apply update_piece_dims).
    rewrite update_piece_piece.
    rewrite update_piece_cell by done.
    case_decide as Hin; [| done].
    rewrite Forall_forall in Hcells.
    destruct (Hcells _ Hin) as [_ Hc]. symmetry.
    unfold board_cell in Hc. simpl in Hc. by rewrite !Z.add_0_r in Hc.
Qed.

Lemma update_piece_restore (t : tetris) :
  wf t → update_piece (color (curr_piece_ t)) (update_piece 0 t) = t.
Proof.
  intros Hwf. pose proof (update_piece_restore_board t Hwf) as Hb.
  destruct t as [tc pv sc bd p].
  unfold update_piece at 1. unfold set_board. simpl. f_equal.
  exact Hb.
Qed.

Lemma can_move_state (y x : Z) (t : tetris) :
  wf t → (can_move y x t).2 = t.
Proof. intros Hwf. unfold can_move. simpl. by apply update_piece_restore. Qed.

Lemma can_rotate_state (ccw : bool) (t : tetris) :
  wf t → (can_rotate ccw t).2 = t.
Proof. intros Hwf. unfold can_rotate. simpl. by apply update_piece_restore. Qed.

Lemma move_piece_result (y x : Z) (t : tetris) :
  (move_piece y x t).1 = (can_move y x t).1.
Proof.
  unfold move_piece. destruct (can_move y x t) as [[] t1] eqn:Hc; done.
Qed.

Lemma rotate_piece_result (ccw : bool) (t : tetris) :
  (rotate_piece ccw t).1 = (can_rotate ccw t).1.
Proof.
  unfold rotate_piece. destruct (can_rotate ccw t) as [[] t1] eqn:Hc; done.
Qed.

Lemma move_piece_failed (y x : Z) (t : tetris) :
  wf t → (move_piece y x t).1 = false → (move_piece y x t).2 = t.
Proof.
  intros Hwf Hno. rewrite move_piece_result in Hno.
  unfold move_piece. pose proof (can_move_state y x t Hwf) as Hst.
  destruct (can_move y x t) as [ok t1]. simpl in Hno, Hst. by subst.
Qed.

Lemma rotate_piece_failed (ccw : bool) (t : tetris) :
  wf t → (rotate_piece ccw t).1 = false → (rotate_piece ccw t).2 = t.
Proof.
  intros Hwf Hno. rewrite rotate_piece_result in Hno.
  unfold rotate_piece. pose proof (can_rotate_state ccw t Hwf) as Hst.
  destruct (can_rotate ccw t) as [ok t1]. simpl in Hno, Hst. by subst.
Qed.

(** C3.  In a well-formed state (the grid has its dimensions and the
    active piece is stamped on it), when [move_piece] or [rotate_piece]
    returns [false], for whatever delta or direction, the whole state
    -- grid, anchor, rotation index, colour of the piece, and the
    counters -- is what it was before the call. *)
Theorem failed_move_or_rotation_restores (t : tetris) :
  wf t →
  (∀ y x, (move_piece y x t).1 = false → (move_piece y x t).2 = t) ∧
  (∀ ccw, (rotate_piece ccw t).1 = false → (rotate_piece ccw t).2 = t).
Proof.
  intros Hwf. split.
  - intros y x. unfold move_piece.
    pose proof (can_move_state y x t Hwf) as Hst.
    destruct (can_move y x t) as [[] t1]; simpl in *; [done | by intros _].
  - intros ccw. unfold rotate_piece.
    pose proof (can_rotate_state ccw t Hwf) as Hst.
    destruct (can_rotate ccw t) as [[] t1]; simpl in *; [done | by intros _].
Qed.


Lemma forallb_false_iff {A : Type} (f : A → bool) (l : list A) :
  forallb f l = false ↔ ∃ a, a ∈ l ∧ f a = false.
Proof.
  induction l as [| a l IH]; simpl.
  - split; [done |]. intros (a & Ha & _). by apply elem_of_nil in Ha.
  - rewrite andb_false_iff, IH. split.
    + intros [Ha | (b & Hb & Hfb)].
      * exists a. split; [apply elem_of_cons; auto | done].
      * exists b. split; [apply elem_of_cons; auto | done].
    + intros (b & [-> | Hb]%elem_of_cons & Hfb); [by left |].
      right. by exists b.
Qed.

(** The test that [can_move] and [can_rotate] apply to one cell, on the
    grid from which the piece has been cleared: the cell lies in the
    grid, and it is empty or one of the piece's own. *)
Lemma cleared_cell_test (t : tetris) (c : block) (y x : Z) :
  board_dims (board_ t) →
  negb (negb (check_boundary c y x) ||
        negb (board_cell (board_ (update_piece 0 t)) c y x =? 0)) = false ↔
  check_boundary c y x = false ∨
  (board_cell (board_ t) c y x ≠ 0 ∧
   Block (block_y c + y) (block_x c + x) ∉ piece_cells (curr_piece_ t)).
Proof.
  intros Hd. rewrite negb_false_iff, orb_true_iff, !negb_true_iff.
  destruct (check_boundary c y x) eqn:Hin.
  - apply check_boundary_spec in Hin as [Hy Hx].
    unfold board_cell. rewrite update_piece_cell by done.
    rewrite Z.eqb_neq. case_decide as Hown; split.
    + intros [? | ?]; done.
    + intros [? | [_ ?]]; done.
    + intros [? | ?]; [done | by right].
    + intros [? | [? _]]; [done | by right].
  - split; intros _; by left.
Qed.

Lemma block_add_shift (loc blk : block) (y x : Z) :
  Block (block_y (block_add loc blk) + y) (block_x (block_add loc blk) + x) =
  block_add (Block (block_y loc + y) (block_x loc + x)) blk.
Proof. unfold block_add. simpl. f_equal; lia. Qed.

Lemma block_add_0 (c : block) : Block (block_y c + 0) (block_x c + 0) = c.
Proof. destruct c. simpl. f_equal; lia. Qed.

(** When [can_rotate] says no. *)
Lemma can_rotate_false (ccw : bool) (t : tetris) :
  board_dims (board_ t) →
  (can_rotate ccw t).1 = false ↔
  ∃ c, c ∈ cells_at (location (curr_piece_ t))
                    (get_rotated_shape (curr_piece_ t) ccw) ∧
       (check_boundary c 0 0 = false ∨
        (board_cell (board_ t) c 0 0 ≠ 0 ∧ c ∉ piece_cells (curr_piece_ t))).
Proof.
  intros Hd. unfold can_rotate. cbn [fst]. rewrite forallb_false_iff.
  rewrite !update_piece_piece. split.
  - intros (blk & Hblk & Htest). cbv zeta in Htest.
    apply cleared_cell_test in Htest; [| done].
    rewrite block_add_0 in Htest.
    eexists. split; [| exact Htest].
    unfold cells_at. apply list_elem_of_fmap. by exists blk.
  - intros (c & Hc & Hbad). unfold cells_at in Hc.
    apply list_elem_of_fmap in Hc as (blk & -> & Hblk).
    exists blk. split; [done |]. cbv zeta.
    apply cleared_cell_test; [done |]. by rewrite block_add_0.
Qed.

(** When [can_move] says no. *)
Lemma can_move_false (y x : Z) (t : tetris) :
  board_dims (board_ t) →
  (can_move y x t).1 = false ↔
  ∃ c, c ∈ piece_cells (curr_piece_ t) ∧
       (check_boundary c y x = false ∨
        (board_cell (board_ t) c y x ≠ 0 ∧
         Block (block_y c + y) (block_x c + x) ∉ piece_cells (curr_piece_ t))).
Proof.
  intros Hd. unfold can_move. cbn [fst]. rewrite forallb_false_iff.
  rewrite !update_piece_piece. split.
  - intros (blk & Hblk & Htest). cbv zeta in Htest.
    apply cleared_cell_test in Htest; [| done].
    eexists. split; [| exact Htest].
    unfold piece_cells, cells_at. apply list_elem_of_fmap. by exists blk.
  - intros (c & Hc & Hbad). unfold piece_cells, cells_at in Hc.
    apply list_elem_of_fmap in Hc as (blk & -> & Hblk).
    exists blk. split; [done |]. cbv zeta.
    by apply cleared_cell_test.
Qed.

(** What a successful rotation leaves. *)
Lemma rotate_piece_true (ccw : bool) (t : tetris) :
  wf t → (rotate_piece ccw t).1 = true →
  (rotate_piece ccw t).2 =
    update_piece (color (curr_piece_ t))
                 (set_curr_piece (rotate (curr_piece_ t) ccw) (update_piece 0 t)).
Proof.
  intros Hwf. unfold rotate_piece.
  pose proof (can_rotate_state ccw t Hwf) as Hst.
  destruct (can_rotate ccw t) as [[] t1]; simpl in *; [| done].
  intros _. by subst t1.
Qed.

(** What a successful move leaves. *)
Lemma move_piece_true (y x : Z) (t : tetris) :
  wf t → (move_piece y x t).1 = true →
  (move_piece y x t).2 =
    let p := curr_piece_ t in
    update_piece (color p)
      (set_curr_piece
         (Piece (shape p)
                (Block (block_y (location p) + y) (block_x (location p) + x))
                (rotation p) (color p))
         (update_piece 0 t)).
Proof.
  intros Hwf. unfold move_piece.
  pose proof (can_move_state y x t Hwf) as Hst.
  destruct (can_move y x t) as [[] t1]; simpl in *; [| done].
  intros _. by subst t1.
Qed.

(** C9.  In a well-formed state, for either direction, [rotate_piece]
    tests the rotation state next to the current one in that direction
    -- state [rotation + 1], or [rotation - 1], modulo the number of
    states of the kind -- placed at the unchanged anchor: it fails
    exactly when some cell of that state lies outside the grid or holds
    a non-zero value that is not one of the piece's own cells; no other
    anchor and no other state enters the test.  When it succeeds, the
    piece has that rotation index and the same anchor, kind and colour,
    so the cells it covers are the cells that were tested. *)
Theorem rotate_piece_spec (ccw : bool) (t : tetris) :
  wf t →
  let p := curr_piece_ t in
  let r' := get_rotated p ccw in
  let tested := cells_at (location p) (shape_at (shape p) r') in
  r' = (if ccw then rotation p - 1 else rotation p + 1) mod n_rot (shape p) ∧
  ((rotate_piece ccw t).1 = false ↔
   ∃ c, c ∈ tested ∧
        (check_boundary c 0 0 = false ∨
         (board_cell (board_ t) c 0 0 ≠ 0 ∧ c ∉ piece_cells p))) ∧
  ((rotate_piece ccw t).1 = true →
   curr_piece_ (rotate_piece ccw t).2 =
     Piece (shape p) (location p) r' (color p) ∧
   piece_cells (curr_piece_ (rotate_piece ccw t).2) = tested).
Proof.
  intros Hwf p r' tested.
  assert (0 ≤ rotation p < n_rot (shape p)) as Hr by apply Hwf.
  split_and!.
  - unfold r'. destruct ccw.
    + rewrite get_rotated_ccw by done. case_decide as H0.
      * rewrite H0. replace (0 - 1) with (-1 + 0) by lia.
        rewrite <- (Z.mod_add (-1 + 0) 1) by lia.
        rewrite Z.mod_small; lia.
      * rewrite Z.mod_small; lia.
    + rewrite get_rotated_cw by done. case_decide as Hn.
      * rewrite Hn. by rewrite Z.mod_same by lia.
      * rewrite Z.mod_small; lia.
  - rewrite rotate_piece_result. apply can_rotate_false. apply Hwf.
  - intros Hok. by rewrite rotate_piece_true.
Qed.

(** ** Well-formedness is kept *)

(** Every rotation state of the catalog has four blocks. *)
Lemma shape_at_length (s : nat) (r : Z) :
  (s < length shapes_)%nat → 0 ≤ r < n_rot s → length (shape_at s r) = 4%nat.
Proof.
  intros Hs Hr. unfold n_rot in Hr.
  do 7 (destruct s as [| s]; [simpl in Hr;
        assert (r = 0 ∨ r = 1 ∨ r = 2 ∨ r = 3) as Hcases by lia;
        destruct_or!; subst r; (reflexivity || lia) |]).
  simpl in Hs. lia.
Qed.


Lemma can_move_true_in_grid (y x : Z) (t : tetris) (c : block) :
  board_dims (board_ t) → (can_move y x t).1 = true →
  c ∈ piece_cells (curr_piece_ t) → check_boundary c y x = true.
Proof.
  intros Hd Hok Hc. destruct (check_boundary c y x) eqn:Hin; [done |].
  assert ((can_move y x t).1 = false) as Hno; [| congruence].
  apply can_move_false; [done |]. exists c. auto.
Qed.

Lemma can_rotate_true_in_grid (ccw : bool) (t : tetris) (c : block) :
  board_dims (board_ t) → (can_rotate ccw t).1 = true →
  c ∈ cells_at (location (curr_piece_ t)) (get_rotated_shape (curr_piece_ t) ccw) →
  check_boundary c 0 0 = true.
Proof.
  intros Hd Hok Hc. destruct (check_boundary c 0 0) eqn:Hin; [done |].
  assert ((can_rotate ccw t).1 = false) as Hno; [| congruence].
  apply can_rotate_false; [done |]. exists c. auto.
Qed.

(** Stamping a piece whose cells lie in the grid gives a well-formed
    state. *)
Lemma update_piece_wf (t : tetris) :
  board_dims (board_ t) → valid_piece (curr_piece_ t) →
  Forall (λ c, check_boundary c 0 0 = true) (piece_cells (curr_piece_ t)) →
  wf (update_piece (color (curr_piece_ t)) t).
Proof.
  intros Hd Hp Hin. split_and!.
  - by apply update_piece_dims.
  - done.
  - rewrite update_piece_piece. apply Forall_forall. intros c Hc.
    rewrite Forall_forall in Hin. pose proof (Hin c Hc) as Hg. split; [done |].
    apply check_boundary_spec in Hg as [Hy Hx].
    unfold board_cell. rewrite update_piece_cell by (first [done | lia]).
    rewrite block_add_0. by rewrite decide_True.
Qed.

Lemma move_piece_wf (y x : Z) (t : tetris) :
  wf t → wf (move_piece y x t).2.
Proof.
  intros Hwf. destruct (move_piece y x t).1 eqn:Hok.
  - rewrite move_piece_true by done. cbv zeta.
    rewrite move_piece_result in Hok.
    destruct Hwf as (Hd & Hp & Hcells).
    match goal with |- wf (update_piece _ ?T) =>
      change (wf (update_piece (color (curr_piece_ T)) T)) end.
    apply update_piece_wf.
    + by apply update_piece_dims.
    + done.
    + simpl. unfold piece_cells, cells_at, get_shape. simpl.
      apply Forall_forall. intros c (blk & -> & Hblk)%list_elem_of_fmap.
      rewrite <- block_add_shift.
      pose proof (can_move_true_in_grid y x t (block_add (location (curr_piece_ t)) blk) Hd Hok) as Hin.
      rewrite check_boundary_spec in Hin. apply check_boundary_spec. simpl.
      rewrite !Z.add_0_r. apply Hin.
      unfold piece_cells, cells_at. apply list_elem_of_fmap. by exists blk.
  - by rewrite move_piece_failed.
Qed.

Lemma rotate_piece_wf (ccw : bool) (t : tetris) :
  wf t → wf (rotate_piece ccw t).2.
Proof.
  intros Hwf. destruct (rotate_piece ccw t).1 eqn:Hok.
  - rewrite rotate_piece_true by done.
    rewrite rotate_piece_result in Hok.
    destruct Hwf as (Hd & Hp & Hcells).
    match goal with |- wf (update_piece _ ?T) =>
      change (wf (update_piece (color (curr_piece_ T)) T)) end.
    apply update_piece_wf.
    + by apply update_piece_dims.
    + destruct Hp as (Hs & Hr & Hc). split; [done | split; [| done]].
      simpl. by apply get_rotated_valid.
    + simpl. apply Forall_forall. intros c Hc.
      by apply (can_rotate_true_in_grid ccw t c Hd Hok).
  - by rewrite rotate_piece_failed.
Qed.

(** ** The hard drop *)

Lemma move_piece_pair (y x : Z) (t : tetris) :
  move_piece y x t = ((move_piece y x t).1, (move_piece y x t).2).
Proof. by destruct (move_piece y x t). Qed.


(** ** Running computations that draw *)

Lemma run_bind {A B : Type} (m : rand A) (f : A → rand B) (ds : list Z) :
  run (m ≫= f) ds =
    match run m ds with
    | Some (a, ds') => run (f a) ds'
    | None => None
    end.
Proof.
  revert ds. induction m as [a | lo hi k IH]; intros ds; [done |].
  change (Draw lo hi k ≫= f) with (Draw lo hi (λ d, k d ≫= f)).
  simpl. destruct ds as [| d ds]; [done |].
  case_bool_decide; [apply IH | done].
Qed.

Lemma run_uniform (lo hi : Z) (ds : list Z) (d : Z) (ds' : list Z) :
  run (uniform lo hi) ds = Some (d, ds') ↔ ds = d :: ds' ∧ lo ≤ d ≤ hi.
Proof.
  unfold uniform. simpl. destruct ds as [| d0 ds0].
  - split; [done | by intros [? _]].
  - case_bool_decide as Hd; split.
    + by intros [= -> ->].
    + by intros [[= -> ->] _].
    + done.
    + intros [[= -> ->] ?]. done.
Qed.

Lemma run_ret {A : Type} (a : A) (ds : list Z) : run (mret a) ds = Some (a, ds).
Proof. reflexivity. Qed.

Lemma random_shape_run (t : tetris) (ds : list Z) (s : Z) (t1 : tetris) (ds' : list Z) :
  run (random_shape t) ds = Some ((s, t1), ds') →
  0 ≤ s < n_shapes_ ∧ t1 = set_prev_shape s t.
Proof.
  unfold random_shape. rewrite run_bind.
  destruct (run (uniform 0 n_shapes_) ds) as [[d1 ds1] |] eqn:H1; [| done].
  apply run_uniform in H1 as [-> Hd1].
  rewrite run_bind.
  destruct ((d1 =? n_shapes_) || (d1 =? prev_shape_ t)) eqn:Hre.
  - destruct (run (uniform 0 (n_shapes_ - 1)) ds1) as [[d2 ds2] |] eqn:H2; [| done].
    apply run_uniform in H2 as [-> Hd2].
    rewrite run_ret. intros [= -> <- <-]. split; [lia | done].
  - rewrite run_ret. rewrite run_ret. intros [= -> <- <-].
    apply orb_false_iff in Hre as [Hne%Z.eqb_neq _]. split; [lia | done].
Qed.

(** ** The extent of a rotation state *)

Lemma extent_fold (l : list block) (e : extent) :
  let e' := foldl extent_step e l in
  (y_min e' ≤ y_min e ∧ y_max e ≤ y_max e' ∧
   x_min e' ≤ x_min e ∧ x_max e ≤ x_max e') ∧
  (∀ b, b ∈ l → y_min e' ≤ block_y b ≤ y_max e' ∧
                x_min e' ≤ block_x b ≤ x_max e') ∧
  (y_min e' = y_min e ∨ ∃ b, b ∈ l ∧ block_y b = y_min e').
Proof.
  revert e. induction l as [| b l IH]; intros e; cbn [foldl].
  - cbv zeta. split_and!; try lia.
    all: try (intros b Hb; by apply elem_of_nil in Hb).
  - destruct (IH (extent_step e b)) as ((H1 & H2 & H3 & H4) & Hall & Hmin).
    cbv zeta in *. set (e' := foldl extent_step (extent_step e b) l) in *.
    clearbody e'. unfold extent_step in H1, H2, H3, H4, Hmin.
    simpl in H1, H2, H3, H4, Hmin.
    split_and!; try lia.
    + intros b' [-> | Hb']%elem_of_cons; [lia | by apply Hall].
    + destruct Hmin as [Hmin | (b' & Hb' & Hmin)].
      * destruct (Z.min_spec (y_min e) (block_y b)) as [[_ Hm] | [_ Hm]].
        -- left. lia.
        -- right. exists b. split; [apply elem_of_cons; auto | lia].
      * right. exists b'. split; [apply elem_of_cons; auto | done].
Qed.

Lemma shape_extent_bounds (s : shape_t) (b : block) :
  b ∈ s →
  y_min (shape_extent s) ≤ block_y b ≤ y_max (shape_extent s) ∧
  x_min (shape_extent s) ≤ block_x b ≤ x_max (shape_extent s).
Proof.
  intros Hb. unfold shape_extent. destruct s as [| b0 rest].
  { by apply elem_of_nil in Hb. }
  change (drop 1 (b0 :: rest)) with rest.
  change ((b0 :: rest) !!! 0%nat) with b0. cbv zeta.
  match goal with |- context [foldl extent_step ?e rest] =>
    destruct (extent_fold rest e) as ((H1 & H2 & H3 & H4) & Hall & _) end.
  cbv zeta in *. simpl in H1, H2, H3, H4.
  apply elem_of_cons in Hb as [-> | Hb]; [lia | by apply Hall].
Qed.

Lemma shape_extent_top (s : shape_t) :
  s ≠ [] → ∃ b, b ∈ s ∧ block_y b = y_min (shape_extent s).
Proof.
  intros Hs. unfold shape_extent. destruct s as [| b0 rest]; [done |].
  change (drop 1 (b0 :: rest)) with rest.
  change ((b0 :: rest) !!! 0%nat) with b0. cbv zeta.
  match goal with |- context [foldl extent_step ?e rest] =>
    destruct (extent_fold rest e) as (_ & _ & Hmin) end.
  cbv zeta in Hmin. simpl in Hmin. destruct Hmin as [Hmin | (b & Hb & Hmin)].
  - exists b0. split; [apply elem_of_cons; auto | done].
  - exists b. split; [apply elem_of_cons; auto | done].
Qed.

(** ** Spawning *)

Lemma existsb_elem_of {A : Type} (f : A → bool) (l : list A) :
  existsb f l = true ↔ ∃ a, a ∈ l ∧ f a = true.
Proof.
  rewrite existsb_exists. split; intros (a & Ha & Hf); exists a;
    (split; [by apply list_elem_of_In | done]).
Qed.

(** Every way [new_piece] can end. *)
Lemma new_piece_run (t : tetris) (ds : list Z) (o : outcome) (ds' : list Z) :
  run (new_piece t) ds = Some (o, ds') →
  ∃ s c r,
    0 ≤ s < n_shapes_ ∧ 1 ≤ c ≤ 7 ∧ 0 ≤ r < n_rot (Z.to_nat s) ∧
    let ext := shape_extent (shape_at (Z.to_nat s) r) in
    (o = SpaceTooSmall
           (set_curr_piece (Piece (Z.to_nat s) (location (curr_piece_ t)) r c)
                           (set_prev_shape s t)) ∨
     ∃ x, - x_min ext ≤ x ≤ Z.of_nat width_ - x_max ext - 1 ∧
          Z.of_nat invisible_lines_ - y_min ext + y_max ext < Z.of_nat rows ∧
          let t2 := placed s c r x t in
          ((o = GameOver t2 ∧
            ∃ b, b ∈ piece_cells (curr_piece_ t2) ∧ board_cell (board_ t) b 0 0 ≠ 0) ∨
           (o = Ok (update_piece c t2) ∧
            ∀ b, b ∈ piece_cells (curr_piece_ t2) → board_cell (board_ t) b 0 0 = 0))).
Proof.
  unfold new_piece. rewrite run_bind.
  destruct (run (random_shape t) ds) as [[[s t1] ds1] |] eqn:Hs; [| done].
  apply random_shape_run in Hs as [Hs ->].
  rewrite run_bind.
  destruct (run (uniform 1 7) ds1) as [[c ds2] |] eqn:Hc; [| done].
  apply run_uniform in Hc as [-> Hc].
  rewrite run_bind.
  destruct (run (uniform 0 (n_rot (Z.to_nat s) - 1)) ds2) as [[r ds3] |] eqn:Hr; [| done].
  apply run_uniform in Hr as [-> Hr].
  cbv zeta. unfold get_extent, get_shape. cbn [shape rotation].
  set (ext := shape_extent (shape_at (Z.to_nat s) r)).
  intros Hrun. exists s, c, r. split_and!; try lia. fold ext. cbv zeta.
  destruct ((Z.of_nat width_ - x_max ext - 1 <? - x_min ext) ||
            (Z.of_nat rows <=? Z.of_nat invisible_lines_ - y_min ext + y_max ext))
    eqn:Hsmall.
  - left. rewrite run_ret in Hrun. by injection Hrun as <- _.
  - right. apply orb_false_iff in Hsmall as [Hx%Z.ltb_ge Hy%Z.leb_gt].
    rewrite run_bind in Hrun.
    destruct (run (uniform (- x_min ext) (Z.of_nat width_ - x_max ext - 1)) ds3)
      as [[x ds4] |] eqn:Hxd; [| done].
    apply run_uniform in Hxd as [-> Hxr].
    exists x. split_and!; try lia.
    unfold placed. fold ext.
    match type of Hrun with context [existsb ?f ?l] =>
      destruct (existsb f l) eqn:Hover end.
    + left. rewrite run_ret in Hrun. injection Hrun as <- _. split; [done |].
      apply existsb_elem_of in Hover as (blk & Hblk & Hne).
      eexists. split.
      * unfold piece_cells, cells_at. apply list_elem_of_fmap.
        exists blk. split; [reflexivity | exact Hblk].
      * apply negb_true_iff, Z.eqb_neq in Hne. exact Hne.
    + right. rewrite run_ret in Hrun. injection Hrun as <- _. split; [done |].
      intros b (blk & -> & Hblk)%list_elem_of_fmap.
      destruct (decide (board_cell (board_ t) (block_add (location (curr_piece_
        (set_curr_piece (Piece (Z.to_nat s) (Block (Z.of_nat invisible_lines_ - y_min ext) x) r c)
           (set_prev_shape s t)))) blk) 0 0 = 0)) as [Hz | Hnz]; [done |].
      exfalso. apply not_true_iff_false in Hover. apply Hover.
      apply existsb_elem_of. exists blk. split; [exact Hblk |].
      apply negb_true_iff, Z.eqb_neq. exact Hnz.
Qed.

Lemma placed_cells (s c r x : Z) (t : tetris) :
  piece_cells (curr_piece_ (placed s c r x t)) =
    cells_at (Block (Z.of_nat invisible_lines_ -
                     y_min (shape_extent (shape_at (Z.to_nat s) r))) x)
             (shape_at (Z.to_nat s) r).
Proof. reflexivity. Qed.

(** The cells of a freshly placed piece lie in the grid, its top row
    being the first row below the hidden ones. *)
Lemma placed_in_grid (s c r x : Z) (t : tetris) (b : block) :
  let ext := shape_extent (shape_at (Z.to_nat s) r) in
  - x_min ext ≤ x ≤ Z.of_nat width_ - x_max ext - 1 →
  Z.of_nat invisible_lines_ - y_min ext + y_max ext < Z.of_nat rows →
  b ∈ piece_cells (curr_piece_ (placed s c r x t)) →
  Z.of_nat invisible_lines_ ≤ block_y b < Z.of_nat rows ∧
  0 ≤ block_x b < Z.of_nat width_.
Proof.
  intros ext Hx Hy. rewrite placed_cells. fold ext.
  intros (blk & -> & Hblk)%list_elem_of_fmap.
  pose proof (shape_extent_bounds _ _ Hblk) as Hb. fold ext in Hb.
  simpl. lia.
Qed.

(** C6.  However the draws fall, when [new_piece] places a piece (it
    ends normally or with [gameover], not with the "space too small"
    error), every cell of the placed piece has its column in
    [0, width_). *)
Theorem spawn_columns_in_grid (t : tetris) (ds : list Z) (o : outcome) (ds' : list Z) :
  run (new_piece t) ds = Some (o, ds') →
  (∀ t', o ≠ SpaceTooSmall t') →
  ∀ b, b ∈ piece_cells (curr_piece_ (outcome_state o)) →
       0 ≤ block_x b < Z.of_nat width_.
Proof.
  intros Hrun Hplaced b Hb.
  apply new_piece_run in Hrun as (s & c & r & Hs & Hc & Hr & Hcases).
  cbv zeta in Hcases.
  destruct Hcases as [-> | (x & Hx & Hy & [[-> _] | [-> _]])].
  - exfalso. by eapply Hplaced.
  - by apply (placed_in_grid s c r x t b Hx Hy).
  - by apply (placed_in_grid s c r x t b Hx Hy).
Qed.

(** C5, as the code has it.  When [new_piece] places a piece, the least
    row over its cells is row [invisible_lines_], the first visible row:
    the hidden rows stay above the fresh piece. *)
Theorem spawn_top_row (t : tetris) (ds : list Z) (o : outcome) (ds' : list Z) :
  run (new_piece t) ds = Some (o, ds') →
  (∀ t', o ≠ SpaceTooSmall t') →
  (∀ b, b ∈ piece_cells (curr_piece_ (outcome_state o)) →
        Z.of_nat invisible_lines_ ≤ block_y b) ∧
  (∃ b, b ∈ piece_cells (curr_piece_ (outcome_state o)) ∧
        block_y b = Z.of_nat invisible_lines_).
Proof.
  intros Hrun Hplaced.
  apply new_piece_run in Hrun as (s & c & r & Hs & Hc & Hr & Hcases).
  cbv zeta in Hcases.
  assert (∀ x, - x_min (shape_extent (shape_at (Z.to_nat s) r)) ≤ x
               ≤ Z.of_nat width_ - x_max (shape_extent (shape_at (Z.to_nat s) r)) - 1 →
          Z.of_nat invisible_lines_ - y_min (shape_extent (shape_at (Z.to_nat s) r)) +
            y_max (shape_extent (shape_at (Z.to_nat s) r)) < Z.of_nat rows →
          (∀ b, b ∈ piece_cells (curr_piece_ (placed s c r x t)) →
                Z.of_nat invisible_lines_ ≤ block_y b) ∧
          (∃ b, b ∈ piece_cells (curr_piece_ (placed s c r x t)) ∧
                block_y b = Z.of_nat invisible_lines_)) as Hgen.
  { intros x Hx Hy. split.
    - intros b Hb. by apply (placed_in_grid s c r x t b Hx Hy).
    - destruct (shape_extent_top (shape_at (Z.to_nat s) r)) as (blk & Hblk & Htop).
      { assert (length (shape_at (Z.to_nat s) r) = 4%nat) as Hlen.
        { apply shape_at_length; [| done]. unfold n_shapes_ in Hs. lia. }
        intros Hnil. by rewrite Hnil in Hlen. }
      eexists. split.
      + rewrite placed_cells. apply list_elem_of_fmap. exists blk. split; [reflexivity | done].
      + simpl. lia. }
  destruct Hcases as [-> | (x & Hx & Hy & [[-> _] | [-> _]])].
  - exfalso. by eapply Hplaced.
  - by apply Hgen.
  - by apply Hgen.
Qed.



(** ** Clearing and copying a line *)

Lemma fill_row_length (g : nat → Z) (l : list nat) (row : list Z) :
  length (foldl (λ r x, <[x := g x]> r) row l) = length row.
Proof.
  revert row. induction l as [| x l IH]; intros row; simpl; [done |].
  by rewrite IH, length_insert.
Qed.

Lemma fill_row_lookup (g : nat → Z) (k : nat) (row : list Z) (i : nat) :
  (k ≤ length row)%nat →
  foldl (λ r x, <[x := g x]> r) row (seq 0 k) !! i =
    if decide (i < k)%nat then Some (g i) else row !! i.
Proof.
  induction k as [| k IH]; intros Hk.
  - cbn [seq foldl]. rewrite decide_False by lia. done.
  - rewrite seq_S, foldl_snoc. cbn [Nat.add].
    rewrite list_lookup_insert, fill_row_length, IH by lia.
    repeat case_decide; try lia; try done.
    destruct_and!. by subst.
Qed.

Lemma fold_alter_row (f : nat → list Z → list Z) (y : nat) (l : list nat) (bd : board_t) :
  foldl (λ bd x, alter (f x) y bd) bd l =
    alter (λ row, foldl (λ r x, f x r) row l) y bd.
Proof.
  revert bd. induction l as [| x l IH]; intros bd; simpl.
  - symmetry. by apply list_alter_id.
  - rewrite IH. by rewrite list_alter_alter_eq.
Qed.

Lemma alter_as_insert (f : list Z → list Z) (y : nat) (bd : board_t) (row : list Z) :
  bd !! y = Some row → alter f y bd = <[y := f row]> bd.
Proof.
  intros Hrow. apply list_eq. intros i.
  rewrite list_lookup_alter, list_lookup_insert.
  pose proof (lookup_lt_Some _ _ _ Hrow) as Hlt.
  repeat case_decide; try done.
  - destruct_and!. subst. by rewrite Hrow.
  - exfalso. naive_solver.
  - destruct_and!. by subst.
Qed.

Lemma clear_line_insert (y : nat) (bd : board_t) (row : list Z) :
  bd !! y = Some row → length row = width_ →
  clear_line y bd = <[y := replicate width_ 0]> bd.
Proof.
  intros Hrow Hlen. unfold clear_line.
  rewrite (fold_alter_row (λ x row, <[x := 0]> row)).
  rewrite (alter_as_insert _ _ _ _ Hrow). f_equal.
  apply list_eq. intros i.
  rewrite (fill_row_lookup (λ _, 0)) by lia.
  case_decide.
  - by rewrite lookup_replicate_2.
  - rewrite !lookup_ge_None_2; [done | rewrite length_replicate; lia | lia].
Qed.

Lemma copy_line_insert (from y : nat) (bd : board_t) (rf ry : list Z) :
  from ≠ y → bd !! from = Some rf → bd !! y = Some ry →
  length rf = width_ → length ry = width_ →
  copy_line from y bd = <[y := rf]> bd.
Proof.
  intros Hne Hrf Hry Hlf Hly. unfold copy_line.
  assert (∀ (l : list nat) (bd' : board_t), bd' !! from = Some rf →
            foldl (λ bd x, alter (λ row, <[x := default 0 (r ← bd !! from; r !! x)]> row) y bd) bd' l =
            foldl (λ bd x, alter (λ row, <[x := default 0 (rf !! x)]> row) y bd) bd' l) as Hsame.
  { induction l as [| x l IH]; intros bd' Hbd'; simpl; [done |].
    rewrite Hbd'. simpl. apply IH.
    by rewrite list_lookup_alter_ne by done. }
  rewrite Hsame by done.
  rewrite (fold_alter_row (λ x row, <[x := default 0 (rf !! x)]> row)).
  rewrite (alter_as_insert _ _ _ _ Hry). f_equal.
  apply list_eq. intros i.
  rewrite (fill_row_lookup (λ x, default 0 (rf !! x))) by lia.
  case_decide as Hi.
  - destruct (lookup_lt_is_Some_2 rf i) as [c Hc]; [lia |]. by rewrite Hc.
  - rewrite !lookup_ge_None_2; [done | lia | lia].
Qed.

(** ** The search for the row to move down *)

Lemma find_from_Some (R : gset nat) (moved : list bool) (y f : nat) :
  find_from R moved y = Some f →
  (f < y)%nat ∧ (f ∉ R) ∧ default false (moved !! f) = false ∧
  ∀ g, (f < g < y)%nat → g ∈ R ∨ default false (moved !! g) = true.
Proof.
  induction y as [| y IH]; simpl; [done |].
  destruct (bool_decide (y ∈ R) || default false (moved !! y)) eqn:Hskip.
  - intros Hf. destruct (IH Hf) as (Hlt & HR & Hmv & Hbetween).
    split_and!; [lia | done | done |].
    intros g Hg. destruct (decide (g = y)) as [-> | Hgy].
    + apply orb_true_iff in Hskip as [Hin%bool_decide_eq_true | Hm]; auto.
    + apply Hbetween. lia.
  - intros [= <-]. apply orb_false_iff in Hskip as [Hin%bool_decide_eq_false Hm].
    split_and!; [lia | done | done |]. intros g Hg. lia.
Qed.

Lemma find_from_None (R : gset nat) (moved : list bool) (y : nat) :
  find_from R moved y = None →
  ∀ g, (g < y)%nat → g ∈ R ∨ default false (moved !! g) = true.
Proof.
  induction y as [| y IH]; simpl; [intros _ g Hg; lia |].
  destruct (bool_decide (y ∈ R) || default false (moved !! y)) eqn:Hskip; [| done].
  intros Hf g Hg. destruct (decide (g = y)) as [-> | Hgy].
  - apply orb_true_iff in Hskip as [Hin%bool_decide_eq_true | Hm]; auto.
  - apply IH; [done | lia].
Qed.

(** ** Counting the removed lines below a row *)

Local Open Scope nat_scope.

Lemma removed_below_S (R : gset nat) (g : nat) :
  removed_below R g = removed_below R (S g) + (if decide (S g ∈ R) then 1 else 0).
Proof.
  unfold removed_below. case_decide as Hin.
  - assert (filter (λ q, g < q) R = {[ S g ]} ∪ filter (λ q, S g < q) R) as ->.
    { apply set_eq. intros q.
      rewrite elem_of_union, elem_of_singleton, !elem_of_filter.
      split.
      - intros [Hq HR]. destruct (decide (q = S g)); [by left | right; split; [lia | done]].
      - intros [-> | [Hq HR]]; split; [lia | done | lia | done]. }
    rewrite size_union, size_singleton; [lia |].
    intros q. rewrite elem_of_singleton, elem_of_filter. intros -> [Hq _]. lia.
  - assert (filter (λ q, g < q) R = filter (λ q, S g < q) R) as ->; [| lia].
    apply set_eq. intros q. rewrite !elem_of_filter. split.
    + intros [Hq HR]. split; [| done].
      destruct (decide (q = S g)) as [-> | ?]; [done | lia].
    + intros [Hq HR]. split; [lia | done].
Qed.

Lemma removed_below_none (R : gset nat) (m g : nat) :
  (∀ q, q ∈ R → q ≤ m) → m ≤ g → removed_below R g = 0.
Proof.
  intros Hmax Hg. unfold removed_below. apply size_empty_iff.
  intros q. rewrite elem_of_filter. split; [| by intros ?%not_elem_of_empty].
  intros [Hq HR]. specialize (Hmax q HR). lia.
Qed.

Lemma removed_below_0 (R : gset nat) :
  size R = removed_below R 0 + (if decide (0 ∈ R) then 1 else 0).
Proof.
  unfold removed_below. case_decide as Hin.
  - assert (R = {[ 0 ]} ∪ filter (λ q, 0 < q) R) as Heq.
    { apply set_eq. intros q.
      rewrite elem_of_union, elem_of_singleton, elem_of_filter. split.
      - intros HR. destruct (decide (q = 0)); [by left | right; split; [lia | done]].
      - intros [-> | [_ HR]]; done. }
    rewrite Heq at 1. rewrite size_union, size_singleton; [lia |].
    intros q. rewrite elem_of_singleton, elem_of_filter. intros -> [Hq _]. lia.
  - assert (filter (λ q, 0 < q) R = R) as ->; [| lia].
    apply set_eq. intros q. rewrite elem_of_filter. split; [by intros [_ ?] |].
    intros HR. split; [| done].
    destruct (decide (q = 0)) as [-> | ?]; [done | lia].
Qed.

(** Going up [d] rows meets at most [d] removed lines. *)
Lemma removed_below_gap (R : gset nat) (g d : nat) :
  removed_below R (g + d) ≤ removed_below R g ≤ removed_below R (g + d) + d.
Proof.
  induction d as [| d IH].
  - rewrite Nat.add_0_r. lia.
  - replace (g + S d) with (S (g + d)) by lia.
    pose proof (removed_below_S R (g + d)) as HS. case_decide; lia.
Qed.

(** The row a kept row lands on grows strictly with the row. *)
Lemma landing_increasing (R : gset nat) (g g' : nat) :
  g < g' → g' ∉ R → g + removed_below R g < g' + removed_below R g'.
Proof.
  intros Hlt Hout. destruct g' as [| g']; [lia |].
  pose proof (removed_below_S R g') as HS.
  rewrite decide_False in HS by done.
  pose proof (removed_below_gap R g (g' - g)) as Hgap.
  replace (g + (g' - g)) with g' in Hgap by lia. lia.
Qed.

Lemma removed_below_pos (R : gset nat) (m g : nat) :
  m ∈ R → g < m → 1 ≤ removed_below R g.
Proof.
  intros Hm Hg. destruct m as [| m]; [lia |].
  pose proof (removed_below_S R m) as HS. rewrite decide_True in HS by done.
  pose proof (removed_below_gap R g (m - g)) as Hgap.
  replace (g + (m - g)) with m in Hgap by lia. lia.
Qed.

(** A kept row lands at or below the rows that the removed lines free at
    the top. *)
Lemma landing_below_freed (R : gset nat) (g : nat) :
  g ∉ R → size R ≤ g + removed_below R g.
Proof.
  intros Hout. pose proof (removed_below_0 R) as H0.
  destruct g as [| g].
  - rewrite decide_False in H0 by done. lia.
  - pose proof (removed_below_S R g) as HS. rewrite decide_False in HS by done.
    pose proof (removed_below_gap R 0 g) as Hgap. simpl in Hgap.
    case_decide; lia.
Qed.

(** A row that the search stops at lands exactly on the row being
    filled. *)
Lemma landing_reaches (R : gset nat) (m y f : nat) :
  m ∈ R → y ≤ m →
  (∀ g, f < g < y → g ∈ R ∨ y < g + removed_below R g) →
  ∀ n g, g + n + 1 = y → f ≤ g → y ≤ g + removed_below R g.
Proof.
  intros Hm Hy Hbetween. induction n as [| n IH]; intros g Hg Hf.
  - pose proof (removed_below_pos R m g Hm). lia.
  - pose proof (removed_below_S R g) as HS.
    destruct (Hbetween (S g)) as [Hin | Hmoved]; [lia | |].
    + rewrite decide_True in HS by done.
      specialize (IH (S g)). lia.
    + case_decide; lia.
Qed.

(** ** The line removal loop *)

Section removal.

Variables (R : gset nat) (bd0 : board_t) (m : nat).
Hypothesis (Hm : m ∈ R).
Hypothesis (Hmax : ∀ q, q ∈ R → q ≤ m).
Hypothesis (Hrows : m < rows).
Hypothesis (Hd : board_dims bd0).

Lemma landing_at_most_last (g : nat) : g < m → g + removed_below R g ≤ m.
Proof.
  intros Hg. pose proof (removed_below_gap R g (m - g)) as Hgap.
  replace (g + (m - g)) with m in Hgap by lia.
  rewrite (removed_below_none R m m) in Hgap by done. lia.
Qed.

(** The state of the loop after the rows [m], [m - 1], ..., [m - k + 1]
    have been filled: the rows marked as moved are the kept rows that
    land below row [m - k]; each of them is where it lands; the rows
    not reached yet, and those below [m], are as they were; a filled
    row that no kept row lands on is zero. *)
Lemma remove_steps_inv (k : nat) :
  k ≤ m →
  let s := foldl (remove_step R) (bd0, replicate rows false)
                 (reverse (seq (S (m - k)) k)) in
  board_dims s.1 ∧ length s.2 = rows ∧
  (∀ g, default false (s.2 !! g) = true ↔
        ((g ∉ R) ∧ g < m ∧ m - k < g + removed_below R g)) ∧
  (∀ g, g ∉ R → g < m → m - k < g + removed_below R g →
        s.1 !! (g + removed_below R g) = bd0 !! g) ∧
  (∀ d, d ≤ m - k ∨ m < d → s.1 !! d = bd0 !! d) ∧
  (∀ d, m - k < d ≤ m →
        (∀ g, g ∉ R → g < m → g + removed_below R g ≠ d) →
        s.1 !! d = Some (replicate width_ 0%Z)).
Proof.
  induction k as [| k IH]; intros Hk.
  - cbv zeta. change (reverse (seq (S (m - 0)) 0)) with (@nil nat).
    cbn [foldl fst snd]. split_and!.
    + done.
    + apply length_replicate.
    + intros g. split.
      * destruct (replicate rows false !! g) as [b |] eqn:Hg; simpl; [| done].
        apply lookup_replicate_1 in Hg as [-> _]. done.
      * intros (_ & Hg & Hland). pose proof (landing_at_most_last g Hg). lia.
    + intros g _ Hg Hland. pose proof (landing_at_most_last g Hg). lia.
    + done.
    + intros d Hd'. lia.
  - specialize (IH ltac:(lia)). cbv zeta in IH.
    replace (S (m - S k)) with (m - k) by lia.
    cbn [seq]. rewrite reverse_cons, foldl_snoc.
    set (s := foldl (remove_step R) (bd0, replicate rows false)
                    (reverse (seq (S (m - k)) k))) in *.
    destruct IH as (Hds & Hlmv & Hmv & Hland & Hkeep & Hzero).
    set (y := m - k) in *.
    assert (y ≤ m ∧ 1 ≤ y ∧ m - S k = y - 1) as (Hym & Hy1 & Hyk) by (unfold y; lia).
    rewrite Hyk.
    destruct (dims_row rows width_ s.1 y Hds ltac:(lia)) as (ry & Hry & Hlry).
    unfold remove_step.
    destruct (find_from R s.2 y) as [f |] eqn:Hfind.
    + (* a row [f] is moved down to [y] *)
      apply find_from_Some in Hfind as (Hfy & HfR & Hfmv & Hbetween).
      assert (f + removed_below R f = y) as Hfland.
      { apply Nat.le_antisymm.
        - destruct (decide (y < f + removed_below R f)) as [Hgt | ?]; [| lia].
          assert (default false (s.2 !! f) = true) as Hcontra
            by (apply Hmv; split_and!; [done | lia | done]).
          congruence.
        - apply (landing_reaches R m y f Hm Hym) with (n := y - 1 - f); [| lia | lia].
          intros g Hg. destruct (Hbetween g Hg) as [? | Hg']; [by left |].
          right. by apply Hmv in Hg' as (_ & _ & ?). }
      destruct (dims_row rows width_ s.1 f Hds ltac:(lia)) as (rf & Hrf & Hlrf).
      cbn [fst snd].
      rewrite (copy_line_insert f y s.1 rf ry) by (done || lia).
      assert (bd0 !! f = Some rf) as Hrf0 by (rewrite <- Hrf; symmetry; apply Hkeep; lia).
      split_and!.
      * destruct Hds as [Hlen Hall]. split; [by rewrite length_insert |].
        apply Forall_insert; done.
      * by rewrite length_insert.
      * intros g. destruct (decide (g = f)) as [-> | Hgf].
        -- rewrite list_lookup_insert_eq by lia.
           simpl. split; [intros _; split_and!; [done | lia | lia] | done].
        -- rewrite list_lookup_insert_ne by done. rewrite Hmv.
           split; intros (HgR & Hgm & Hgl); split_and!; try done; try lia.
           destruct (decide (g + removed_below R g = y)) as [Heq | ?]; [| lia].
           exfalso. destruct (decide (g < f)).
           ++ pose proof (landing_increasing R g f ltac:(lia) HfR). lia.
           ++ pose proof (landing_increasing R f g ltac:(lia) HgR). lia.
      * intros g HgR Hgm Hgl.
        destruct (decide (g + removed_below R g = y)) as [Heq | Hneq].
        -- assert (g = f) as ->.
           { destruct (decide (g = f)) as [? | Hgf]; [done |]. exfalso.
             destruct (decide (g < f)).
             - pose proof (landing_increasing R g f ltac:(lia) HfR). lia.
             - pose proof (landing_increasing R f g ltac:(lia) HgR). lia. }
           rewrite Hfland, list_lookup_insert_eq by (by eapply lookup_lt_Some). done.
        -- rewrite list_lookup_insert_ne by lia. apply Hland; [done | done | lia].
      * intros d Hd'. rewrite list_lookup_insert_ne by lia. apply Hkeep. lia.
      * intros d Hd' Hnone. destruct (decide (d = y)) as [-> | Hdy].
        -- exfalso. apply (Hnone f); [done | lia | done].
        -- rewrite list_lookup_insert_ne by done. apply Hzero; [lia | done].
    + (* no row is left above: row [y] is cleared *)
      pose proof (find_from_None R s.2 y Hfind) as Hall.
      assert (∀ g, g ∉ R → g < m → g + removed_below R g ≠ y) as Hnoland.
      { intros g HgR Hgm Heq. destruct (decide (g < y)) as [Hgy | Hgy].
        - destruct (Hall g Hgy) as [? | Hg']; [done |].
          apply Hmv in Hg' as (_ & _ & ?). lia.
        - pose proof (removed_below_pos R m g Hm Hgm). lia. }
      cbn [fst snd].
      rewrite (clear_line_insert y s.1 ry) by done.
      split_and!.
      * destruct Hds as [Hlen Hall']. split; [by rewrite length_insert |].
        apply Forall_insert; [done |]. by rewrite length_replicate.
      * done.
      * intros g. rewrite Hmv.
        split; intros (HgR & Hgm & Hgl); split_and!; try done; try lia.
        pose proof (Hnoland g HgR Hgm). lia.
      * intros g HgR Hgm Hgl. pose proof (Hnoland g HgR Hgm).
        rewrite list_lookup_insert_ne by lia. apply Hland; [done | done | lia].
      * intros d Hd'. rewrite list_lookup_insert_ne by lia. apply Hkeep. lia.
      * intros d Hd' Hnone. destruct (decide (d = y)) as [-> | Hdy].
        -- destruct Hds as [Hlen _].
           rewrite list_lookup_insert_eq by lia. done.
        -- rewrite list_lookup_insert_ne by done. apply Hzero; [lia | done].
Qed.

End removal.

Lemma last_line_spec (R : gset nat) :
  R ≠ ∅ → last_line R ∈ R ∧ ∀ q, q ∈ R → q ≤ last_line R.
Proof.
  intros Hne. unfold last_line. split.
  - apply elem_of_elements. apply max_list_elem_of.
    intros Hnil. apply Hne. apply leibniz_equiv. by apply elements_empty_inv.
  - intros q Hq. apply max_list_elem_of_le. by apply elem_of_elements.
Qed.

(** What [remove_lines] leaves, row by row, on any grid: the hidden rows
    and the rows below the last removed line are untouched, the first
    visible row is zero, and every row between is the kept row that
    lands on it, or zero when none does. *)
Lemma remove_lines_rows (R : gset nat) (bd : board_t) :
  board_dims bd → R ≠ ∅ → (∀ q, q ∈ R → q < rows) →
  invisible_lines_ ≤ last_line R →
  let bd' := remove_lines R bd in
  board_dims bd' ∧
  (∀ g, g ∉ R → g < last_line R → invisible_lines_ < g + removed_below R g →
        bd' !! (g + removed_below R g) = bd !! g) ∧
  (∀ d, d < invisible_lines_ ∨ last_line R < d → bd' !! d = bd !! d) ∧
  bd' !! invisible_lines_ = Some (replicate width_ 0%Z) ∧
  (∀ d, invisible_lines_ < d ≤ last_line R →
        (∀ g, g ∉ R → g < last_line R → g + removed_below R g ≠ d) →
        bd' !! d = Some (replicate width_ 0%Z)).
Proof.
  intros Hd Hne Hin Hinv. destruct (last_line_spec R Hne) as [Hm Hmax].
  set (m := last_line R) in *.
  pose proof (remove_steps_inv R bd m Hm Hmax (Hin m Hm) Hd (m - invisible_lines_)
                ltac:(lia)) as Hloop.
  cbv zeta in Hloop. replace (m - (m - invisible_lines_)) with invisible_lines_ in Hloop by lia.
  unfold remove_lines. fold m. cbv zeta.
  set (s := foldl (remove_step R) (bd, replicate rows false)
                  (reverse (seq (S invisible_lines_) (m - invisible_lines_)))) in *.
  destruct Hloop as (Hds & _ & _ & Hland & Hkeep & Hzero).
  pose proof (Hin m Hm) as Hmrows.
  destruct (dims_row rows width_ s.1 invisible_lines_ Hds ltac:(lia)) as (ri & Hri & Hlri).
  rewrite (clear_line_insert invisible_lines_ s.1 ri) by done.
  split_and!.
  - destruct Hds as [Hlen Hall]. split; [by rewrite length_insert |].
    apply Forall_insert; [done |]. by rewrite length_replicate.
  - intros g HgR Hgm Hgl. rewrite list_lookup_insert_ne by lia. by apply Hland.
  - intros d Hd'. rewrite list_lookup_insert_ne by lia. apply Hkeep. lia.
  - destruct Hds as [Hlen _]. rewrite list_lookup_insert_eq by lia. done.
  - intros d Hd' Hnone. rewrite list_lookup_insert_ne by lia. by apply Hzero.
Qed.

(** Every row under the freed ones is the landing row of a kept row. *)
Lemma landing_onto (R : gset nat) (n : nat) :
  ∀ j k, k + j = n →
  ∀ d, k + removed_below R k + (if decide (k ∈ R) then 1 else 0) ≤ d < n →
       ∃ r, k ≤ r < n ∧ (r ∉ R) ∧ r + removed_below R r = d.
Proof.
  induction j as [| j IH]; intros k Hk d Hd'.
  - lia.
  - pose proof (removed_below_S R k) as HS.
    destruct (decide (k ∈ R)) as [HkR | HkR].
    + destruct (IH (S k) ltac:(lia) d) as (r & Hr & HrR & Hrd); [lia |].
      exists r. split_and!; [lia | lia | done | done].
    + destruct (decide (d = k + removed_below R k)) as [-> | Hne].
      * exists k. split_and!; [lia | lia | done | done].
      * destruct (IH (S k) ltac:(lia) d) as (r & Hr & HrR & Hrd); [lia |].
        exists r. split_and!; [lia | lia | done | done].
Qed.

(** X19.  Where the removal does compact.  On a grid whose hidden rows
    are all zero (no condition at all when there are no hidden rows),
    for every non-empty set [R] of rows of the visible area --
    contiguous or not -- the removal leaves a grid of the same
    dimensions in which every row outside [R] has moved down by the
    number of rows of [R] below it, so the kept rows keep their order;
    the [size R] rows at the top are zero; and every other row is one of
    the kept rows, so exactly the rows of [R] are gone. *)
Theorem remove_lines_compacts (R : gset nat) (bd : board_t) :
  board_dims bd → R ≠ ∅ →
  (∀ q, q ∈ R → invisible_lines_ ≤ q < rows) →
  (∀ r, r < invisible_lines_ → bd !! r = Some (replicate width_ 0%Z)) →
  let bd' := remove_lines R bd in
  board_dims bd' ∧
  (∀ r, r < rows → r ∉ R → bd' !! (r + removed_below R r) = bd !! r) ∧
  (∀ d, d < size R → bd' !! d = Some (replicate width_ 0%Z)) ∧
  (∀ d, size R ≤ d < rows →
        ∃ r, r < rows ∧ (r ∉ R) ∧ r + removed_below R r = d).
Proof.
  intros Hd Hne Hin Hbuf. destruct (last_line_spec R Hne) as [Hm Hmax].
  destruct (remove_lines_rows R bd Hd Hne) as (Hd' & Hland & Hkeep & Hfirst & Hzero).
  { intros q Hq. by apply Hin. }
  { by apply Hin. }
  set (m := last_line R) in *. pose proof (Hin m Hm) as Hmr.
  cbv zeta. split_and!.
  - done.
  - intros r Hr HrR. destruct (decide (m < r)) as [Hgt | Hle].
    + rewrite (removed_below_none R m r) by (done || lia).
      rewrite Nat.add_0_r. apply Hkeep. lia.
    + assert (r < m) as Hrm.
      { destruct (decide (r = m)) as [-> | ?]; [done | lia]. }
      pose proof (removed_below_pos R m r Hm Hrm) as Hpos.
      destruct (decide (invisible_lines_ < r + removed_below R r)) as [Hvis | Hhid].
      * by apply Hland.
      * rewrite (Hbuf r) by lia.
        destruct (decide (r + removed_below R r = invisible_lines_)) as [-> | ?].
        -- done.
        -- rewrite Hkeep by lia. apply Hbuf. lia.
  - intros d Hdsz.
    destruct (decide (d < invisible_lines_)) as [Hhid | Hvis].
    { rewrite Hkeep by lia. by apply Hbuf. }
    destruct (decide (d = invisible_lines_)) as [-> | Hne']; [done |].
    assert (size R ≤ m + 1) as Hsz.
    { pose proof (removed_below_0 R) as H0.
      pose proof (removed_below_gap R 0 m) as Hgap. simpl in Hgap.
      rewrite (removed_below_none R m m) in Hgap by done.
      case_decide; lia. }
    apply Hzero; [lia |].
    intros g HgR Hgm. pose proof (landing_below_freed R g HgR). lia.
  - intros d Hdr.
    destruct (landing_onto R rows rows 0 ltac:(lia) d) as (r & Hr & HrR & Hrd).
    { pose proof (removed_below_0 R). lia. }
    exists r. split_and!; [lia | done | done].
Qed.

Local Close Scope nat_scope.

(** ** What the operations leave alone *)

Lemma update_piece_fields (c : Z) (t : tetris) :
  tick_cnt_ (update_piece c t) = tick_cnt_ t ∧
  prev_shape_ (update_piece c t) = prev_shape_ t ∧
  score_ (update_piece c t) = score_ t.
Proof. done. Qed.

Lemma move_piece_fields (y x : Z) (t : tetris) :
  let t' := (move_piece y x t).2 in
  tick_cnt_ t' = tick_cnt_ t ∧ prev_shape_ t' = prev_shape_ t ∧
  score_ t' = score_ t ∧
  shape (curr_piece_ t') = shape (curr_piece_ t) ∧
  rotation (curr_piece_ t') = rotation (curr_piece_ t) ∧
  color (curr_piece_ t') = color (curr_piece_ t) ∧
  location (curr_piece_ t') =
    (if (move_piece y x t).1
     then Block (block_y (location (curr_piece_ t)) + y)
                (block_x (location (curr_piece_ t)) + x)
     else location (curr_piece_ t)).
Proof.
  unfold move_piece, can_move. cbv zeta.
  match goal with |- context [forallb ?f ?l] => destruct (forallb f l) end; done.
Qed.

Lemma rotate_piece_fields (ccw : bool) (t : tetris) :
  let t' := (rotate_piece ccw t).2 in
  tick_cnt_ t' = tick_cnt_ t ∧ prev_shape_ t' = prev_shape_ t ∧
  score_ t' = score_ t.
Proof.
  unfold rotate_piece, can_rotate. cbv zeta.
  match goal with |- context [forallb ?f ?l] => destruct (forallb f l) end; done.
Qed.

Lemma falls_fields (t t' : tetris) :
  falls t t' →
  tick_cnt_ t' = tick_cnt_ t ∧ prev_shape_ t' = prev_shape_ t ∧
  score_ t' = score_ t ∧
  shape (curr_piece_ t') = shape (curr_piece_ t) ∧
  rotation (curr_piece_ t') = rotation (curr_piece_ t) ∧
  color (curr_piece_ t') = color (curr_piece_ t) ∧
  block_x (location (curr_piece_ t')) = block_x (location (curr_piece_ t)) ∧
  block_y (location (curr_piece_ t)) ≤ block_y (location (curr_piece_ t')).
Proof.
  induction 1 as [t | t t1 t2 Hmv _ IH].
  - split_and!; (done || lia).
  - pose proof (move_piece_fields 1 0 t) as Hf. rewrite Hmv in Hf.
    cbv zeta in Hf. simpl in Hf.
    destruct Hf as (H1 & H2 & H3 & H4 & H5 & H6 & H7).
    destruct IH as (I1 & I2 & I3 & I4 & I5 & I6 & I7 & I8).
    rewrite H7 in I7, I8. simpl in I7, I8.
    split_and!; try congruence; lia.
Qed.

Lemma drop_loop_falls (fuel : nat) (t t' : tetris) :
  drop_loop fuel t = Some t' →
  ∃ t1, falls t t1 ∧ move_piece 1 0 t1 = (false, t').
Proof.
  revert t. induction fuel as [| fuel IH]; intros t; [done |].
  cbn [drop_loop]. destruct (move_piece 1 0 t) as [[] t1] eqn:Hmv.
  - intros Hrun. destruct (IH _ Hrun) as (t2 & Hfalls & Hstop).
    exists t2. split; [| done]. by eapply falls_down.
  - intros [= <-]. exists t. split; [constructor | done].
Qed.

Lemma hard_drop_score (t t' : tetris) :
  hard_drop t = Some t' → score_ t' = score_ t.
Proof.
  unfold hard_drop. intros (t1 & Hrun & Hset)%bind_Some.
  injection Hset as <-.
  apply drop_loop_falls in Hrun as (t2 & Hfalls & Hstop).
  pose proof (falls_fields _ _ Hfalls) as (_ & _ & Hs & _).
  pose proof (move_piece_fields 1 0 t2) as (_ & _ & Hs' & _).
  rewrite Hstop in Hs'. simpl in *. congruence.
Qed.

Lemma new_piece_score (t : tetris) (ds : list Z) (o : outcome) (ds' : list Z) :
  run (new_piece t) ds = Some (o, ds') → score_ (outcome_state o) = score_ t.
Proof.
  intros Hrun.
  apply new_piece_run in Hrun as (s & c & r & Hs & Hc & Hr & Hcases).
  cbv zeta in Hcases.
  destruct Hcases as [-> | (x & Hx & Hy & [[-> _] | [-> _]])]; done.
Qed.

(** ** The lines to remove *)

Lemma lines_fold_elem (bd : board_t) (l : list Z) (R0 : gset nat) (r : nat) :
  r ∈ foldl (λ (R : gset nat) i,
               if row_full bd (Z.to_nat i) then {[ Z.to_nat i ]} ∪ R else R) R0 l ↔
  r ∈ R0 ∨ ∃ i, i ∈ l ∧ r = Z.to_nat i ∧ row_full bd r = true.
Proof.
  revert R0. induction l as [| i l IH]; intros R0; cbn [foldl].
  - split; [by left |]. intros [? | (i & Hi & _)]; [done |].
    by apply elem_of_nil in Hi.
  - rewrite IH. split.
    + intros [HR | (j & Hj & -> & Hfull)].
      * destruct (row_full bd (Z.to_nat i)) eqn:Hfull; [| by left].
        apply elem_of_union in HR as [->%elem_of_singleton | HR]; [| by left].
        right. exists i. split_and!; [apply elem_of_cons; auto | done | done].
      * right. exists j. split_and!; [apply elem_of_cons; auto | done | done].
    + intros [HR | (j & [-> | Hj]%elem_of_cons & -> & Hfull)].
      * left. destruct (row_full bd (Z.to_nat i)); [| done].
        apply elem_of_union. by right.
      * left. rewrite Hfull. apply elem_of_union. left. by apply elem_of_singleton.
      * right. by exists j.
Qed.

Lemma lines_fold_size (bd : board_t) (l : list Z) (R0 : gset nat) :
  (size (foldl (λ (R : gset nat) i,
                  if row_full bd (Z.to_nat i) then {[ Z.to_nat i ]} ∪ R else R) R0 l)
   ≤ size R0 + length l)%nat.
Proof.
  revert R0. induction l as [| i l IH]; intros R0; cbn [foldl length]; [lia |].
  etrans; [apply IH |].
  destruct (row_full bd (Z.to_nat i)); [| lia].
  pose proof (size_union_alt ({[Z.to_nat i]} : gset nat) R0) as Hsz.
  rewrite size_singleton in Hsz.
  pose proof (subseteq_size (R0 ∖ {[Z.to_nat i]}) R0
                (subseteq_difference_l R0 _ R0 (reflexivity R0))). lia.
Qed.

(** The lines to remove are the full rows among the rows that the piece
    spans. *)
Lemma lines_to_remove_spec (t : tetris) (r : nat) :
  let p := curr_piece_ t in
  r ∈ lines_to_remove t ↔
  ∃ i, block_y (location p) + y_min (get_extent p) ≤ i
         ≤ block_y (location p) + y_max (get_extent p) ∧
       r = Z.to_nat i ∧ row_full (board_ t) r = true.
Proof.
  cbv zeta. unfold lines_to_remove. rewrite lines_fold_elem. split.
  - intros [Hemp | (i & Hi & -> & Hfull)]; [by apply not_elem_of_empty in Hemp |].
    apply elem_of_reverse, elem_of_seqZ in Hi.
    exists i. split_and!; [lia | lia | done | done].
  - intros (i & Hi & -> & Hfull). right. exists i. split_and!; [| done | done].
    apply elem_of_reverse, elem_of_seqZ. lia.
Qed.

(** No rotation state is higher than four rows. *)
Lemma extent_height (p : piece) :
  0 ≤ y_max (get_extent p) - y_min (get_extent p) ≤ 3.
Proof.
  unfold get_extent, get_shape, shape_at.
  destruct p as [s loc r c]. cbn [shape rotation].
  generalize (Z.to_nat r). intros n.
  do 7 (destruct s as [| s];
        [do 4 (destruct n as [| n]; [vm_compute; split; discriminate |]);
         vm_compute; split; discriminate |]).
  vm_compute; split; discriminate.
Qed.

Lemma lines_to_remove_size (t : tetris) :
  (size (lines_to_remove t) ≤ 4)%nat.
Proof.
  unfold lines_to_remove. etrans; [apply lines_fold_size |].
  rewrite size_empty, length_reverse, length_seqZ.
  pose proof (extent_height (curr_piece_ t)). lia.
Qed.

(** ** The score *)

Lemma try_remove_line_score (t : tetris) :
  0 ≤ score_ t → score_ t + 4 < size_modulus →
  score_ (try_remove_line t) = score_ t + Z.of_nat (size (lines_to_remove t)).
Proof.
  intros H0 H4. unfold try_remove_line. cbv zeta.
  pose proof (lines_to_remove_size t) as Hsz.
  case_decide as Hemp.
  - rewrite Hemp, size_empty. simpl. lia.
  - cbn [score_ set_board set_score]. unfold size_add.
    apply Z.mod_small. lia.
Qed.

Lemma tick_score (t : tetris) (ds : list Z) (o : outcome) (ds' : list Z) :
  0 ≤ score_ t → score_ t + 4 < size_modulus →
  run (tick t) ds = Some (o, ds') → score_ t ≤ score_ (outcome_state o).
Proof.
  intros H0 H4. unfold tick. cbv zeta. cbn [tick_cnt_ set_tick_cnt].
  destruct (move_ticks_ <=? tick_cnt_ t + 1).
  - match goal with |- context [move_piece 1 0 ?T] =>
      pose proof (move_piece_fields 1 0 T) as (_ & _ & Hs & _);
      rewrite (move_piece_pair 1 0 T); destruct (move_piece 1 0 T).1;
      set (t1 := (move_piece 1 0 T).2) in * end.
    + cbn [negb]. rewrite run_ret. intros [= <- _]. simpl in *. lia.
    + cbn [negb]. intros Hrun. apply new_piece_score in Hrun. rewrite Hrun.
      simpl in Hs. rewrite try_remove_line_score by lia. lia.
  - rewrite run_ret. intros [= <- _]. simpl. lia.
Qed.

Lemma handle_key_score (c : ascii) (t : tetris) (ls : loop_state) :
  handle_key c t = Some ls → score_ (loop_state_tetris ls) = score_ t.
Proof.
  unfold handle_key. intros (t1 & Ht1 & Hls)%bind_Some.
  assert (score_ t1 = score_ t) as Hs.
  { destruct (decide (c = "w"%char)).
    { injection Ht1 as <-. apply rotate_piece_fields. }
    destruct (decide (c = "a"%char)).
    { injection Ht1 as <-. apply move_piece_fields. }
    destruct (decide (c = "d"%char)).
    { injection Ht1 as <-. apply move_piece_fields. }
    destruct (decide (c = "s"%char)).
    { by apply hard_drop_score. }
    by injection Ht1 as <-. }
  injection Hls as <-. destruct (decide (c = "q"%char)); exact Hs.
Qed.

(** X20.  What moves the score.  As long as the [std::size_t] counter
    is not about to wrap, [try_remove_line] adds to the score exactly
    the number of [lines_to_remove] -- the rows found full among those
    the piece spans, hidden rows included, whether the removal then
    clears them or not -- and leaves the whole state as it is when
    there is none; moves, rotations, the hard drop, spawning and the
    keys leave the score alone; so a tick and a pass of the loop never
    lower it. *)
Theorem score_counts_lines_to_remove (t : tetris) :
  0 ≤ score_ t → score_ t + 4 < size_modulus →
  score_ (try_remove_line t) = score_ t + Z.of_nat (size (lines_to_remove t)) ∧
  (lines_to_remove t = ∅ → try_remove_line t = t) ∧
  (∀ r, r ∈ lines_to_remove t ↔
        ∃ i, block_y (location (curr_piece_ t)) + y_min (get_extent (curr_piece_ t)) ≤ i
               ≤ block_y (location (curr_piece_ t)) + y_max (get_extent (curr_piece_ t)) ∧
             r = Z.to_nat i ∧ row_full (board_ t) r = true) ∧
  (∀ y x, score_ (move_piece y x t).2 = score_ t) ∧
  (∀ ccw, score_ (rotate_piece ccw t).2 = score_ t) ∧
  (∀ t', hard_drop t = Some t' → score_ t' = score_ t) ∧
  (∀ ds o ds', run (new_piece t) ds = Some (o, ds') →
               score_ (outcome_state o) = score_ t) ∧
  (∀ ds o ds', run (tick t) ds = Some (o, ds') →
               score_ t ≤ score_ (outcome_state o)) ∧
  (∀ key ds ls ds', run (loop_body key t) ds = Some (Some ls, ds') →
                    score_ t ≤ score_ (loop_state_tetris ls)).
Proof.
  intros H0 H4. split_and!.
  - by apply try_remove_line_score.
  - intros Hemp. unfold try_remove_line. cbv zeta. by rewrite decide_True.
  - apply lines_to_remove_spec.
  - intros y x. apply move_piece_fields.
  - intros ccw. apply rotate_piece_fields.
  - apply hard_drop_score.
  - apply new_piece_score.
  - intros ds o ds'. by apply tick_score.
  - intros key ds ls ds'. unfold loop_body. rewrite run_bind.
    destruct (run (tick t) ds) as [[o ds1] |] eqn:Htick; [| done].
    apply tick_score in Htick; [| done | done].
    rewrite run_ret. intros [= Hls _].
    destruct o as [t1 | t1 | t1]; simpl in Htick.
    + destruct key as [c |].
      * apply handle_key_score in Hls. lia.
      * injection Hls as <-. done.
    + injection Hls as <-. done.
    + injection Hls as <-. done.
Qed.

(** ** The hard drop *)

Lemma set_tick_cnt_same (t : tetris) : set_tick_cnt (tick_cnt_ t) t = t.
Proof. by destruct t. Qed.

(** The grid after a successful move: the piece on its new cells, its
    old cells empty, every other cell as before. *)
Lemma move_piece_cell (dy dx : Z) (t : tetris) (y x : Z) :
  wf t → (move_piece dy dx t).1 = true →
  0 ≤ y < Z.of_nat rows → 0 ≤ x < Z.of_nat width_ →
  cell (board_ (move_piece dy dx t).2) y x =
    if decide (Block y x ∈ piece_cells (curr_piece_ (move_piece dy dx t).2))
    then color (curr_piece_ t)
    else if decide (Block y x ∈ piece_cells (curr_piece_ t)) then 0
         else cell (board_ t) y x.
Proof.
  intros Hwf Hok Hy Hx. rewrite move_piece_true by done. cbv zeta.
  destruct Hwf as (Hd & _).
  rewrite update_piece_cell by (done || by apply update_piece_dims).
  rewrite update_piece_piece. case_decide; [done |].
  cbn [board_ set_curr_piece].
  by rewrite update_piece_cell.
Qed.

(** A move succeeds only onto cells that are empty or the piece's own. *)
Lemma can_move_true_free (dy dx : Z) (t : tetris) (c : block) :
  board_dims (board_ t) → (can_move dy dx t).1 = true →
  c ∈ piece_cells (curr_piece_ t) →
  Block (block_y c + dy) (block_x c + dx) ∈ piece_cells (curr_piece_ t) ∨
  board_cell (board_ t) c dy dx = 0.
Proof.
  intros Hd Hok Hc.
  destruct (decide (Block (block_y c + dy) (block_x c + dx)
                    ∈ piece_cells (curr_piece_ t))) as [? | Hout]; [by left |].
  destruct (decide (board_cell (board_ t) c dy dx = 0)) as [? | Hne]; [by right |].
  assert ((can_move dy dx t).1 = false) as Hno; [| congruence].
  apply can_move_false; [done |]. exists c. auto.
Qed.



(** ** Well-formedness is the engine's invariant *)

Lemma clear_line_dims (y : nat) (bd : board_t) :
  board_dims bd → board_dims (clear_line y bd).
Proof.
  intros Hd. unfold clear_line.
  rewrite (fold_alter_row (λ x row, <[x := 0]> row)).
  apply (dims_alter rows width_); [| done].
  intros row. apply (fill_row_length (λ _, 0)).
Qed.

Lemma copy_line_dims (from y : nat) (bd : board_t) :
  board_dims bd → board_dims (copy_line from y bd).
Proof.
  unfold copy_line. generalize (seq 0 width_). intros l. revert bd.
  induction l as [| x l IH]; intros bd Hd; simpl; [done |].
  apply IH. apply (dims_alter rows width_); [| done].
  intros row. apply length_insert.
Qed.

Lemma remove_lines_dims (R : gset nat) (bd : board_t) :
  board_dims bd → board_dims (remove_lines R bd).
Proof.
  intros Hd. unfold remove_lines. cbv zeta. apply clear_line_dims.
  generalize (reverse (seq (S invisible_lines_) (last_line R - invisible_lines_))).
  generalize (replicate rows false). intros mv l. revert bd mv Hd.
  induction l as [| y l IH]; intros bd mv Hd; simpl; [done |].
  unfold remove_step at 2. simpl.
  destruct (find_from R mv y); apply IH.
  - by apply copy_line_dims.
  - by apply clear_line_dims.
Qed.

Lemma try_remove_line_dims (t : tetris) :
  board_dims (board_ t) → board_dims (board_ (try_remove_line t)).
Proof.
  intros Hd. unfold try_remove_line. cbv zeta.
  case_decide; [done |]. simpl. by apply remove_lines_dims.
Qed.

(** A piece that [new_piece] stamps is well placed. *)
Lemma new_piece_wf (t : tetris) (ds : list Z) (t' : tetris) (ds' : list Z) :
  board_dims (board_ t) → run (new_piece t) ds = Some (Ok t', ds') → wf t'.
Proof.
  intros Hd Hrun.
  apply new_piece_run in Hrun as (s & c & r & Hs & Hc & Hr & Hcases).
  cbv zeta in Hcases.
  destruct Hcases as [? | (x & Hx & Hy & [[? _] | [Ht' _]])]; [done | done |].
  injection Ht' as ->.
  change c with (color (curr_piece_ (placed s c r x t))) at 1.
  apply update_piece_wf.
  - done.
  - unfold n_shapes_ in Hs. change (length shapes_) with 7%nat in Hs.
    unfold valid_piece. change (length shapes_) with 7%nat. simpl. lia.
  - apply Forall_forall. intros b Hb.
    pose proof (placed_in_grid s c r x t b Hx Hy Hb) as [Hby Hbx].
    apply check_boundary_spec. lia.
Qed.

(** The constructor leaves a well-formed state. *)
Lemma init_wf (ds : list Z) (t' : tetris) (ds' : list Z) :
  run init ds = Some (Ok t', ds') → wf t'.
Proof.
  apply new_piece_wf. simpl. split.
  - apply length_replicate.
  - apply Forall_replicate. apply length_replicate.
Qed.

Lemma tick_wf (t : tetris) (ds : list Z) (t' : tetris) (ds' : list Z) :
  wf t → run (tick t) ds = Some (Ok t', ds') → wf t'.
Proof.
  intros Hwf. unfold tick. cbv zeta. cbn [tick_cnt_ set_tick_cnt].
  destruct (move_ticks_ <=? tick_cnt_ t + 1).
  - match goal with |- context [move_piece 1 0 ?T] =>
      assert (wf T) as HwfT by (by destruct t);
      pose proof (move_piece_wf 1 0 T HwfT) as Hwf1;
      rewrite (move_piece_pair 1 0 T); destruct (move_piece 1 0 T).1;
      set (t1 := (move_piece 1 0 T).2) in * end; cbn [negb].
    + rewrite run_ret. by intros [= <- _].
    + apply new_piece_wf. apply try_remove_line_dims. apply Hwf1.
  - rewrite run_ret. intros [= <- _]. by destruct t.
Qed.

Lemma falls_wf (t t' : tetris) : falls t t' → wf t → wf t'.
Proof.
  induction 1 as [t | t t1 t2 Hmv _ IH]; [done |].
  intros Hwf. apply IH. pose proof (move_piece_wf 1 0 t Hwf) as Hwf1.
  by rewrite Hmv in Hwf1.
Qed.

Lemma handle_key_wf (c : ascii) (t : tetris) (ls : loop_state) :
  wf t → handle_key c t = Some ls → wf (loop_state_tetris ls).
Proof.
  intros Hwf. unfold handle_key. intros (t1 & Ht1 & Hls)%bind_Some.
  assert (wf t1) as Hwf1.
  { destruct (decide (c = "w"%char)).
    { injection Ht1 as <-. by apply rotate_piece_wf. }
    destruct (decide (c = "a"%char)).
    { injection Ht1 as <-. by apply move_piece_wf. }
    destruct (decide (c = "d"%char)).
    { injection Ht1 as <-. by apply move_piece_wf. }
    destruct (decide (c = "s"%char)).
    { unfold hard_drop in Ht1. apply bind_Some in Ht1 as (t2 & Hrun & Hset).
      injection Hset as <-.
      apply drop_loop_falls in Hrun as (t3 & Hfalls & Hstop).
      pose proof (move_piece_wf 1 0 t3 (falls_wf _ _ Hfalls Hwf)) as Hwf3.
      rewrite Hstop in Hwf3. by destruct t2. }
    by injection Ht1 as <-. }
  injection Hls as <-. destruct (decide (c = "q"%char)); exact Hwf1.
Qed.

(** While the loop runs, its state is well formed. *)
Lemma loop_body_wf (key : option ascii) (t : tetris) (ds : list Z)
      (t' : tetris) (ds' : list Z) :
  wf t → run (loop_body key t) ds = Some (Some (Running t'), ds') → wf t'.
Proof.
  intros Hwf. unfold loop_body. rewrite run_bind.
  destruct (run (tick t) ds) as [[o ds1] |] eqn:Htick; [| done].
  rewrite run_ret. intros [= Hls _].
  destruct o as [t1 | t1 | t1]; [| done | done].
  apply tick_wf in Htick; [| done].
  destruct key as [c |].
  - by apply (handle_key_wf c t1 (Running t')).
  - by injection Hls as <-.
Qed.

(** * Further properties of the engine *)

(** ** The invariant over a run *)

Lemma tetris_eq (a b : tetris) :
  tick_cnt_ a = tick_cnt_ b → prev_shape_ a = prev_shape_ b →
  score_ a = score_ b → board_ a = board_ b → curr_piece_ a = curr_piece_ b →
  a = b.
Proof. destruct a, b. simpl. by intros -> -> -> -> ->. Qed.

(** X1.  The constructor leaves a well-formed state, and a pass of the
    loop -- a tick, then a key or none -- that does not end the game
    leaves a well-formed state again, whether the loop goes on or the
    key was the quit key: while the game runs, the active piece lies in
    the grid and is stamped on it in its colour. *)
Theorem engine_keeps_wf :
  (∀ ds t ds', run init ds = Some (Ok t, ds') → wf t) ∧
  (∀ key t ds ls ds',
      wf t → run (loop_body key t) ds = Some (Some ls, ds') →
      match ls with
      | Running t' | Quit t' => wf t'
      | Over _ | Aborted _ => True
      end).
Proof.
  split.
  - intros ds t ds'. apply init_wf.
  - intros key t ds ls ds' Hwf. unfold loop_body. rewrite run_bind.
    destruct (run (tick t) ds) as [[o ds1] |] eqn:Htick; [| done].
    rewrite run_ret. intros [= Hls _].
    destruct o as [t1 | t1 | t1].
    + apply tick_wf in Htick; [| done].
      destruct key as [c |].
      * pose proof (handle_key_wf c t1 ls Htick Hls) as Hwf'.
        by destruct ls.
      * by injection Hls as <-.
    + by injection Hls as <-.
    + by injection Hls as <-.
Qed.

(** ** The tick counter *)

Lemma try_remove_line_fields (t : tetris) :
  tick_cnt_ (try_remove_line t) = tick_cnt_ t ∧
  prev_shape_ (try_remove_line t) = prev_shape_ t ∧
  curr_piece_ (try_remove_line t) = curr_piece_ t.
Proof. unfold try_remove_line. cbv zeta. by case_decide. Qed.

Lemma new_piece_tick_cnt (t : tetris) (ds : list Z) (o : outcome) (ds' : list Z) :
  run (new_piece t) ds = Some (o, ds') → tick_cnt_ (outcome_state o) = tick_cnt_ t.
Proof.
  intros Hrun.
  apply new_piece_run in Hrun as (s & c & r & Hs & Hc & Hr & Hcases).
  cbv zeta in Hcases.
  destruct Hcases as [-> | (x & Hx & Hy & [[-> _] | [-> _]])]; done.
Qed.

Lemma tick_tick_cnt (t : tetris) (ds : list Z) (o : outcome) (ds' : list Z) :
  run (tick t) ds = Some (o, ds') →
  tick_cnt_ (outcome_state o) =
    if move_ticks_ <=? tick_cnt_ t + 1 then 0 else tick_cnt_ t + 1.
Proof.
  unfold tick. cbv zeta. cbn [tick_cnt_ set_tick_cnt].
  destruct (move_ticks_ <=? tick_cnt_ t + 1).
  - match goal with |- context [move_piece 1 0 ?T] =>
      pose proof (move_piece_fields 1 0 T) as (Htc & _);
      rewrite (move_piece_pair 1 0 T); destruct (move_piece 1 0 T).1;
      set (t1 := (move_piece 1 0 T).2) in * end; cbn [negb].
    + rewrite run_ret. by intros [= <- _].
    + intros Hrun. apply new_piece_tick_cnt in Hrun. rewrite Hrun.
      destruct (try_remove_line_fields t1) as (-> & _). exact Htc.
  - rewrite run_ret. by intros [= <- _].
Qed.

Lemma handle_key_tick_cnt (c : ascii) (t : tetris) (ls : loop_state) :
  handle_key c t = Some ls →
  tick_cnt_ (loop_state_tetris ls) = tick_cnt_ t ∨
  tick_cnt_ (loop_state_tetris ls) = 0.
Proof.
  unfold handle_key. intros (t1 & Ht1 & Hls)%bind_Some.
  assert (tick_cnt_ t1 = tick_cnt_ t ∨ tick_cnt_ t1 = 0) as Htc.
  { destruct (decide (c = "w"%char)).
    { injection Ht1 as <-. left. apply rotate_piece_fields. }
    destruct (decide (c = "a"%char)).
    { injection Ht1 as <-. left. apply move_piece_fields. }
    destruct (decide (c = "d"%char)).
    { injection Ht1 as <-. left. apply move_piece_fields. }
    destruct (decide (c = "s"%char)).
    { right. unfold hard_drop in Ht1. apply bind_Some in Ht1 as (t2 & _ & Hset).
      by injection Hset as <-. }
    left. by injection Ht1 as <-. }
  injection Hls as <-. destruct (decide (c = "q"%char)); exact Htc.
Qed.

(** X2.  A tick counter in [0, move_ticks_) stays there: a tick either
    counts one up, changing nothing else and drawing nothing, or, on
    every [move_ticks_]-th tick, sets the counter back to zero and lets
    the piece fall; a key leaves the counter or resets it. *)
Theorem tick_counter_bounded (t : tetris) :
  0 ≤ tick_cnt_ t < move_ticks_ →
  (tick_cnt_ t + 1 < move_ticks_ →
   tick t = mret (Ok (set_tick_cnt (tick_cnt_ t + 1) t))) ∧
  (∀ ds o ds', run (tick t) ds = Some (o, ds') →
               0 ≤ tick_cnt_ (outcome_state o) < move_ticks_ ∧
               (tick_cnt_ t + 1 = move_ticks_ → tick_cnt_ (outcome_state o) = 0)) ∧
  (∀ key ds ls ds', run (loop_body key t) ds = Some (Some ls, ds') →
                    0 ≤ tick_cnt_ (loop_state_tetris ls) < move_ticks_).
Proof.
  intros Hb. split_and!.
  - intros Hnot. unfold tick. cbv zeta. cbn [tick_cnt_ set_tick_cnt].
    destruct (Z.leb_spec move_ticks_ (tick_cnt_ t + 1)); [lia | done].
  - intros ds o ds' Hrun. apply tick_tick_cnt in Hrun. rewrite Hrun.
    destruct (Z.leb_spec move_ticks_ (tick_cnt_ t + 1)); unfold move_ticks_ in *; lia.
  - intros key ds ls ds'. unfold loop_body. rewrite run_bind.
    destruct (run (tick t) ds) as [[o ds1] |] eqn:Htick; [| done].
    apply tick_tick_cnt in Htick.
    assert (0 ≤ tick_cnt_ (outcome_state o) < move_ticks_) as Ho.
    { rewrite Htick.
      destruct (Z.leb_spec move_ticks_ (tick_cnt_ t + 1)); unfold move_ticks_ in *; lia. }
    rewrite run_ret. intros [= Hls _].
    destruct o as [t1 | t1 | t1]; simpl in Ho.
    + destruct key as [c |].
      * apply handle_key_tick_cnt in Hls. unfold move_ticks_ in *. lia.
      * by injection Hls as <-.
    + by injection Hls as <-.
    + by injection Hls as <-.
Qed.

(** ** Moves *)

Lemma moved_cells (dy dx : Z) (t : tetris) :
  (move_piece dy dx t).1 = true →
  piece_cells (curr_piece_ (move_piece dy dx t).2) =
    map (λ c, Block (block_y c + dy) (block_x c + dx)) (piece_cells (curr_piece_ t)).
Proof.
  intros Hok.
  pose proof (move_piece_fields dy dx t) as (_ & _ & _ & Hs & Hr & _ & Hl).
  cbv zeta in *. rewrite Hok in Hl.
  unfold piece_cells, cells_at, get_shape. rewrite Hs, Hr, Hl.
  rewrite <- list_fmap_compose. apply list_fmap_ext.
  intros i blk _. simpl. symmetry. apply block_add_shift.
Qed.

(** X3.  In a well-formed state [move_piece] fails exactly when some
    cell of the piece, shifted by the delta, lies outside the grid or
    on a non-zero cell that is not one of the piece's own.  When it
    succeeds, the anchor has moved by the delta, the kind, rotation and
    colour are the same, and on the grid the piece's new cells carry its
    colour, the cells it has left are empty and every other cell is as
    before. *)
Theorem move_piece_spec (dy dx : Z) (t : tetris) :
  wf t →
  let p := curr_piece_ t in
  ((move_piece dy dx t).1 = false ↔
   ∃ c, c ∈ piece_cells p ∧
        (check_boundary c dy dx = false ∨
         (board_cell (board_ t) c dy dx ≠ 0 ∧
          Block (block_y c + dy) (block_x c + dx) ∉ piece_cells p))) ∧
  ((move_piece dy dx t).1 = true →
   let t' := (move_piece dy dx t).2 in
   curr_piece_ t' =
     Piece (shape p) (Block (block_y (location p) + dy) (block_x (location p) + dx))
           (rotation p) (color p) ∧
   ∀ y x, 0 ≤ y < Z.of_nat rows → 0 ≤ x < Z.of_nat width_ →
          cell (board_ t') y x =
            if decide (Block y x ∈ piece_cells (curr_piece_ t')) then color p
            else if decide (Block y x ∈ piece_cells p) then 0
                 else cell (board_ t) y x).
Proof.
  intros Hwf p. split.
  - rewrite move_piece_result. apply can_move_false. apply Hwf.
  - intros Hok. cbv zeta. split.
    + by rewrite move_piece_true.
    + intros y x Hy Hx. by apply move_piece_cell.
Qed.

(** X4.  A move that succeeded can always be taken back: in a
    well-formed state, after [move_piece] has succeeded with a delta,
    [move_piece] with the opposite delta succeeds and gives back the
    state from before the first move, grid and piece. *)
Theorem move_piece_undo (dy dx : Z) (t : tetris) :
  wf t → (move_piece dy dx t).1 = true →
  move_piece (- dy) (- dx) (move_piece dy dx t).2 = (true, t).
Proof.
  intros Hwf Hok.
  pose proof (move_piece_wf dy dx t Hwf) as Hwf1.
  pose proof (moved_cells dy dx t Hok) as Hcells1.
  pose proof (move_piece_fields dy dx t) as (F1 & F2 & F3 & F4 & F5 & F6 & F7).
  cbv zeta in F1, F2, F3, F4, F5, F6, F7. rewrite Hok in F7.
  set (t1 := (move_piece dy dx t).2) in *.
  assert (Hcan := Hok). rewrite move_piece_result in Hcan.
  (* a cell of the moved piece, one step back, is a cell of the piece *)
  assert (∀ c, c ∈ piece_cells (curr_piece_ t1) →
               Block (block_y c + - dy) (block_x c + - dx) ∈ piece_cells (curr_piece_ t))
    as Hback.
  { intros c Hc. rewrite Hcells1 in Hc.
    apply list_elem_of_fmap in Hc as (c0 & -> & Hc0). simpl.
    replace (Block (block_y c0 + dy + - dy) (block_x c0 + dx + - dx)) with c0; [done |].
    destruct c0. simpl. f_equal; lia. }
  (* the way back is free *)
  assert ((move_piece (- dy) (- dx) t1).1 = true) as Hok2.
  { rewrite move_piece_result.
    destruct (can_move (- dy) (- dx) t1).1 eqn:Hcan2; [done |]. exfalso.
    apply can_move_false in Hcan2; [| apply Hwf1].
    destruct Hcan2 as (c & Hc & Hbad). pose proof (Hback c Hc) as Hc0.
    destruct Hwf as (Hd & Hp & Hstamped).
    rewrite Forall_forall in Hstamped. destruct (Hstamped _ Hc0) as [Hin0 _].
    apply check_boundary_spec in Hin0. simpl in Hin0.
    destruct Hbad as [Hout | [Hne Hnot]].
    - apply not_true_iff_false in Hout. apply Hout.
      apply check_boundary_spec. lia.
    - apply Hne. unfold board_cell.
      pose proof (move_piece_cell dy dx t (block_y c + - dy) (block_x c + - dx)
                    (conj Hd (conj Hp (proj2 (Forall_forall _ _) Hstamped))) Hok
                    ltac:(lia) ltac:(lia)) as Hcell.
      fold t1 in Hcell. rewrite Hcell.
      rewrite decide_False by done. by rewrite decide_True. }
  rewrite (move_piece_pair (- dy) (- dx) t1), Hok2. f_equal.
  pose proof (move_piece_wf (- dy) (- dx) t1 Hwf1) as Hwf2.
  pose proof (moved_cells (- dy) (- dx) t1 Hok2) as Hcells2.
  pose proof (move_piece_fields (- dy) (- dx) t1) as (G1 & G2 & G3 & G4 & G5 & G6 & G7).
  cbv zeta in G1, G2, G3, G4, G5, G6, G7. rewrite Hok2 in G7.
  set (t2 := (move_piece (- dy) (- dx) t1).2) in *.
  assert (curr_piece_ t2 = curr_piece_ t) as Hpiece.
  { destruct (curr_piece_ t2) as [s2 l2 r2 c2], (curr_piece_ t) as [s0 [ly lx] r0 c0].
    simpl in *. subst. rewrite F7. simpl. f_equal. f_equal; lia. }
  apply tetris_eq; try congruence.
  apply (board_ext rows width_); [apply Hwf2 | apply Hwf |].
  intros y x Hy Hx.
  pose proof (move_piece_cell (- dy) (- dx) t1 y x Hwf1 Hok2 Hy Hx) as Hc2.
  pose proof (move_piece_cell dy dx t y x Hwf Hok Hy Hx) as Hc1.
  fold t1 in Hc1. fold t2 in Hc2. rewrite Hc2, Hc1, Hpiece, F6.
  destruct (decide (Block y x ∈ piece_cells (curr_piece_ t))) as [Hin | Hout].
  - destruct Hwf as (_ & _ & Hstamped). rewrite Forall_forall in Hstamped.
    destruct (Hstamped _ Hin) as [_ Hcol]. unfold board_cell in Hcol. simpl in Hcol.
    rewrite !Z.add_0_r in Hcol. done.
  - destruct (decide (Block y x ∈ piece_cells (curr_piece_ t1))) as [Hin1 | Hout1]; [| done].
    rewrite Hcells1 in Hin1. apply list_elem_of_fmap in Hin1 as (c0 & Heq & Hc0).
    destruct (can_move_true_free dy dx t c0 (proj1 Hwf) Hcan Hc0) as [Hown | Hfree].
    + by rewrite <- Heq in Hown.
    + unfold board_cell in Hfree. injection Heq as -> ->. symmetry. exact Hfree.
Qed.

(** ** Rotations *)

Lemma rotate_piece_cell (ccw : bool) (t : tetris) (y x : Z) :
  wf t → (rotate_piece ccw t).1 = true →
  0 ≤ y < Z.of_nat rows → 0 ≤ x < Z.of_nat width_ →
  cell (board_ (rotate_piece ccw t).2) y x =
    if decide (Block y x ∈ piece_cells (curr_piece_ (rotate_piece ccw t).2))
    then color (curr_piece_ t)
    else if decide (Block y x ∈ piece_cells (curr_piece_ t)) then 0
         else cell (board_ t) y x.
Proof.
  intros Hwf Hok Hy Hx. rewrite rotate_piece_true by done.
  destruct Hwf as (Hd & _).
  rewrite update_piece_cell by (done || by apply update_piece_dims).
  rewrite update_piece_piece. case_decide; [done |].
  cbn [board_ set_curr_piece].
  by rewrite update_piece_cell.
Qed.

Lemma can_rotate_true_free (ccw : bool) (t : tetris) (c : block) :
  board_dims (board_ t) → (can_rotate ccw t).1 = true →
  c ∈ cells_at (location (curr_piece_ t)) (get_rotated_shape (curr_piece_ t) ccw) →
  c ∈ piece_cells (curr_piece_ t) ∨ board_cell (board_ t) c 0 0 = 0.
Proof.
  intros Hd Hok Hc.
  destruct (decide (c ∈ piece_cells (curr_piece_ t))) as [? | Hout]; [by left |].
  destruct (decide (board_cell (board_ t) c 0 0 = 0)) as [? | Hne]; [by right |].
  assert ((can_rotate ccw t).1 = false) as Hno; [| congruence].
  apply can_rotate_false; [done |]. exists c. auto.
Qed.

Lemma get_rotated_back (p : piece) (ccw : bool) :
  0 ≤ rotation p < n_rot (shape p) →
  get_rotated (rotate p ccw) (negb ccw) = rotation p.
Proof.
  intros Hr. pose proof (get_rotated_valid p ccw Hr) as Hv.
  destruct ccw; simpl negb.
  - rewrite get_rotated_cw by done. simpl.
    rewrite get_rotated_ccw by done. repeat case_decide; lia.
  - rewrite get_rotated_ccw by done. simpl.
    rewrite get_rotated_cw by done. repeat case_decide; lia.
Qed.

(** X5.  A rotation that succeeded can always be taken back: in a
    well-formed state, after [rotate_piece] has succeeded in one
    direction, [rotate_piece] in the other direction succeeds and gives
    back the state from before, grid and piece. *)
Theorem rotate_piece_undo (ccw : bool) (t : tetris) :
  wf t → (rotate_piece ccw t).1 = true →
  rotate_piece (negb ccw) (rotate_piece ccw t).2 = (true, t).
Proof.
  intros Hwf Hok.
  pose proof (rotate_piece_wf ccw t Hwf) as Hwf1.
  pose proof (rotate_piece_fields ccw t) as (F1 & F2 & F3).
  cbv zeta in F1, F2, F3.
  assert (curr_piece_ (rotate_piece ccw t).2 = rotate (curr_piece_ t) ccw) as Hp1
    by (by rewrite rotate_piece_true).
  assert (Hcan := Hok). rewrite rotate_piece_result in Hcan.
  set (t1 := (rotate_piece ccw t).2) in *.
  destruct Hwf as (Hd & Hp & Hstamped).
  assert (wf t) as Hwf by done.
  rewrite Forall_forall in Hstamped.
  assert (get_rotated_shape (curr_piece_ t1) (negb ccw) = get_shape (curr_piece_ t))
    as Hshape.
  { unfold get_rotated_shape, get_shape. rewrite Hp1.
    rewrite get_rotated_back by apply Hp. done. }
  assert (cells_at (location (curr_piece_ t1)) (get_rotated_shape (curr_piece_ t1) (negb ccw))
          = piece_cells (curr_piece_ t)) as Hfoot.
  { rewrite Hshape, Hp1. done. }
  assert (piece_cells (curr_piece_ t1) =
          cells_at (location (curr_piece_ t)) (get_rotated_shape (curr_piece_ t) ccw))
    as Hcells1 by (by rewrite Hp1).
  (* the way back is free *)
  assert ((rotate_piece (negb ccw) t1).1 = true) as Hok2.
  { rewrite rotate_piece_result.
    destruct (can_rotate (negb ccw) t1).1 eqn:Hcan2; [done |]. exfalso.
    apply can_rotate_false in Hcan2; [| apply Hwf1].
    destruct Hcan2 as (c & Hc & Hbad). rewrite Hfoot in Hc.
    destruct (Hstamped _ Hc) as [Hin0 _].
    destruct Hbad as [Hout | [Hne Hnot]]; [congruence |].
    apply Hne. unfold board_cell.
    apply check_boundary_spec in Hin0.
    pose proof (rotate_piece_cell ccw t (block_y c + 0) (block_x c + 0) Hwf Hok
                  ltac:(lia) ltac:(lia)) as Hcell.
    fold t1 in Hcell. rewrite Hcell. rewrite block_add_0.
    rewrite decide_False by done. by rewrite decide_True. }
  rewrite (surjective_pairing (rotate_piece (negb ccw) t1)), Hok2. f_equal.
  pose proof (rotate_piece_wf (negb ccw) t1 Hwf1) as Hwf2.
  pose proof (rotate_piece_fields (negb ccw) t1) as (G1 & G2 & G3).
  cbv zeta in G1, G2, G3.
  assert (curr_piece_ (rotate_piece (negb ccw) t1).2 = curr_piece_ t) as Hpiece.
  { rewrite rotate_piece_true by done. simpl. rewrite Hp1. unfold rotate at 1.
    rewrite get_rotated_back by apply Hp. simpl. by destruct (curr_piece_ t). }
  pose proof (λ y x Hy Hx, rotate_piece_cell (negb ccw) t1 y x Hwf1 Hok2 Hy Hx) as Hc2.
  pose proof (λ y x Hy Hx, rotate_piece_cell ccw t y x Hwf Hok Hy Hx) as Hc1.
  fold t1 in Hc1.
  set (t2 := (rotate_piece (negb ccw) t1).2) in *.
  apply tetris_eq; try congruence.
  apply (board_ext rows width_); [apply Hwf2 | apply Hwf |].
  intros y x Hy Hx.
  rewrite (Hc2 y x Hy Hx), (Hc1 y x Hy Hx), Hpiece, Hp1.
  change (color (rotate (curr_piece_ t) ccw)) with (color (curr_piece_ t)).
  destruct (decide (Block y x ∈ piece_cells (curr_piece_ t))) as [Hin | Hout].
  - destruct (Hstamped _ Hin) as [_ Hcol]. unfold board_cell in Hcol. simpl in Hcol.
    rewrite !Z.add_0_r in Hcol. done.
  - destruct (decide (Block y x ∈ piece_cells (rotate (curr_piece_ t) ccw)))
      as [Hin1 | Hout1]; [| done].
    destruct (can_rotate_true_free ccw t (Block y x) Hd Hcan Hin1) as [Hown | Hfree].
    + done.
    + unfold board_cell in Hfree. simpl in Hfree. rewrite !Z.add_0_r in Hfree.
      symmetry. exact Hfree.
Qed.

(** ** The extent *)

Lemma extent_fold_attained (l : list block) (e : extent) :
  let e' := foldl extent_step e l in
  (y_min e' = y_min e ∨ ∃ b, b ∈ l ∧ block_y b = y_min e') ∧
  (y_max e' = y_max e ∨ ∃ b, b ∈ l ∧ block_y b = y_max e') ∧
  (x_min e' = x_min e ∨ ∃ b, b ∈ l ∧ block_x b = x_min e') ∧
  (x_max e' = x_max e ∨ ∃ b, b ∈ l ∧ block_x b = x_max e').
Proof.
  revert e. induction l as [| b l IH]; intros e; cbn [foldl].
  - cbv zeta. split_and!; by left.
  - destruct (IH (extent_step e b)) as (H1 & H2 & H3 & H4).
    cbv zeta in *. set (e' := foldl extent_step (extent_step e b) l) in *.
    clearbody e'. unfold extent_step in H1, H2, H3, H4. simpl in H1, H2, H3, H4.
    assert (∀ (P : block → Prop), (∃ b', b' ∈ l ∧ P b') → ∃ b', b' ∈ b :: l ∧ P b')
      as Hlift.
    { intros P (b' & Hb' & HP). exists b'. split; [apply elem_of_cons; auto | done]. }
    assert (b ∈ b :: l) as Hb by (apply elem_of_cons; auto).
    split_and!.
    + destruct H1 as [H1 | H1]; [| right; by apply Hlift].
      destruct (Z.min_spec (y_min e) (block_y b)) as [[_ Hm] | [_ Hm]];
        [left; lia | right; exists b; split; [done | lia]].
    + destruct H2 as [H2 | H2]; [| right; by apply Hlift].
      destruct (Z.max_spec (y_max e) (block_y b)) as [[_ Hm] | [_ Hm]];
        [right; exists b; split; [done | lia] | left; lia].
    + destruct H3 as [H3 | H3]; [| right; by apply Hlift].
      destruct (Z.min_spec (x_min e) (block_x b)) as [[_ Hm] | [_ Hm]];
        [left; lia | right; exists b; split; [done | lia]].
    + destruct H4 as [H4 | H4]; [| right; by apply Hlift].
      destruct (Z.max_spec (x_max e) (block_x b)) as [[_ Hm] | [_ Hm]];
        [right; exists b; split; [done | lia] | left; lia].
Qed.

(** X6.  For a piece with at least one block, [get_extent] is the
    bounding box of the offsets of its rotation state: every block lies
    within the four bounds, and each bound is the coordinate of some
    block. *)
Theorem get_extent_tight (p : piece) :
  get_shape p ≠ [] →
  let e := get_extent p in
  (∀ b, b ∈ get_shape p →
        y_min e ≤ block_y b ≤ y_max e ∧ x_min e ≤ block_x b ≤ x_max e) ∧
  (∃ b, b ∈ get_shape p ∧ block_y b = y_min e) ∧
  (∃ b, b ∈ get_shape p ∧ block_y b = y_max e) ∧
  (∃ b, b ∈ get_shape p ∧ block_x b = x_min e) ∧
  (∃ b, b ∈ get_shape p ∧ block_x b = x_max e).
Proof.
  intros Hne. unfold get_extent. cbv zeta. split.
  { intros b Hb. by apply shape_extent_bounds. }
  unfold shape_extent. destruct (get_shape p) as [| b0 rest]; [done |].
  change (drop 1 (b0 :: rest)) with rest.
  change ((b0 :: rest) !!! 0%nat) with b0. cbv zeta.
  match goal with |- context [foldl extent_step ?e rest] =>
    destruct (extent_fold_attained rest e) as (H1 & H2 & H3 & H4) end.
  cbv zeta in H1, H2, H3, H4. simpl in H1, H2, H3, H4.
  assert (b0 ∈ b0 :: rest) as Hb0 by (apply elem_of_cons; auto).
  assert (∀ (P : block → Prop), (∃ b', b' ∈ rest ∧ P b') → ∃ b', b' ∈ b0 :: rest ∧ P b')
    as Hlift.
  { intros P (b' & Hb' & HP). exists b'. split; [apply elem_of_cons; auto | done]. }
  split_and!.
  - destruct H1 as [H1 | H1]; [exists b0; by split | by apply Hlift].
  - destruct H2 as [H2 | H2]; [exists b0; by split | by apply Hlift].
  - destruct H3 as [H3 | H3]; [exists b0; by split | by apply Hlift].
  - destruct H4 as [H4 | H4]; [exists b0; by split | by apply Hlift].
Qed.

(** ** Spawning: room and result *)

(** No rotation state is wider than four columns. *)
Lemma extent_width (p : piece) :
  0 ≤ x_max (get_extent p) - x_min (get_extent p) ≤ 3.
Proof.
  unfold get_extent, get_shape, shape_at.
  destruct p as [s loc r c]. cbn [shape rotation].
  generalize (Z.to_nat r). intros n.
  do 7 (destruct s as [| s];
        [do 4 (destruct n as [| n]; [vm_compute; split; discriminate |]);
         vm_compute; split; discriminate |]).
  vm_compute; split; discriminate.
Qed.

(** When [new_piece] ends with the error, the extent did not fit. *)
Lemma new_piece_run_small (t : tetris) (ds : list Z) (t' : tetris) (ds' : list Z) :
  run (new_piece t) ds = Some (SpaceTooSmall t', ds') →
  let ext := get_extent (curr_piece_ t') in
  Z.of_nat width_ - x_max ext - 1 < - x_min ext ∨
  Z.of_nat rows ≤ Z.of_nat invisible_lines_ - y_min ext + y_max ext.
Proof.
  unfold new_piece. rewrite run_bind.
  destruct (run (random_shape t) ds) as [[[s t1] ds1] |] eqn:Hs; [| done].
  rewrite run_bind.
  destruct (run (uniform 1 7) ds1) as [[c ds2] |] eqn:Hc; [| done].
  rewrite run_bind.
  destruct (run (uniform 0 (n_rot (Z.to_nat s) - 1)) ds2) as [[r ds3] |] eqn:Hr; [| done].
  cbv zeta. unfold get_extent, get_shape. cbn [shape rotation].
  set (ext := shape_extent (shape_at (Z.to_nat s) r)).
  destruct ((Z.of_nat width_ - x_max ext - 1 <? - x_min ext) ||
            (Z.of_nat rows <=? Z.of_nat invisible_lines_ - y_min ext + y_max ext))
    eqn:Hsmall.
  - rewrite run_ret. intros [= <- _]. simpl. fold ext.
    apply orb_true_iff in Hsmall as [Hx%Z.ltb_lt | Hy%Z.leb_le]; [by left | by right].
  - rewrite run_bind.
    destruct (run (uniform (- x_min ext) (Z.of_nat width_ - x_max ext - 1)) ds3)
      as [[x ds4] |]; [| done].
    match goal with |- context [existsb ?f ?l] => destruct (existsb f l) end;
      rewrite run_ret; intros [= ? _]; done.
Qed.

(** X7.  [new_piece] ends with the "space too small" error exactly when
    the extent of the rotation state it drew is wider than the grid or
    higher than the visible area; on a grid of at least four columns and
    four visible rows it never does, whatever is drawn. *)
Theorem new_piece_space (t : tetris) (ds : list Z) (o : outcome) (ds' : list Z) :
  run (new_piece t) ds = Some (o, ds') →
  let ext := get_extent (curr_piece_ (outcome_state o)) in
  ((∃ t', o = SpaceTooSmall t') ↔
   Z.of_nat width_ < x_max ext - x_min ext + 1 ∨
   Z.of_nat height_ < y_max ext - y_min ext + 1) ∧
  ((4 ≤ width_)%nat → (4 ≤ height_)%nat → ∀ t', o ≠ SpaceTooSmall t').
Proof.
  intros Hrun. cbv zeta.
  assert ((∃ t', o = SpaceTooSmall t') ↔
          Z.of_nat width_ < x_max (get_extent (curr_piece_ (outcome_state o)))
                            - x_min (get_extent (curr_piece_ (outcome_state o))) + 1 ∨
          Z.of_nat height_ < y_max (get_extent (curr_piece_ (outcome_state o)))
                             - y_min (get_extent (curr_piece_ (outcome_state o))) + 1)
    as Hiff.
  { split.
    - intros [t' ->]. apply new_piece_run_small in Hrun. cbv zeta in Hrun.
      simpl. unfold board_height_ in Hrun. lia.
    - intros Hsmall.
      apply new_piece_run in Hrun as (s & c & r & Hs & Hc & Hr & Hcases).
      cbv zeta in Hcases.
      destruct Hcases as [-> | (x & Hx & Hy & [[-> _] | [-> _]])]; [by eexists | |];
        exfalso; unfold get_extent, get_shape in Hsmall; simpl in Hsmall;
        unfold board_height_ in Hy; lia. }
  split; [exact Hiff |].
  intros Hw Hh t' ->.
  destruct (proj1 Hiff ltac:(by eexists)) as [Hx | Hy].
  - pose proof (extent_width (curr_piece_ (outcome_state (SpaceTooSmall t')))). lia.
  - pose proof (extent_height (curr_piece_ (outcome_state (SpaceTooSmall t')))). lia.
Qed.

(** X8.  However [new_piece] ends, the tick counter and the score are
    untouched, [prev_shape_] is the kind of the piece it has set up, and
    kind, rotation index and colour are in their ranges.  When it ends
    normally on a grid of the right dimensions, the grid is the old one
    with the cells of the new piece in its colour and every other cell
    as before. *)
Theorem new_piece_stamps (t : tetris) (ds : list Z) (o : outcome) (ds' : list Z) :
  board_dims (board_ t) →
  run (new_piece t) ds = Some (o, ds') →
  let t' := outcome_state o in
  tick_cnt_ t' = tick_cnt_ t ∧ score_ t' = score_ t ∧
  prev_shape_ t' = Z.of_nat (shape (curr_piece_ t')) ∧
  valid_piece (curr_piece_ t') ∧
  (∀ t'', o = Ok t'' →
     ∀ y x, 0 ≤ y < Z.of_nat rows → 0 ≤ x < Z.of_nat width_ →
            cell (board_ t'') y x =
              if decide (Block y x ∈ piece_cells (curr_piece_ t''))
              then color (curr_piece_ t'')
              else cell (board_ t) y x).
Proof.
  intros Hd Hrun.
  apply new_piece_run in Hrun as (s & c & r & Hs & Hc & Hr & Hcases).
  cbv zeta in Hcases. cbv zeta.
  assert (valid_piece (Piece (Z.to_nat s) (location (curr_piece_ t)) r c) ∧
          ∀ loc, valid_piece (Piece (Z.to_nat s) loc r c)) as [Hv0 Hv].
  { unfold n_shapes_ in Hs. change (length shapes_) with 7%nat in Hs.
    unfold valid_piece. change (length shapes_) with 7%nat. simpl.
    split; [lia | intros _; lia]. }
  destruct Hcases as [-> | (x & Hx & Hy & [[-> _] | [-> _]])]; simpl.
  - split_and!; [done | done | lia | done | done].
  - split_and!; [done | done | lia | apply Hv | done].
  - split_and!; [done | done | lia | apply Hv |].
    intros t'' [= <-] y' x' Hy' Hx'.
    by rewrite update_piece_cell.
Qed.

(** ** What the line removal leaves alone *)

Lemma clear_line_other (y d : nat) (bd : board_t) :
  d ≠ y → clear_line y bd !! d = bd !! d.
Proof.
  intros Hne. unfold clear_line.
  rewrite (fold_alter_row (λ x row, <[x := 0]> row)).
  by rewrite list_lookup_alter_ne.
Qed.

Lemma copy_line_other (from y d : nat) (bd : board_t) :
  d ≠ y → copy_line from y bd !! d = bd !! d.
Proof.
  intros Hne. unfold copy_line. generalize (seq 0 width_). intros l. revert bd.
  induction l as [| x l IH]; intros bd; simpl; [done |].
  rewrite IH. by rewrite list_lookup_alter_ne.
Qed.

Lemma remove_steps_other (R : gset nat) (l : list nat) (s : board_t * list bool) (d : nat) :
  d ∉ l → (foldl (remove_step R) s l).1 !! d = s.1 !! d.
Proof.
  revert s. induction l as [| y l IH]; intros s Hd; simpl; [done |].
  apply not_elem_of_cons in Hd as [Hne Hd].
  rewrite IH by done. unfold remove_step.
  destruct (find_from R s.2 y); simpl.
  - by apply copy_line_other.
  - by apply clear_line_other.
Qed.

Lemma remove_steps_dims (R : gset nat) (l : list nat) (s : board_t * list bool) :
  board_dims s.1 → board_dims (foldl (remove_step R) s l).1.
Proof.
  revert s. induction l as [| y l IH]; intros s Hd; simpl; [done |].
  apply IH. unfold remove_step.
  destruct (find_from R s.2 y); simpl.
  - by apply copy_line_dims.
  - by apply clear_line_dims.
Qed.

(** X9.  [try_remove_line] touches only the score and the grid: the
    piece, the tick counter and [prev_shape_] are as before, and the
    grid keeps its dimensions.  On the grid every hidden row is
    unchanged, and so is every row under the first visible row that
    lies below all the lines to remove.  On a grid of the right
    dimensions with a visible row, the first visible row itself ends
    up all zero whenever there is a line to remove, also when that
    line is a hidden row and the first visible row was not full. *)
Theorem try_remove_line_frame (t : tetris) :
  curr_piece_ (try_remove_line t) = curr_piece_ t ∧
  tick_cnt_ (try_remove_line t) = tick_cnt_ t ∧
  prev_shape_ (try_remove_line t) = prev_shape_ t ∧
  (board_dims (board_ t) → board_dims (board_ (try_remove_line t))) ∧
  (∀ d : nat,
      (d < invisible_lines_)%nat ∨
      ((invisible_lines_ < d)%nat ∧ ∀ q, q ∈ lines_to_remove t → (q < d)%nat) →
      board_ (try_remove_line t) !! d = board_ t !! d) ∧
  (board_dims (board_ t) → (0 < height_)%nat → lines_to_remove t ≠ ∅ →
   board_ (try_remove_line t) !! invisible_lines_ = Some (replicate width_ 0)).
Proof.
  destruct (try_remove_line_fields t) as (F1 & F2 & F3).
  split_and!; try done.
  - apply try_remove_line_dims.
  - intros d Hd. unfold try_remove_line. cbv zeta.
    case_decide as Hemp; [done |]. cbn [board_ set_board set_score].
    destruct (last_line_spec _ Hemp) as [Hm _].
    unfold remove_lines. cbv zeta.
    rewrite clear_line_other by lia.
    rewrite remove_steps_other; [done |].
    rewrite elem_of_reverse, elem_of_seq.
    destruct Hd as [Hd | [Hd Hall]]; [lia |].
    specialize (Hall _ Hm). lia.
  - intros Hd Hh Hne. unfold try_remove_line. cbv zeta.
    rewrite decide_False by done. cbn [board_ set_board set_score].
    unfold remove_lines. cbv zeta.
    match goal with |- clear_line _ ?B !! _ = _ =>
      assert (board_dims B) as HdB by (by apply remove_steps_dims);
      destruct (dims_row rows width_ B invisible_lines_ HdB) as (row & Hrow & Hlen);
        [unfold board_height_; lia |];
      rewrite (clear_line_insert invisible_lines_ B row Hrow Hlen);
      destruct HdB as [HlB _] end.
    rewrite list_lookup_insert_eq; [done |]. rewrite HlB. unfold board_height_. lia.
Qed.

(** ** Room to rotate under the top edge *)

(** No rotation state of a kind reaches more than two rows above the
    top of another. *)
Lemma rotation_states_rise (p : piece) (ccw : bool) :
  valid_piece p →
  Forall (λ b, y_min (get_extent p) - 2 ≤ block_y b) (get_rotated_shape p ccw).
Proof.
  intros (Hs & Hr & _). destruct p as [s loc r c]. simpl in Hs, Hr.
  unfold get_extent, get_shape, get_rotated_shape, get_rotated. cbn [shape rotation].
  unfold n_rot in Hr.
  do 7 (destruct s as [| s];
        [simpl in Hr;
         assert (r = 0 ∨ r = 1 ∨ r = 2 ∨ r = 3) as Hcases by lia;
         destruct_or!; subst r; try lia; destruct ccw; by_computation |]).
  simpl in Hs. lia.
Qed.

(** X10.  The two hidden rows are room enough to rotate a fresh piece:
    with at least two hidden rows, when [new_piece] has placed a piece,
    the cells that [can_rotate] then tests, in either direction, all
    have a row that is not negative, so a rotation of the fresh piece
    never fails at the top edge of the grid. *)
Theorem spawn_rotation_headroom (t : tetris) (ds : list Z) (o : outcome) (ds' : list Z) :
  (2 ≤ invisible_lines_)%nat →
  run (new_piece t) ds = Some (o, ds') →
  (∀ t', o ≠ SpaceTooSmall t') →
  let p := curr_piece_ (outcome_state o) in
  ∀ ccw b, b ∈ cells_at (location p) (get_rotated_shape p ccw) → 0 ≤ block_y b.
Proof.
  intros Hinv Hrun Hplaced p ccw b Hb.
  assert (valid_piece p ∧
          block_y (location p) = Z.of_nat invisible_lines_ - y_min (get_extent p))
    as [Hvalid Hloc].
  { unfold p. apply new_piece_run in Hrun as (s & c & r & Hs & Hc & Hr & Hcases).
    cbv zeta in Hcases.
    assert (valid_piece (Piece (Z.to_nat s) (location (curr_piece_ t)) r c)) as Hv0.
    { change n_shapes_ with 7 in Hs.
      unfold valid_piece. change (length shapes_) with 7%nat. simpl. lia. }
    destruct Hcases as [-> | (x & Hx & Hy & [[-> _] | [-> _]])].
    - exfalso. by eapply Hplaced.
    - split; [exact Hv0 | reflexivity].
    - split; [exact Hv0 | reflexivity]. }
  pose proof (rotation_states_rise p ccw Hvalid) as Hrise.
  rewrite Forall_forall in Hrise.
  apply list_elem_of_fmap in Hb as (blk & -> & Hblk).
  specialize (Hrise blk Hblk). simpl. lia.
Qed.

End engine.

(** * The engine at work on the samples *)

(** ** Line removal *)

Example remove_lines_sample :
  remove_lines 4 4 2 {[3%nat; 5%nat]} sample_grid =
    [ [0; 0; 0; 0]; [0; 0; 0; 0];
      [0; 0; 0; 0]; [0; 0; 0; 0]; [0; 6; 0; 0]; [0; 2; 2; 0] ].
Proof. vm_compute. reflexivity. Qed.

Lemma remove_lines_compacts_witness :
  let R : gset nat := {[3%nat; 5%nat]} in
  let bd' := remove_lines 4 4 2 R sample_grid in
  board_dims 4 4 2 bd' ∧
  (∀ r, (r < board_height_ 4 2)%nat → r ∉ R →
        bd' !! (r + removed_below R r)%nat = sample_grid !! r) ∧
  (∀ d, (d < size R)%nat → bd' !! d = Some (replicate 4 0)) ∧
  (∀ d, (size R ≤ d < board_height_ 4 2)%nat →
        ∃ r, (r < board_height_ 4 2)%nat ∧ (r ∉ R) ∧ (r + removed_below R r)%nat = d).
Proof.
  apply (remove_lines_compacts 4 4 2 {[3%nat; 5%nat]} sample_grid).
  - by_computation.
  - by_computation.
  - intros q Hq. apply elem_of_union in Hq as [Hq | Hq];
      apply elem_of_singleton in Hq; subst q; vm_compute; lia.
  - intros r Hr. destruct r as [| [| r]]; [reflexivity | reflexivity | lia].
Defined.

(** The instance that the specification names, in the engine that has
    no hidden rows: rows 2, 5 and 7 of ten are removed from any grid. *)
Lemma remove_lines_2_5_7_without_hidden_rows (w : nat) (bd : board_t) :
  board_dims 10 w 0 bd →
  let bd' := remove_lines 10 w 0 {[2%nat; 5%nat; 7%nat]} bd in
  bd' !! 0%nat = Some (replicate w 0) ∧
  bd' !! 1%nat = Some (replicate w 0) ∧
  bd' !! 2%nat = Some (replicate w 0) ∧
  bd' !! 3%nat = bd !! 0%nat ∧ bd' !! 4%nat = bd !! 1%nat ∧
  bd' !! 5%nat = bd !! 3%nat ∧ bd' !! 6%nat = bd !! 4%nat ∧
  bd' !! 7%nat = bd !! 6%nat ∧ bd' !! 8%nat = bd !! 8%nat ∧
  bd' !! 9%nat = bd !! 9%nat.
Proof.
  intros Hd.
  assert (({[2%nat; 5%nat; 7%nat]} : gset nat) ≠ ∅) as Hne by by_computation.
  assert (last_line {[2%nat; 5%nat; 7%nat]} = 7%nat) as Hlast
    by (vm_compute; reflexivity).
  destruct (remove_lines_rows 10 w 0 {[2%nat; 5%nat; 7%nat]} bd Hd Hne)
    as (_ & Hland & Hkeep & Hfirst & Hzero).
  - intros q Hq. unfold board_height_.
    repeat (apply elem_of_union in Hq as [Hq | Hq]);
      apply elem_of_singleton in Hq; subst q; lia.
  - lia.
  - rewrite Hlast in *.
    assert (∀ g : nat, g ∉ ({[2%nat; 5%nat; 7%nat]} : gset nat) →
                       (3 ≤ g + removed_below {[2%nat; 5%nat; 7%nat]} g)%nat) as Hfreed.
    { intros g Hg.
      pose proof (landing_below_freed {[2%nat; 5%nat; 7%nat]} g Hg) as Hsz.
      assert (size ({[2%nat; 5%nat; 7%nat]} : gset nat) = 3%nat) as Hthree
        by (vm_compute; reflexivity).
      lia. }
    cbv zeta. split_and!.
    + exact Hfirst.
    + apply Hzero; [lia |]. intros g Hg _. specialize (Hfreed g Hg). lia.
    + apply Hzero; [lia |]. intros g Hg _. specialize (Hfreed g Hg). lia.
    + apply (Hland 0%nat); [by_computation | lia | vm_compute; lia].
    + apply (Hland 1%nat); [by_computation | lia | vm_compute; lia].
    + apply (Hland 3%nat); [by_computation | lia | vm_compute; lia].
    + apply (Hland 4%nat); [by_computation | lia | vm_compute; lia].
    + apply (Hland 6%nat); [by_computation | lia | vm_compute; lia].
    + apply Hkeep. lia.
    + apply Hkeep. lia.
Qed.

(** ** Moves and rotations *)

Example move_piece_blocked :
  move_piece 4 4 2 0 (-1) sample_wall = (false, sample_wall).
Proof. vm_compute. reflexivity. Qed.

Example rotate_piece_blocked :
  rotate_piece 4 4 2 false sample_wall = (false, sample_wall).
Proof. vm_compute. reflexivity. Qed.

Lemma failed_move_or_rotation_restores_witness :
  (∀ y x, (move_piece 4 4 2 y x sample_wall).1 = false →
          (move_piece 4 4 2 y x sample_wall).2 = sample_wall) ∧
  (∀ ccw, (rotate_piece 4 4 2 ccw sample_wall).1 = false →
          (rotate_piece 4 4 2 ccw sample_wall).2 = sample_wall).
Proof.
  apply (failed_move_or_rotation_restores 4 4 2 sample_wall).
  unfold wf, board_dims, valid_piece. by_computation.
Defined.

(** The bar stands upright against the left wall; turned, it would
    lie in row 2 and reach two columns beyond the wall. *)
Example rotate_piece_tested_cells :
  let p := curr_piece_ sample_wall in
  piece_cells p = [Block 0 0; Block 1 0; Block 2 0; Block 3 0] ∧
  get_rotated p false = 0 ∧
  cells_at (location p) (shape_at (shape p) (get_rotated p false)) =
    [Block 2 (-2); Block 2 (-1); Block 2 0; Block 2 1].
Proof. vm_compute. done. Qed.

Lemma rotate_piece_spec_witness :
  let p := curr_piece_ sample_wall in
  let r' := get_rotated p false in
  let tested := cells_at (location p) (shape_at (shape p) r') in
  r' = (rotation p + 1) mod n_rot (shape p) ∧
  ((rotate_piece 4 4 2 false sample_wall).1 = false ↔
   ∃ c, c ∈ tested ∧
        (check_boundary 4 4 2 c 0 0 = false ∨
         (board_cell (board_ sample_wall) c 0 0 ≠ 0 ∧ c ∉ piece_cells p))) ∧
  ((rotate_piece 4 4 2 false sample_wall).1 = true →
   curr_piece_ (rotate_piece 4 4 2 false sample_wall).2 =
     Piece (shape p) (location p) r' (color p) ∧
   piece_cells (curr_piece_ (rotate_piece 4 4 2 false sample_wall).2) = tested).
Proof.
  apply (rotate_piece_spec 4 4 2 false sample_wall).
  unfold wf, board_dims, valid_piece. by_computation.
Defined.

(** ** The hard drop *)

Example hard_drop_sample : hard_drop 4 4 2 sample_drop = Some sample_landed.
Proof. vm_compute. reflexivity. Qed.



(** ** Spawning *)

Example new_piece_sample :
  run (new_piece 4 4 2 sample_empty) [1; 3; 0; 2] = Some (Ok sample_spawned, []).
Proof. vm_compute. reflexivity. Qed.

Lemma spawn_columns_in_grid_witness :
  Forall (λ b, 0 ≤ block_x b < Z.of_nat 4)
         (piece_cells (curr_piece_ (outcome_state (Ok sample_spawned)))).
Proof.
  apply Forall_forall.
  apply (spawn_columns_in_grid 4 4 2 sample_empty [1; 3; 0; 2] (Ok sample_spawned) []).
  - vm_compute. reflexivity.
  - intros t'. discriminate.
Defined.

Lemma spawn_top_row_witness :
  (∀ b, b ∈ piece_cells (curr_piece_ (outcome_state (Ok sample_spawned))) →
        Z.of_nat 2 ≤ block_y b) ∧
  (∃ b, b ∈ piece_cells (curr_piece_ (outcome_state (Ok sample_spawned))) ∧
        block_y b = Z.of_nat 2).
Proof.
  apply (spawn_top_row 4 4 2 sample_empty [1; 3; 0; 2] (Ok sample_spawned) []).
  - vm_compute. reflexivity.
  - intros t'. discriminate.
Defined.

(** The fresh piece has no cell in row 0, the top of the hidden rows:
    its topmost cells are in row 2. *)
Lemma spawn_top_row_is_not_row_0 :
  run (new_piece 4 4 2 sample_empty) [1; 3; 0; 2] = Some (Ok sample_spawned, []) ∧
  piece_cells (curr_piece_ sample_spawned) =
    [Block 2 2; Block 2 3; Block 3 2; Block 3 3] ∧
  Forall (λ b, block_y b ≠ 0) (piece_cells (curr_piece_ sample_spawned)).
Proof.
  split_and!.
  - vm_compute. reflexivity.
  - vm_compute. reflexivity.
  - apply (bool_decide_unpack _). vm_compute. exact I.
Qed.

Example new_piece_game_over :
  run (new_piece 4 4 2 sample_topped) [1; 3; 0; 2] =
    Some (GameOver (placed 2 1 3 0 2 sample_topped), []).
Proof. vm_compute. reflexivity. Qed.


(** ** The score *)

Example try_remove_line_sample :
  try_remove_line 4 4 2 sample_landed =
    Tetris 0 1 2 (replicate 6 (replicate 4 0)) (Piece 1 (Block 4 2) 0 3).
Proof. vm_compute. reflexivity. Qed.

Lemma score_counts_lines_to_remove_witness :
  score_ (try_remove_line 4 4 2 sample_landed) =
    score_ sample_landed + Z.of_nat (size (lines_to_remove sample_landed)).
Proof.
  apply (score_counts_lines_to_remove 4 4 2 sample_landed).
  - vm_compute. discriminate.
  - vm_compute. reflexivity.
Defined.

(** ** Two games that reach into the hidden rows *)

(** C1.  The removal does not compact a grid whose hidden rows hold
    blocks.  The game [sample_keys_bar], played from the constructor on
    a grid of four columns and four visible rows, stands at
    [sample_stacked]: an upright bar fills column 1 of rows 0 to 3, the
    hidden rows among them, over the full rows 4 and 5, and the piece
    that completed these rows cannot fall.  The next tick calls
    [try_remove_line], which finds rows 4 and 5.  Compaction would
    bring rows 0 to 3 down to rows 2 to 5 and leave rows 0 and 1 zero:
    four blocks.  The code copies rows 3, 2 and 1 down, clears row 2
    and leaves the hidden rows 0 and 1 as they are: row 0 has not
    moved down by two, the top rows are not zero, and five blocks
    stand where twelve less eight were to remain. *)
Theorem try_remove_line_keeps_hidden_rows :
  let t := sample_stacked in
  let R := lines_to_remove t in
  let bd := board_ t in
  let bd' := board_ (try_remove_line 4 4 2 t) in
  let blocks (g : board_t) := length (filter (λ c, c ≠ 0) (concat g)) in
  run (start 4 4 2 sample_keys_bar) sample_draws_bar =
    Some (Some (Running t), []) ∧
  wf 4 4 2 t ∧
  (move_piece 4 4 2 1 0 t).1 = false ∧
  tick 4 4 2 t = new_piece 4 4 2 (try_remove_line 4 4 2 (set_tick_cnt 0 t)) ∧
  R = {[4%nat; 5%nat]} ∧
  bd' = [ [0; 5; 0; 0]; [0; 5; 0; 0];
          [0; 0; 0; 0]; [0; 5; 0; 0]; [0; 5; 0; 0]; [0; 5; 0; 0] ] ∧
  ((0%nat ∉ R) ∧ removed_below R 0 = 2%nat ∧ bd' !! 2%nat ≠ bd !! 0%nat) ∧
  bd' !! 0%nat ≠ Some (replicate 4 0) ∧
  bd' !! 1%nat ≠ Some (replicate 4 0) ∧
  blocks bd = 12%nat ∧ blocks bd' = 5%nat.
Proof.
  cbv zeta.
  assert (lines_to_remove sample_stacked = {[4%nat; 5%nat]}) as HR by by_computation.
  assert (board_ (try_remove_line 4 4 2 sample_stacked) =
            [ [0; 5; 0; 0]; [0; 5; 0; 0];
              [0; 0; 0; 0]; [0; 5; 0; 0]; [0; 5; 0; 0]; [0; 5; 0; 0] ]) as Hbd
    by (vm_compute; reflexivity).
  rewrite HR, Hbd. split_and!.
  - vm_compute. reflexivity.
  - unfold wf, board_dims, valid_piece. by_computation.
  - vm_compute. reflexivity.
  - vm_compute. reflexivity.
  - reflexivity.
  - reflexivity.
  - by_computation.
  - vm_compute. reflexivity.
  - simpl. discriminate.
  - simpl. discriminate.
  - simpl. discriminate.
  - vm_compute. reflexivity.
  - vm_compute. reflexivity.
Qed.

(** C8.  The score counts a row that is not cleared.  The game
    [sample_keys_hook], played from the constructor on the same grid,
    stands at [sample_hooked]: two L pieces, turned as soon as they
    appeared, rest on a J piece and fill hidden row 1, the only full
    row; the score is [0].  The next tick locks the piece and calls
    [try_remove_line], which finds row 1 among the rows the piece
    spans and adds one to the score -- the score is [1] however that
    tick ends -- but its loop over the rows starts below the first
    visible row and does nothing, and the final [clear_line] wipes row
    2, which was not full: full row 1 is still on the grid. *)
Theorem score_counts_row_not_cleared :
  let t := sample_hooked in
  let t' := try_remove_line 4 4 2 t in
  run (start 4 4 2 sample_keys_hook) sample_draws_hook =
    Some (Some (Running t), []) ∧
  wf 4 4 2 t ∧
  (move_piece 4 4 2 1 0 t).1 = false ∧
  tick 4 4 2 t = new_piece 4 4 2 (try_remove_line 4 4 2 (set_tick_cnt 0 t)) ∧
  filter (λ i, row_full (board_ t) i = true) (seq 0 6) = [1%nat] ∧
  lines_to_remove t = {[1%nat]} ∧
  score_ t = 0 ∧ score_ t' = 1 ∧
  (∀ ds o ds', run (tick 4 4 2 t) ds = Some (o, ds') →
               score_ (outcome_state o) = 1) ∧
  board_ t' = [ [0; 0; 0; 0]; [6; 6; 5; 5];
                [0; 0; 0; 0]; [0; 6; 0; 5]; [0; 3; 3; 3]; [0; 0; 0; 3] ] ∧
  row_full (board_ t') 1 = true ∧
  board_ t !! 2%nat = Some [0; 6; 0; 5] ∧
  board_ t' !! 2%nat = Some [0; 0; 0; 0].
Proof.
  cbv zeta.
  assert (tick 4 4 2 sample_hooked =
            new_piece 4 4 2 (try_remove_line 4 4 2 (set_tick_cnt 0 sample_hooked)))
    as Htick by (vm_compute; reflexivity).
  split_and!.
  - vm_compute. reflexivity.
  - unfold wf, board_dims, valid_piece. by_computation.
  - vm_compute. reflexivity.
  - exact Htick.
  - vm_compute. reflexivity.
  - by_computation.
  - reflexivity.
  - vm_compute. reflexivity.
  - intros ds o ds' Hrun. rewrite Htick in Hrun.
    apply new_piece_score in Hrun. rewrite Hrun. vm_compute. reflexivity.
  - vm_compute. reflexivity.
  - vm_compute. reflexivity.
  - reflexivity.
  - vm_compute. reflexivity.
Qed.

(** ** Further runs on the samples *)

Example rotate_piece_sample :
  (rotate_piece 4 4 2 false sample_turn).2 =
    Tetris 3 6 0
           [ [0; 0; 0; 0]; [0; 0; 0; 0];
             [0; 4; 0; 0]; [0; 4; 4; 0]; [0; 4; 0; 0]; [0; 0; 0; 0] ]
           (Piece 6 (Block 3 1) 1 4).
Proof. vm_compute. reflexivity. Qed.

Lemma tick_counter_bounded_witness :
  let t := sample_drop in
  (tick_cnt_ t + 1 < move_ticks_ →
   tick 4 4 2 t = mret (Ok (set_tick_cnt (tick_cnt_ t + 1) t))) ∧
  (∀ ds o ds', run (tick 4 4 2 t) ds = Some (o, ds') →
               0 ≤ tick_cnt_ (outcome_state o) < move_ticks_ ∧
               (tick_cnt_ t + 1 = move_ticks_ → tick_cnt_ (outcome_state o) = 0)) ∧
  (∀ key ds ls ds', run (loop_body 4 4 2 key t) ds = Some (Some ls, ds') →
                    0 ≤ tick_cnt_ (loop_state_tetris ls) < move_ticks_).
Proof.
  apply (tick_counter_bounded 4 4 2 sample_drop).
  vm_compute. split; [discriminate | reflexivity].
Defined.

Lemma move_piece_spec_witness :
  let t := sample_drop in
  let p := curr_piece_ t in
  ((move_piece 4 4 2 1 0 t).1 = false ↔
   ∃ c, c ∈ piece_cells p ∧
        (check_boundary 4 4 2 c 1 0 = false ∨
         (board_cell (board_ t) c 1 0 ≠ 0 ∧
          Block (block_y c + 1) (block_x c + 0) ∉ piece_cells p))) ∧
  ((move_piece 4 4 2 1 0 t).1 = true →
   let t' := (move_piece 4 4 2 1 0 t).2 in
   curr_piece_ t' =
     Piece (shape p) (Block (block_y (location p) + 1) (block_x (location p) + 0))
           (rotation p) (color p) ∧
   ∀ y x, 0 ≤ y < Z.of_nat (board_height_ 4 2) → 0 ≤ x < Z.of_nat 4 →
          cell (board_ t') y x =
            if decide (Block y x ∈ piece_cells (curr_piece_ t')) then color p
            else if decide (Block y x ∈ piece_cells p) then 0
                 else cell (board_ t) y x).
Proof.
  apply (move_piece_spec 4 4 2 1 0 sample_drop).
  unfold wf, board_dims, valid_piece. by_computation.
Defined.

Lemma move_piece_undo_witness :
  move_piece 4 4 2 (- 1) (- 0) (move_piece 4 4 2 1 0 sample_drop).2 =
    (true, sample_drop).
Proof.
  apply (move_piece_undo 4 4 2 1 0 sample_drop).
  - unfold wf, board_dims, valid_piece. by_computation.
  - vm_compute. reflexivity.
Defined.

Lemma rotate_piece_undo_witness :
  rotate_piece 4 4 2 (negb false) (rotate_piece 4 4 2 false sample_turn).2 =
    (true, sample_turn).
Proof.
  apply (rotate_piece_undo 4 4 2 false sample_turn).
  - unfold wf, board_dims, valid_piece. by_computation.
  - vm_compute. reflexivity.
Defined.

Lemma get_extent_tight_witness :
  let p := curr_piece_ sample_turn in
  let e := get_extent p in
  (∀ b, b ∈ get_shape p →
        y_min e ≤ block_y b ≤ y_max e ∧ x_min e ≤ block_x b ≤ x_max e) ∧
  (∃ b, b ∈ get_shape p ∧ block_y b = y_min e) ∧
  (∃ b, b ∈ get_shape p ∧ block_y b = y_max e) ∧
  (∃ b, b ∈ get_shape p ∧ block_x b = x_min e) ∧
  (∃ b, b ∈ get_shape p ∧ block_x b = x_max e).
Proof.
  apply (get_extent_tight (curr_piece_ sample_turn)).
  vm_compute. discriminate.
Defined.

Lemma new_piece_space_witness :
  let o := Ok sample_spawned in
  let ext := get_extent (curr_piece_ (outcome_state o)) in
  ((∃ t', o = SpaceTooSmall t') ↔
   Z.of_nat 4 < x_max ext - x_min ext + 1 ∨
   Z.of_nat 4 < y_max ext - y_min ext + 1) ∧
  ((4 ≤ 4)%nat → (4 ≤ 4)%nat → ∀ t', o ≠ SpaceTooSmall t').
Proof.
  apply (new_piece_space 4 4 2 sample_empty [1; 3; 0; 2] (Ok sample_spawned) []).
  vm_compute. reflexivity.
Defined.

Lemma new_piece_stamps_witness :
  let o := Ok sample_spawned in
  let t' := outcome_state o in
  tick_cnt_ t' = tick_cnt_ sample_empty ∧ score_ t' = score_ sample_empty ∧
  prev_shape_ t' = Z.of_nat (shape (curr_piece_ t')) ∧
  valid_piece (curr_piece_ t') ∧
  (∀ t'', o = Ok t'' →
     ∀ y x, 0 ≤ y < Z.of_nat (board_height_ 4 2) → 0 ≤ x < Z.of_nat 4 →
            cell (board_ t'') y x =
              if decide (Block y x ∈ piece_cells (curr_piece_ t''))
              then color (curr_piece_ t'')
              else cell (board_ sample_empty) y x).
Proof.
  apply (new_piece_stamps 4 4 2 sample_empty [1; 3; 0; 2] (Ok sample_spawned) []).
  - unfold board_dims. by_computation.
  - vm_compute. reflexivity.
Defined.

Lemma random_shape_distribution_witness :
  (prob (random_shape sample_drop) (λ r, (r.1 =? 1)%Z) ==
     if decide (0 ≤ prev_shape_ sample_drop < n_shapes_)%Z
     then (if decide (1 = prev_shape_ sample_drop)%Z then 1 # 28 else 9 # 56)
     else 1 # 7)%Q.
Proof.
  apply (random_shape_distribution sample_drop 1).
  vm_compute. split; [discriminate | reflexivity].
Defined.

Example new_piece_bar :
  run (new_piece 4 4 2 sample_empty) [0; 3; 0; 2] =
    Some (Ok (Tetris 0 0 0
                     [ [0; 0; 0; 0]; [0; 0; 0; 0];
                       [3; 3; 3; 3]; [0; 0; 0; 0]; [0; 0; 0; 0]; [0; 0; 0; 0] ]
                     (Piece 0 (Block 2 2) 0 3)), []).
Proof. vm_compute. reflexivity. Qed.

Lemma spawn_rotation_headroom_witness :
  let p := Piece 0 (Block 2 2) 0 3 in
  cells_at (location p) (get_rotated_shape p false) =
    [Block 0 2; Block 1 2; Block 2 2; Block 3 2] ∧
  Forall (λ b, 0 ≤ block_y b) (cells_at (location p) (get_rotated_shape p false)).
Proof.
  split; [vm_compute; reflexivity |].
  apply Forall_forall.
  apply (spawn_rotation_headroom 4 4 2 sample_empty [0; 3; 0; 2]
           (Ok (Tetris 0 0 0
                       [ [0; 0; 0; 0]; [0; 0; 0; 0];
                         [3; 3; 3; 3]; [0; 0; 0; 0]; [0; 0; 0; 0]; [0; 0; 0; 0] ]
                       (Piece 0 (Block 2 2) 0 3))) [] ltac:(lia)).
  - vm_compute. reflexivity.
  - intros t'. discriminate.
Defined.

(** * The earlier engine's line removal

    [try_remove_line] of [tetris.cc] is the removal of the later engine
    with no hidden rows. *)

Lemma cc_find_from_eq (R : gset nat) (moved : list bool) (y : nat) :
  TetrisCc.find_from R moved y = find_from R moved y.
Proof. induction y as [| y IH]; simpl; [done |]. by rewrite IH. Qed.

Lemma cc_remove_step_eq (w : nat) (R : gset nat) (s : board_t * list bool) (y : nat) :
  TetrisCc.remove_step w R s y = remove_step w R s y.
Proof.
  unfold TetrisCc.remove_step, remove_step. by rewrite cc_find_from_eq.
Qed.

Lemma cc_remove_lines_eq (h w : nat) (R : gset nat) (bd : board_t) :
  TetrisCc.remove_lines h w R bd = remove_lines h w 0 R bd.
Proof.
  unfold TetrisCc.remove_lines, remove_lines, board_height_, last_line. cbv zeta.
  rewrite Nat.add_0_r, Nat.sub_0_r.
  change (TetrisCc.clear_line w) with (clear_line w).
  assert (∀ l s, foldl (TetrisCc.remove_step w R) s l = foldl (remove_step w R) s l)
    as Hfold.
  { induction l as [| y ys IH]; intros s; [done |].
    cbn [foldl]. rewrite cc_remove_step_eq. apply IH. }
  by rewrite Hfold.
Qed.

(** The compaction, with no hidden rows. *)
Lemma cc_remove_lines_compacts (h w : nat) (R : gset nat) (bd : board_t) :
  TetrisCc.board_dims h w bd → R ≠ ∅ → (∀ q, q ∈ R → (q < h)%nat) →
  let bd' := TetrisCc.remove_lines h w R bd in
  TetrisCc.board_dims h w bd' ∧
  (∀ r, (r < h)%nat → r ∉ R → bd' !! (r + removed_below R r)%nat = bd !! r) ∧
  (∀ d, (d < size R)%nat → bd' !! d = Some (replicate w 0)) ∧
  (∀ d, (size R ≤ d < h)%nat →
        ∃ r, (r < h)%nat ∧ (r ∉ R) ∧ (r + removed_below R r)%nat = d).
Proof.
  intros Hd Hne Hin. rewrite cc_remove_lines_eq.
  assert (board_dims h w 0 bd) as Hd0.
  { unfold board_dims, board_height_. by rewrite Nat.add_0_r. }
  destruct (last_line_spec R Hne) as [Hm Hmax].
  destruct (remove_lines_rows h w 0 R bd Hd0 Hne) as (Hd' & Hland & Hkeep & Hfirst & Hzero).
  { intros q Hq. unfold board_height_. rewrite Nat.add_0_r. by apply Hin. }
  { lia. }
  set (m := last_line R) in *. pose proof (Hin m Hm) as Hmr.
  cbv zeta. split_and!.
  - unfold board_dims, board_height_ in Hd'. by rewrite Nat.add_0_r in Hd'.
  - intros r Hr HrR. destruct (decide (m < r)%nat) as [Hgt | Hle].
    + rewrite (removed_below_none R m r) by (done || lia).
      rewrite Nat.add_0_r. apply Hkeep. lia.
    + assert (r < m)%nat as Hrm.
      { destruct (decide (r = m)) as [-> | ?]; [done | lia]. }
      pose proof (removed_below_pos R m r Hm Hrm) as Hpos.
      apply Hland; [done | done | lia].
  - intros d Hdsz.
    destruct (decide (d = 0%nat)) as [-> | Hne']; [done |].
    assert (size R ≤ m + 1)%nat as Hsz.
    { pose proof (removed_below_0 R) as H0.
      pose proof (removed_below_gap R 0 m) as Hgap. simpl in Hgap.
      rewrite (removed_below_none R m m) in Hgap by done.
      case_decide; lia. }
    apply Hzero; [lia |].
    intros g HgR Hgm. pose proof (landing_below_freed R g HgR). lia.
  - intros d Hdr.
    destruct (landing_onto R h h 0 ltac:(lia) d) as (r & Hr & HrR & Hrd).
    { pose proof (removed_below_0 R). lia. }
    exists r. split_and!; [lia | done | done].
Qed.

(** * The earlier engine *)

Module TetrisCcFacts.
Import TetrisCc.

(** ** Quarter turns *)

Lemma rotate_once_coords (b : block) :
  rotate_once b = Block (block_x b) (- block_y b).
Proof. unfold rotate_once. f_equal; lia. Qed.

Lemma rotate_once_four (b : block) :
  rotate_once (rotate_once (rotate_once (rotate_once b))) = b.
Proof. rewrite !rotate_once_coords. destruct b. simpl. f_equal; lia. Qed.

Lemma iter_rotate_once_mod (n : nat) (b : block) :
  Nat.iter n rotate_once b = Nat.iter (n mod 4) rotate_once b.
Proof.
  induction n as [n IH] using lt_wf_ind.
  destruct (decide (n < 4)%nat) as [Hlt | Hge].
  - by rewrite Nat.mod_small.
  - assert (n = 4 + (n - 4))%nat as Hn by lia.
    assert (n mod 4 = (n - 4) mod 4)%nat as Hm.
    { rewrite Hn at 1. rewrite Nat.add_comm.
      by rewrite <- (Nat.Div0.mod_add (n - 4) 1 4). }
    rewrite Hm, <- (IH (n - 4)%nat) by lia.
    transitivity (Nat.iter (4 + (n - 4)) rotate_once b); [by rewrite <- Hn |].
    rewrite Nat.iter_add.
    simpl. apply rotate_once_four.
Qed.

Lemma block_rotate_iter (cnt : Z) (b : block) :
  0 ≤ cnt → block_rotate cnt b = Nat.iter (Z.to_nat cnt) rotate_once b.
Proof.
  intros Hc. unfold block_rotate. rewrite Z.rem_mod_nonneg by lia.
  rewrite (iter_rotate_once_mod (Z.to_nat cnt)). f_equal.
  rewrite Z2Nat.inj_mod by lia. done.
Qed.

(** X12.  For counts that are not negative, [block::rotate] turns a
    block by quarter turns that send [(y, x)] to [(x, -y)]: the count
    matters only modulo four, four quarter turns are no turn, and
    turning by [a] and then by [b] is turning by [a + b]; so a turn by
    [cnt] is undone by a turn by [4 - cnt % 4]. *)
Theorem block_rotate_turns (a b : Z) (blk : block) :
  0 ≤ a → 0 ≤ b →
  block_rotate 1 blk = Block (block_x blk) (- block_y blk) ∧
  block_rotate a blk = block_rotate (a mod 4) blk ∧
  block_rotate 4 blk = blk ∧
  block_rotate b (block_rotate a blk) = block_rotate (a + b) blk ∧
  block_rotate (4 - a mod 4) (block_rotate a blk) = blk.
Proof.
  intros Ha Hb.
  assert (∀ a b, 0 ≤ a → 0 ≤ b →
            block_rotate b (block_rotate a blk) = block_rotate (a + b) blk) as Hadd.
  { intros a' b' Ha' Hb'. rewrite !block_rotate_iter by lia.
    rewrite Z2Nat.inj_add by lia. rewrite (Nat.add_comm (Z.to_nat a')).
    by rewrite Nat.iter_add. }
  assert (∀ a, 0 ≤ a → block_rotate a blk = block_rotate (a mod 4) blk) as Hmod.
  { intros a' Ha'. unfold block_rotate.
    rewrite !Z.rem_mod_nonneg by (try lia; apply Z.mod_pos_bound; lia).
    by rewrite Z.mod_mod by lia. }
  split_and!.
  - apply rotate_once_coords.
  - by apply Hmod.
  - reflexivity.
  - by apply Hadd.
  - pose proof (Z.mod_pos_bound a 4 ltac:(lia)) as Hr.
    rewrite Hadd by lia. rewrite Hmod by lia.
    replace ((a + (4 - a mod 4)) mod 4) with 0; [reflexivity |].
    rewrite Z.add_sub_assoc, Z.add_comm, <- Z.add_sub_assoc.
    rewrite <- Z.add_mod_idemp_r by lia.
    rewrite Zminus_mod_idemp_r, Z.sub_diag. reflexivity.
Qed.


(** ** Moving and rotating the piece *)

Section facts.

Variables (height_ width_ : nat).

Local Abbreviation check_boundary := (check_boundary height_ width_).
Local Abbreviation can_move := (can_move height_ width_).
Local Abbreviation move_piece := (move_piece height_ width_).
Local Abbreviation can_rotate := (can_rotate height_ width_).
Local Abbreviation rotate_piece := (rotate_piece height_ width_).
Local Abbreviation board_dims := (board_dims height_ width_).
Local Abbreviation wf := (wf height_ width_).
Local Abbreviation new_piece := (new_piece height_ width_).
Local Abbreviation try_remove_line := (try_remove_line height_ width_).
Local Abbreviation tick := (tick height_ width_).
Local Abbreviation drop_loop := (drop_loop height_ width_).
Local Abbreviation hard_drop := (hard_drop height_ width_).
Local Abbreviation falls := (falls height_ width_).

Lemma cc_check_boundary_spec (b : block) (y x : Z) :
  check_boundary b y x = true ↔
  0 ≤ block_y b + y < Z.of_nat height_ ∧ 0 ≤ block_x b + x < Z.of_nat width_.
Proof.
  unfold TetrisCc.check_boundary. rewrite !andb_true_iff.
  rewrite !Z.leb_le, !Z.ltb_lt. lia.
Qed.

(** [update_piece], called without a shift, writes the colour on
    [piece_cells]. *)
Lemma cc_update_piece_board (c : Z) (t : tetris) :
  board_ (update_piece c 0 0 t) =
    foldl (λ bd b, set_cell bd (block_y b) (block_x b) c)
          (board_ t) (piece_cells (curr_piece_ t)).
Proof.
  unfold update_piece, piece_cells, cells_at. simpl.
  rewrite (foldl_fmap (λ bd b, set_cell bd (block_y b) (block_x b) c)).
  generalize (board_ t).
  induction (shape (curr_piece_ t)) as [| blk l IH]; intros bd; [done |].
  cbn [foldl]. rewrite !Z.add_0_r. apply IH.
Qed.

Lemma cc_update_piece_dims (c : Z) (t : tetris) :
  board_dims (board_ t) → board_dims (board_ (update_piece c 0 0 t)).
Proof. intros Hd. rewrite cc_update_piece_board. by apply dims_stamp. Qed.

Lemma cc_update_piece_cell (c : Z) (t : tetris) (y x : Z) :
  board_dims (board_ t) → 0 ≤ y < Z.of_nat height_ → 0 ≤ x < Z.of_nat width_ →
  cell (board_ (update_piece c 0 0 t)) y x =
    if decide (Block y x ∈ piece_cells (curr_piece_ t)) then c
    else cell (board_ t) y x.
Proof.
  intros Hd Hy Hx. rewrite cc_update_piece_board.
  by apply (cell_stamp height_ width_).
Qed.

Lemma cc_update_piece_piece (c : Z) (t : tetris) :
  curr_piece_ (update_piece c 0 0 t) = curr_piece_ t.
Proof. reflexivity. Qed.

(** Clearing the piece and stamping it again gives the state back, when
    the piece was stamped on the grid. *)
Lemma cc_update_piece_restore (t : tetris) :
  wf t → update_piece (color (curr_piece_ t)) 0 0 (update_piece 0 0 0 t) = t.
Proof.
  intros (Hd & Hp & Hcells).
  assert (board_ (update_piece (color (curr_piece_ t)) 0 0 (update_piece 0 0 0 t))
          = board_ t) as Hb.
  { apply (board_ext height_ width_).
    - by do 2 apply cc_update_piece_dims.
    - done.
    - intros y x Hy Hx.
      rewrite cc_update_piece_cell by (by try apply cc_update_piece_dims).
      rewrite cc_update_piece_piece.
      rewrite cc_update_piece_cell by done.
      case_decide as Hin; [| done].
      rewrite Forall_forall in Hcells.
      destruct (Hcells _ Hin) as [_ Hc]. symmetry.
      unfold board_cell in Hc. simpl in Hc. by rewrite !Z.add_0_r in Hc. }
  destruct t as [tc sc bd p].
  unfold update_piece at 1. unfold set_board. simpl. f_equal.
  exact Hb.
Qed.

Lemma cc_can_move_state (y x : Z) (t : tetris) :
  wf t → (can_move y x t).2 = t.
Proof. intros Hwf. unfold TetrisCc.can_move. simpl. by apply cc_update_piece_restore. Qed.

Lemma cc_can_rotate_state (cnt : Z) (t : tetris) :
  wf t → (can_rotate cnt t).2 = t.
Proof. intros Hwf. unfold TetrisCc.can_rotate. simpl. by apply cc_update_piece_restore. Qed.

Lemma cc_move_piece_result (y x : Z) (t : tetris) :
  (move_piece y x t).1 = (can_move y x t).1.
Proof.
  unfold TetrisCc.move_piece. destruct (can_move y x t) as [[] t1] eqn:Hc; done.
Qed.

Lemma cc_rotate_piece_result (cnt : Z) (t : tetris) :
  (rotate_piece cnt t).1 = (can_rotate cnt t).1.
Proof.
  unfold TetrisCc.rotate_piece. destruct (can_rotate cnt t) as [[] t1] eqn:Hc; done.
Qed.

Lemma cc_move_piece_failed (y x : Z) (t : tetris) :
  wf t → (move_piece y x t).1 = false → (move_piece y x t).2 = t.
Proof.
  intros Hwf Hno. rewrite cc_move_piece_result in Hno.
  unfold TetrisCc.move_piece. pose proof (cc_can_move_state y x t Hwf) as Hst.
  destruct (can_move y x t) as [ok t1]. simpl in Hno, Hst. by subst.
Qed.

Lemma cc_rotate_piece_failed (cnt : Z) (t : tetris) :
  wf t → (rotate_piece cnt t).1 = false → (rotate_piece cnt t).2 = t.
Proof.
  intros Hwf Hno. rewrite cc_rotate_piece_result in Hno.
  unfold TetrisCc.rotate_piece. pose proof (cc_can_rotate_state cnt t Hwf) as Hst.
  destruct (can_rotate cnt t) as [ok t1]. simpl in Hno, Hst. by subst.
Qed.

(** The test that [can_move] and [can_rotate] apply to one cell, on the
    grid from which the piece has been cleared. *)
Lemma cc_cleared_cell_test (t : tetris) (c : block) (y x : Z) :
  board_dims (board_ t) →
  negb (negb (check_boundary c y x) ||
        negb (board_cell (board_ (update_piece 0 0 0 t)) c y x =? 0)) = false ↔
  check_boundary c y x = false ∨
  (board_cell (board_ t) c y x ≠ 0 ∧
   Block (block_y c + y) (block_x c + x) ∉ piece_cells (curr_piece_ t)).
Proof.
  intros Hd. rewrite negb_false_iff, orb_true_iff, !negb_true_iff.
  destruct (check_boundary c y x) eqn:Hin.
  - apply cc_check_boundary_spec in Hin as [Hy Hx].
    unfold board_cell. rewrite cc_update_piece_cell by done.
    rewrite Z.eqb_neq. case_decide as Hown; split.
    + intros [? | ?]; done.
    + intros [? | [_ ?]]; done.
    + intros [? | ?]; [done | by right].
    + intros [? | [? _]]; [done | by right].
  - split; intros _; by left.
Qed.

(** When [can_rotate] says no. *)
Lemma cc_can_rotate_false (cnt : Z) (t : tetris) :
  board_dims (board_ t) →
  (can_rotate cnt t).1 = false ↔
  ∃ c, c ∈ cells_at (location (curr_piece_ t))
                    (map (block_rotate cnt) (shape (curr_piece_ t))) ∧
       (check_boundary c 0 0 = false ∨
        (board_cell (board_ t) c 0 0 ≠ 0 ∧ c ∉ piece_cells (curr_piece_ t))).
Proof.
  intros Hd. unfold TetrisCc.can_rotate. cbn [fst]. rewrite forallb_false_iff.
  rewrite !cc_update_piece_piece. split.
  - intros (blk & Hblk & Htest). cbv zeta in Htest.
    apply cc_cleared_cell_test in Htest; [| done].
    rewrite block_add_0 in Htest.
    eexists. split; [| exact Htest].
    unfold cells_at. apply list_elem_of_fmap. exists (block_rotate cnt blk).
    split; [done |]. apply list_elem_of_fmap. by exists blk.
  - intros (c & Hc & Hbad). unfold cells_at in Hc.
    apply list_elem_of_fmap in Hc as (rb & -> & Hrb).
    apply list_elem_of_fmap in Hrb as (blk & -> & Hblk).
    exists blk. split; [done |]. cbv zeta.
    apply cc_cleared_cell_test; [done |]. by rewrite block_add_0.
Qed.

(** When [can_move] says no. *)
Lemma cc_can_move_false (y x : Z) (t : tetris) :
  board_dims (board_ t) →
  (can_move y x t).1 = false ↔
  ∃ c, c ∈ piece_cells (curr_piece_ t) ∧
       (check_boundary c y x = false ∨
        (board_cell (board_ t) c y x ≠ 0 ∧
         Block (block_y c + y) (block_x c + x) ∉ piece_cells (curr_piece_ t))).
Proof.
  intros Hd. unfold TetrisCc.can_move. cbn [fst]. rewrite forallb_false_iff.
  rewrite !cc_update_piece_piece. split.
  - intros (blk & Hblk & Htest). cbv zeta in Htest.
    apply cc_cleared_cell_test in Htest; [| done].
    eexists. split; [| exact Htest].
    unfold piece_cells, cells_at. apply list_elem_of_fmap. by exists blk.
  - intros (c & Hc & Hbad). unfold piece_cells, cells_at in Hc.
    apply list_elem_of_fmap in Hc as (blk & -> & Hblk).
    exists blk. split; [done |]. cbv zeta.
    by apply cc_cleared_cell_test.
Qed.

(** What a successful rotation leaves. *)
Lemma cc_rotate_piece_true (cnt : Z) (t : tetris) :
  wf t → (rotate_piece cnt t).1 = true →
  (rotate_piece cnt t).2 =
    update_piece (color (curr_piece_ t)) 0 0
                 (set_curr_piece (rotate cnt (curr_piece_ t)) (update_piece 0 0 0 t)).
Proof.
  intros Hwf. unfold TetrisCc.rotate_piece.
  pose proof (cc_can_rotate_state cnt t Hwf) as Hst.
  destruct (can_rotate cnt t) as [[] t1]; simpl in *; [| done].
  intros _. by subst t1.
Qed.

(** What a successful move leaves. *)
Lemma cc_move_piece_true (y x : Z) (t : tetris) :
  wf t → (move_piece y x t).1 = true →
  (move_piece y x t).2 =
    let p := curr_piece_ t in
    update_piece (color p) 0 0
      (set_curr_piece
         (Piece (shape_index p) (shape p)
                (Block (block_y (location p) + y) (block_x (location p) + x))
                (color p))
         (update_piece 0 0 0 t)).
Proof.
  intros Hwf. unfold TetrisCc.move_piece.
  pose proof (cc_can_move_state y x t Hwf) as Hst.
  destruct (can_move y x t) as [[] t1]; simpl in *; [| done].
  intros _. by subst t1.
Qed.


(** X13.  In a well-formed state of the earlier engine, for a count
    that is not negative, [rotate_piece] fails exactly when some block
    of the piece, turned by [block::rotate] and placed at the unchanged
    anchor, lies outside the grid or on a non-zero cell that is not one
    of the piece's own; a failed call gives the state back as it was,
    and a successful one leaves the piece with every block turned and
    the same kind, anchor and colour. *)
Theorem cc_rotate_piece_spec (cnt : Z) (t : tetris) :
  0 ≤ cnt → wf t →
  let p := curr_piece_ t in
  ((rotate_piece cnt t).1 = false ↔
   ∃ c, c ∈ cells_at (location p) (map (block_rotate cnt) (shape p)) ∧
        (check_boundary c 0 0 = false ∨
         (board_cell (board_ t) c 0 0 ≠ 0 ∧ c ∉ piece_cells p))) ∧
  ((rotate_piece cnt t).1 = false → (rotate_piece cnt t).2 = t) ∧
  ((rotate_piece cnt t).1 = true →
   curr_piece_ (rotate_piece cnt t).2 =
     Piece (shape_index p) (map (block_rotate cnt) (shape p)) (location p) (color p)).
Proof.
  intros Hcnt Hwf p. split_and!.
  - rewrite cc_rotate_piece_result. apply cc_can_rotate_false. apply Hwf.
  - by apply cc_rotate_piece_failed.
  - intros Hok. by rewrite cc_rotate_piece_true.
Qed.

(** X14.  In a well-formed state of the earlier engine, [move_piece]
    fails exactly when some cell of the piece, shifted by the delta,
    lies outside the grid or on a non-zero cell that is not one of the
    piece's own; a failed call gives the state back as it was, and a
    successful one shifts the anchor by the delta and keeps the kind,
    the blocks and the colour. *)
Theorem cc_move_piece_spec (y x : Z) (t : tetris) :
  wf t →
  let p := curr_piece_ t in
  ((move_piece y x t).1 = false ↔
   ∃ c, c ∈ piece_cells p ∧
        (check_boundary c y x = false ∨
         (board_cell (board_ t) c y x ≠ 0 ∧
          Block (block_y c + y) (block_x c + x) ∉ piece_cells p))) ∧
  ((move_piece y x t).1 = false → (move_piece y x t).2 = t) ∧
  ((move_piece y x t).1 = true →
   curr_piece_ (move_piece y x t).2 =
     Piece (shape_index p) (shape p)
           (Block (block_y (location p) + y) (block_x (location p) + x)) (color p)).
Proof.
  intros Hwf p. split_and!.
  - rewrite cc_move_piece_result. apply cc_can_move_false. apply Hwf.
  - by apply cc_move_piece_failed.
  - intros Hok. by rewrite cc_move_piece_true.
Qed.

(** ** Well-formedness is kept *)

Lemma cc_can_move_true_in_grid (y x : Z) (t : tetris) (c : block) :
  board_dims (board_ t) → (can_move y x t).1 = true →
  c ∈ piece_cells (curr_piece_ t) → check_boundary c y x = true.
Proof.
  intros Hd Hok Hc. destruct (check_boundary c y x) eqn:Hin; [done |].
  assert ((can_move y x t).1 = false) as Hno; [| congruence].
  apply cc_can_move_false; [done |]. exists c. auto.
Qed.

Lemma cc_can_rotate_true_in_grid (cnt : Z) (t : tetris) (c : block) :
  board_dims (board_ t) → (can_rotate cnt t).1 = true →
  c ∈ cells_at (location (curr_piece_ t))
               (map (block_rotate cnt) (shape (curr_piece_ t))) →
  check_boundary c 0 0 = true.
Proof.
  intros Hd Hok Hc. destruct (check_boundary c 0 0) eqn:Hin; [done |].
  assert ((can_rotate cnt t).1 = false) as Hno; [| congruence].
  apply cc_can_rotate_false; [done |]. exists c. auto.
Qed.

(** Stamping a piece whose cells lie in the grid gives a well-formed
    state. *)
Lemma cc_update_piece_wf (t : tetris) :
  board_dims (board_ t) → shape (curr_piece_ t) ≠ [] →
  Forall (λ c, check_boundary c 0 0 = true) (piece_cells (curr_piece_ t)) →
  wf (update_piece (color (curr_piece_ t)) 0 0 t).
Proof.
  intros Hd Hp Hin. split_and!.
  - by apply cc_update_piece_dims.
  - done.
  - rewrite cc_update_piece_piece. apply Forall_forall. intros c Hc.
    rewrite Forall_forall in Hin. pose proof (Hin c Hc) as Hg. split; [done |].
    apply cc_check_boundary_spec in Hg as [Hy Hx].
    unfold board_cell. rewrite cc_update_piece_cell by (first [done | lia]).
    rewrite block_add_0. by rewrite decide_True.
Qed.

Lemma cc_move_piece_wf (y x : Z) (t : tetris) :
  wf t → wf (move_piece y x t).2.
Proof.
  intros Hwf. destruct (move_piece y x t).1 eqn:Hok.
  - rewrite cc_move_piece_true by done. cbv zeta.
    rewrite cc_move_piece_result in Hok.
    destruct Hwf as (Hd & Hp & Hcells).
    match goal with |- wf (update_piece _ 0 0 ?T) =>
      change (wf (update_piece (color (curr_piece_ T)) 0 0 T)) end.
    apply cc_update_piece_wf.
    + by apply cc_update_piece_dims.
    + done.
    + simpl. unfold piece_cells, cells_at. simpl.
      apply Forall_forall. intros c (blk & -> & Hblk)%list_elem_of_fmap.
      rewrite <- block_add_shift.
      pose proof (cc_can_move_true_in_grid y x t
                    (block_add (location (curr_piece_ t)) blk) Hd Hok) as Hin.
      rewrite cc_check_boundary_spec in Hin. apply cc_check_boundary_spec. simpl.
      rewrite !Z.add_0_r. apply Hin.
      unfold piece_cells, cells_at. apply list_elem_of_fmap. by exists blk.
  - by rewrite cc_move_piece_failed.
Qed.

Lemma cc_rotate_piece_wf (cnt : Z) (t : tetris) :
  wf t → wf (rotate_piece cnt t).2.
Proof.
  intros Hwf. destruct (rotate_piece cnt t).1 eqn:Hok.
  - rewrite cc_rotate_piece_true by done.
    rewrite cc_rotate_piece_result in Hok.
    destruct Hwf as (Hd & Hp & Hcells).
    match goal with |- wf (update_piece _ 0 0 ?T) =>
      change (wf (update_piece (color (curr_piece_ T)) 0 0 T)) end.
    apply cc_update_piece_wf.
    + by apply cc_update_piece_dims.
    + simpl. intros Hnil. apply Hp. by apply fmap_nil_inv in Hnil.
    + simpl. apply Forall_forall. intros c Hc.
      by apply (cc_can_rotate_true_in_grid cnt t c Hd Hok).
  - by rewrite cc_rotate_piece_failed.
Qed.

(** ** The hard drop *)

Lemma cc_move_piece_pair (y x : Z) (t : tetris) :
  move_piece y x t = ((move_piece y x t).1, (move_piece y x t).2).
Proof. by destruct (move_piece y x t). Qed.

(** A well-formed piece has a row of the grid under its first block at
    most [height_] times: the [while] of the hard drop ends. *)
Lemma cc_drop_loop_lands (fuel : nat) (t : tetris) :
  wf t →
  Z.of_nat height_ -
    (block_y (location (curr_piece_ t)) +
     block_y (shape (curr_piece_ t) !!! 0%nat)) ≤ Z.of_nat fuel →
  ∃ t', drop_loop fuel t = Some t' ∧ falls t t' ∧ wf t' ∧
        (move_piece 1 0 t').1 = false.
Proof.
  revert t. induction fuel as [| fuel IH]; intros t Hwf Hroom.
  - exfalso. destruct Hwf as (Hd & Hp & Hcells).
    unfold piece_cells, cells_at in Hcells.
    destruct (shape (curr_piece_ t)) as [| b0 rest]; [done |]. simpl in *.
    apply Forall_cons in Hcells as [[Hin _] _].
    apply cc_check_boundary_spec in Hin. simpl in Hin. lia.
  - cbn [TetrisCc.drop_loop]. rewrite (cc_move_piece_pair 1 0 t).
    pose proof (cc_move_piece_wf 1 0 t Hwf) as Hwf1.
    destruct (move_piece 1 0 t).1 eqn:Hok.
    + destruct (IH (move_piece 1 0 t).2 Hwf1) as (t' & Hrun & Hfalls & Hwf' & Hstop).
      { rewrite cc_move_piece_true by done. simpl. lia. }
      exists t'. split_and!; [done | | done | done].
      eapply falls_down; [| exact Hfalls].
      rewrite (cc_move_piece_pair 1 0 t). by rewrite Hok.
    + rewrite (cc_move_piece_failed 1 0 t Hwf Hok).
      exists t. split_and!; [done | constructor | done | done].
Qed.

Lemma cc_drop_loop_ends (t : tetris) :
  wf t →
  ∃ t', drop_loop (S height_) t = Some t' ∧ falls t t' ∧ wf t' ∧
        (move_piece 1 0 t').1 = false.
Proof.
  intros Hwf. apply cc_drop_loop_lands; [done |].
  destruct Hwf as (Hd & Hp & Hcells).
  unfold piece_cells, cells_at in Hcells.
  destruct (shape (curr_piece_ t)) as [| b0 rest]; [done |]. simpl in *.
  apply Forall_cons in Hcells as [[Hin _] _].
  apply cc_check_boundary_spec in Hin. simpl in Hin. lia.
Qed.

(** Removing lines and resetting the tick counter commute. *)
Lemma cc_try_remove_line_tick_cnt (v : Z) (t : tetris) :
  try_remove_line (set_tick_cnt v t) = set_tick_cnt v (try_remove_line t).
Proof.
  unfold TetrisCc.try_remove_line. cbv zeta.
  change (lines_to_remove (set_tick_cnt v t)) with (lines_to_remove t).
  by destruct (decide (lines_to_remove t = ∅)).
Qed.

Lemma cc_new_piece_tick_cnt (t : tetris) (ds : list Z) (o : outcome) (ds' : list Z) :
  run (new_piece t) ds = Some (o, ds') →
  tick_cnt_ (outcome_state o) = tick_cnt_ t ∧ score_ (outcome_state o) = score_ t.
Proof.
  unfold TetrisCc.new_piece. rewrite run_bind.
  destruct (run (uniform 0 (n_shapes_ - 1)) ds) as [[s ds1] |]; [| done].
  rewrite run_bind.
  destruct (run (uniform 1 7) ds1) as [[c ds2] |]; [| done].
  rewrite run_bind.
  destruct (run (uniform 0 3) ds2) as [[r ds3] |]; [| done].
  cbv zeta.
  match goal with |- context [if ?b then _ else _] => destruct b end.
  - rewrite run_ret. by intros [= <- _].
  - rewrite run_bind.
    match goal with |- context [run (uniform ?a ?b) ds3] =>
      destruct (run (uniform a b) ds3) as [[x ds4] |]; [| done] end.
    match goal with |- context [if ?b then _ else _] => destruct b end;
      rewrite run_ret; by intros [= <- _].
Qed.

(** X15.  The hard drop of the earlier engine locks at once.  In a
    well-formed state the [while (move_piece())] of the [s] key ends,
    within [height_ + 1] attempts, in a state reached by successful
    one-row moves from which the piece cannot move down; the lines are
    then removed and the next piece popped up, which is what the tick
    on which the piece would have failed to move does: the branch
    equals [tick] run on the landed state with the counter one short
    of [move_ticks_].  Whatever the draws, the counter is [0]
    afterwards. *)
Theorem cc_hard_drop_locks (t : tetris) :
  wf t →
  ∃ t1, falls t t1 ∧ wf t1 ∧ (move_piece 1 0 t1).1 = false ∧
        hard_drop t = Some (new_piece (set_tick_cnt 0 (try_remove_line t1))) ∧
        hard_drop t = Some (tick (set_tick_cnt (move_ticks_ - 1) t1)) ∧
        ∀ m ds o ds', hard_drop t = Some m → run m ds = Some (o, ds') →
                      tick_cnt_ (outcome_state o) = 0.
Proof.
  intros Hwf.
  destruct (cc_drop_loop_ends t Hwf) as (t1 & Hrun & Hfalls & Hwf1 & Hstop).
  assert (hard_drop t = Some (new_piece (set_tick_cnt 0 (try_remove_line t1)))) as Hhd.
  { unfold TetrisCc.hard_drop. by rewrite Hrun. }
  exists t1. split_and!; try done.
  - rewrite Hhd. f_equal. unfold TetrisCc.tick. cbv zeta.
    cbn [tick_cnt_ set_tick_cnt]. 
    replace (move_ticks_ <=? move_ticks_ - 1 + 1) with true
      by (symmetry; apply Z.leb_le; lia).
    change (set_tick_cnt 0 (set_tick_cnt (move_ticks_ - 1 + 1)
                              (set_tick_cnt (move_ticks_ - 1) t1)))
      with (set_tick_cnt 0 t1).
    assert (wf (set_tick_cnt 0 t1)) as Hwf2 by exact Hwf1.
    assert ((move_piece 1 0 (set_tick_cnt 0 t1)).1 = false) as Hstop2.
    { rewrite cc_move_piece_result in *. exact Hstop. }
    rewrite (cc_move_piece_pair 1 0). rewrite Hstop2.
    rewrite (cc_move_piece_failed _ _ _ Hwf2 Hstop2). cbn [negb].
    f_equal. symmetry. apply cc_try_remove_line_tick_cnt.
  - intros m ds o ds' Hm Hr. rewrite Hhd in Hm. injection Hm as <-.
    by apply cc_new_piece_tick_cnt in Hr as [-> _].
Qed.


(** ** A new piece *)

Lemma cc_shapes_nonempty (s : Z) :
  0 ≤ s ≤ n_shapes_ - 1 → shapes_ !!! Z.to_nat s ≠ [].
Proof.
  intros Hs. assert (Z.to_nat s < 7)%nat as Hn by (unfold n_shapes_ in Hs; simpl in Hs; lia).
  revert Hn. generalize (Z.to_nat s). intros n Hn.
  do 7 (destruct n as [| n]; [done |]). lia.
Qed.

(** Every way [new_piece] can end. *)
Lemma cc_new_piece_run (t : tetris) (ds : list Z) (o : outcome) (ds' : list Z) :
  run (new_piece t) ds = Some (o, ds') →
  ∃ s c rot,
    0 ≤ s ≤ n_shapes_ - 1 ∧ 1 ≤ c ≤ 7 ∧ 0 ≤ rot ≤ 3 ∧
    let sh := map (block_rotate rot) (shapes_ !!! Z.to_nat s) in
    let ext := shape_extent sh in
    ((o = SpaceTooSmall
            (set_curr_piece (Piece (Z.to_nat s) sh (location (curr_piece_ t)) c) t) ∧
      (Z.of_nat width_ - x_max ext - 1 < - x_min ext ∨
       Z.of_nat height_ ≤ - y_min ext + y_max ext)) ∨
     ∃ x, - x_min ext ≤ x ≤ Z.of_nat width_ - x_max ext - 1 ∧
          - y_min ext + y_max ext < Z.of_nat height_ ∧
          let t2 := set_curr_piece (Piece (Z.to_nat s) sh (Block (- y_min ext) x) c) t in
          ((o = GameOver t2 ∧
            ∃ b, b ∈ piece_cells (curr_piece_ t2) ∧ board_cell (board_ t) b 0 0 ≠ 0) ∨
           (o = Ok (update_piece c 0 0 t2) ∧
            ∀ b, b ∈ piece_cells (curr_piece_ t2) → board_cell (board_ t) b 0 0 = 0))).
Proof.
  unfold TetrisCc.new_piece. rewrite run_bind.
  destruct (run (uniform 0 (n_shapes_ - 1)) ds) as [[s ds1] |] eqn:Hs; [| done].
  apply run_uniform in Hs as [-> Hs].
  rewrite run_bind.
  destruct (run (uniform 1 7) ds1) as [[c ds2] |] eqn:Hc; [| done].
  apply run_uniform in Hc as [-> Hc].
  rewrite run_bind.
  destruct (run (uniform 0 3) ds2) as [[r ds3] |] eqn:Hr; [| done].
  apply run_uniform in Hr as [-> Hr].
  cbv zeta. unfold get_extent, rotate. cbn [shape shape_index location color].
  set (sh := map (block_rotate r) (shapes_ !!! Z.to_nat s)).
  set (ext := shape_extent sh).
  intros Hrun. exists s, c, r. split_and!; try lia. fold sh ext. cbv zeta.
  destruct ((Z.of_nat width_ - x_max ext - 1 <? - x_min ext) ||
            (Z.of_nat height_ <=? - y_min ext + y_max ext))
    eqn:Hsmall.
  - left. rewrite run_ret in Hrun. injection Hrun as <- _. split; [done |].
    apply orb_true_iff in Hsmall as [Hx%Z.ltb_lt | Hy%Z.leb_le]; [by left | by right].
  - right. apply orb_false_iff in Hsmall as [Hx%Z.ltb_ge Hy%Z.leb_gt].
    rewrite run_bind in Hrun.
    destruct (run (uniform (- x_min ext) (Z.of_nat width_ - x_max ext - 1)) ds3)
      as [[x ds4] |] eqn:Hxd; [| done].
    apply run_uniform in Hxd as [-> Hxr].
    exists x. split_and!; try lia.
    match type of Hrun with context [existsb ?f ?l] =>
      destruct (existsb f l) eqn:Hover end.
    + left. rewrite run_ret in Hrun. injection Hrun as <- _. split; [done |].
      apply existsb_elem_of in Hover as (blk & Hblk & Hne).
      eexists. split.
      * unfold piece_cells, cells_at. apply list_elem_of_fmap.
        exists blk. split; [reflexivity | exact Hblk].
      * apply negb_true_iff, Z.eqb_neq in Hne. exact Hne.
    + right. rewrite run_ret in Hrun. injection Hrun as <- _. split; [done |].
      intros b (blk & -> & Hblk)%list_elem_of_fmap.
      destruct (decide (board_cell (board_ t)
                          (block_add (Block (- y_min ext) x) blk) 0 0 = 0))
        as [Hz | Hnz]; [done |].
      exfalso. apply not_true_iff_false in Hover. apply Hover.
      apply existsb_elem_of. exists blk. split; [exact Hblk |].
      apply negb_true_iff, Z.eqb_neq. exact Hnz.
Qed.

(** The cells of a piece placed by [new_piece] lie in the grid, the
    topmost in row [0]. *)
Lemma cc_placed_in_grid (sh : shape_t) (x : Z) :
  let ext := shape_extent sh in
  sh ≠ [] →
  - x_min ext ≤ x ≤ Z.of_nat width_ - x_max ext - 1 →
  - y_min ext + y_max ext < Z.of_nat height_ →
  (∀ b, b ∈ cells_at (Block (- y_min ext) x) sh →
        0 ≤ block_y b < Z.of_nat height_ ∧ 0 ≤ block_x b < Z.of_nat width_) ∧
  (∃ b, b ∈ cells_at (Block (- y_min ext) x) sh ∧ block_y b = 0).
Proof.
  intros ext Hne Hx Hy. split.
  - intros b (blk & -> & Hblk)%list_elem_of_fmap.
    pose proof (shape_extent_bounds _ _ Hblk) as Hb. fold ext in Hb.
    simpl. lia.
  - destruct (shape_extent_top sh Hne) as (blk & Hblk & Htop). fold ext in Htop.
    eexists. split.
    + apply list_elem_of_fmap. exists blk. split; [reflexivity | done].
    + simpl. lia.
Qed.

(** X16.  [new_piece] of the earlier engine, however the draws fall.
    The kind is one of the seven, the colour lies in [1, 7], and the
    blocks are those of the kind turned by [0] to [3] quarter turns;
    the counters are untouched.  It ends with the "space too small"
    error exactly when the extent of the turned blocks is wider or
    higher than the grid, and the grid is then untouched.
    Otherwise every cell of the piece lies in the grid, the topmost in
    row [0]; the call ends with [gameover], the grid untouched, when
    one of these cells is not zero, and else stamps the colour on them
    and leaves a well-formed state. *)
Theorem cc_new_piece_spec (t : tetris) (ds : list Z) (o : outcome) (ds' : list Z) :
  board_dims (board_ t) →
  run (new_piece t) ds = Some (o, ds') →
  let p := curr_piece_ (outcome_state o) in
  let ext := get_extent p in
  (∃ s rot, 0 ≤ s < n_shapes_ ∧ 0 ≤ rot ≤ 3 ∧ shape_index p = Z.to_nat s ∧
            shape p = map (block_rotate rot) (shapes_ !!! Z.to_nat s)) ∧
  1 ≤ color p ≤ 7 ∧
  tick_cnt_ (outcome_state o) = tick_cnt_ t ∧
  score_ (outcome_state o) = score_ t ∧
  match o with
  | SpaceTooSmall t' =>
      (Z.of_nat width_ < x_max ext - x_min ext + 1 ∨
       Z.of_nat height_ ≤ y_max ext - y_min ext) ∧
      board_ t' = board_ t
  | GameOver t' =>
      x_max ext - x_min ext + 1 ≤ Z.of_nat width_ ∧
      y_max ext - y_min ext < Z.of_nat height_ ∧
      Forall (λ b, check_boundary b 0 0 = true) (piece_cells p) ∧
      (∃ b, b ∈ piece_cells p ∧ block_y b = 0) ∧
      (∃ b, b ∈ piece_cells p ∧ board_cell (board_ t) b 0 0 ≠ 0) ∧
      board_ t' = board_ t
  | Ok t' =>
      x_max ext - x_min ext + 1 ≤ Z.of_nat width_ ∧
      y_max ext - y_min ext < Z.of_nat height_ ∧
      (∃ b, b ∈ piece_cells p ∧ block_y b = 0) ∧
      (∀ b, b ∈ piece_cells p → board_cell (board_ t) b 0 0 = 0) ∧
      wf t' ∧
      (∀ y x, 0 ≤ y < Z.of_nat height_ → 0 ≤ x < Z.of_nat width_ →
              cell (board_ t') y x =
                if decide (Block y x ∈ piece_cells p) then color p
                else cell (board_ t) y x)
  end.
Proof.
  intros Hd Hrun.
  pose proof (cc_new_piece_tick_cnt t ds o ds' Hrun) as [Htick Hscore].
  apply cc_new_piece_run in Hrun as (s & c & r & Hs & Hc & Hr & Hcases).
  cbv zeta in Hcases.
  pose proof (cc_shapes_nonempty s Hs) as Hne.
  set (sh := map (block_rotate r) (shapes_ !!! Z.to_nat s)) in *.
  assert (sh ≠ []) as Hsh.
  { intros Hnil. apply Hne. by apply fmap_nil_inv in Hnil. }
  set (ext := shape_extent sh) in *.
  assert (∃ s0 rot, 0 ≤ s0 < n_shapes_ ∧ 0 ≤ rot ≤ 3 ∧ Z.to_nat s = Z.to_nat s0 ∧
            sh = map (block_rotate rot) (shapes_ !!! Z.to_nat s0)) as Hkind.
  { exists s, r. split_and!; (done || lia). }
  destruct Hcases as [[-> Hsmall] | (x & Hx & Hy & Hcases)].
  - cbv zeta. simpl. unfold get_extent. simpl. fold sh ext.
    split; [done |]. split; [lia |]. split; [done |]. split; [done |].
    split; [lia | done].
  - destruct (cc_placed_in_grid sh x Hsh Hx Hy) as [Hgrid Htop].
    fold ext in Hgrid, Htop.
    assert (Forall (λ b, check_boundary b 0 0 = true)
                   (cells_at (Block (- y_min ext) x) sh)) as Hall.
    { apply Forall_forall. intros b Hb. apply cc_check_boundary_spec.
      pose proof (Hgrid b Hb). lia. }
    destruct Hcases as [[-> Hover] | [-> Hfree]].
    + cbv zeta. simpl. unfold get_extent. simpl. fold sh ext.
      split; [done |]. split; [lia |]. split; [done |]. split; [done |].
      split_and!; (done || lia).
    + set (t2 := set_curr_piece (Piece (Z.to_nat s) sh (Block (- y_min ext) x) c) t) in *.
      assert (wf (update_piece c 0 0 t2)) as Hwf'.
      { change (wf (update_piece (color (curr_piece_ t2)) 0 0 t2)).
        by apply cc_update_piece_wf. }
      assert (∀ y0 x0, 0 ≤ y0 < Z.of_nat height_ → 0 ≤ x0 < Z.of_nat width_ →
                cell (board_ (update_piece c 0 0 t2)) y0 x0 =
                  if decide (Block y0 x0 ∈ piece_cells (curr_piece_ t2)) then c
                  else cell (board_ t) y0 x0) as Hcell.
      { intros y0 x0 Hy0 Hx0. by rewrite cc_update_piece_cell. }
      cbv zeta. cbn [outcome_state]. rewrite cc_update_piece_piece.
      unfold get_extent. cbn [t2 curr_piece_ set_curr_piece shape shape_index color].
      fold sh ext.
      split; [done |]. split; [lia |]. split; [done |]. split; [done |].
      split; [lia |]. split; [lia |]. split; [done |]. split; [done |]. split; done.
Qed.


(** ** Removing lines *)

Lemma shape_extent_bottom (s : shape_t) :
  s ≠ [] → ∃ b, b ∈ s ∧ block_y b = y_max (shape_extent s).
Proof.
  intros Hs. unfold shape_extent. destruct s as [| b0 rest]; [done |].
  change (drop 1 (b0 :: rest)) with rest.
  change ((b0 :: rest) !!! 0%nat) with b0. cbv zeta.
  match goal with |- context [foldl extent_step ?e rest] =>
    destruct (extent_fold_attained rest e) as (_ & Hmax & _) end.
  cbv zeta in Hmax. simpl in Hmax. destruct Hmax as [Hmax | (b & Hb & Hmax)].
  - exists b0. split; [apply elem_of_cons; auto | done].
  - exists b. split; [apply elem_of_cons; auto | done].
Qed.

(** The rows that a well-formed piece spans are rows of the grid. *)
Lemma cc_piece_rows (t : tetris) :
  wf t →
  let p := curr_piece_ t in
  0 ≤ block_y (location p) + y_min (get_extent p) ∧
  block_y (location p) + y_max (get_extent p) < Z.of_nat height_.
Proof.
  intros (Hd & Hp & Hcells). cbv zeta. unfold get_extent.
  destruct (shape_extent_top _ Hp) as (b1 & Hb1 & Htop).
  destruct (shape_extent_bottom _ Hp) as (b2 & Hb2 & Hbot).
  rewrite Forall_forall in Hcells.
  assert (∀ b, b ∈ shape (curr_piece_ t) →
               0 ≤ block_y (location (curr_piece_ t)) + block_y b < Z.of_nat height_) as Hrow.
  { intros b Hb.
    destruct (Hcells (block_add (location (curr_piece_ t)) b)) as [Hin _].
    { unfold piece_cells, cells_at. apply list_elem_of_fmap. by exists b. }
    apply cc_check_boundary_spec in Hin. simpl in Hin. lia. }
  pose proof (Hrow b1 Hb1). pose proof (Hrow b2 Hb2). lia.
Qed.

Lemma cc_lines_to_remove_spec (t : tetris) (r : nat) :
  let p := curr_piece_ t in
  r ∈ lines_to_remove t ↔
  ∃ i, block_y (location p) + y_min (get_extent p) ≤ i
         ≤ block_y (location p) + y_max (get_extent p) ∧
       r = Z.to_nat i ∧ row_full (board_ t) r = true.
Proof.
  cbv zeta. unfold lines_to_remove. rewrite lines_fold_elem. split.
  - intros [Hemp | (i & Hi & -> & Hfull)]; [by apply not_elem_of_empty in Hemp |].
    apply elem_of_reverse, elem_of_seqZ in Hi.
    exists i. split_and!; [lia | lia | done | done].
  - intros (i & Hi & -> & Hfull). right. exists i. split_and!; [| done | done].
    apply elem_of_reverse, elem_of_seqZ. lia.
Qed.

(** X17.  [try_remove_line] of the earlier engine, in a well-formed
    state.  The lines to remove are the full rows among the rows that
    the piece spans; the piece and the tick counter are untouched.
    With no such row the state is untouched.  Otherwise the score
    grows by their number, modulo [2^64], and the grid, of the same
    dimensions, is compacted: every other row has moved down by the
    number of removed rows below it, the rows at the top, as many as
    were removed, are zero, and every row under these is one of the
    kept rows. *)
Theorem cc_try_remove_line_spec (t : tetris) :
  wf t →
  let R := lines_to_remove t in
  let t' := try_remove_line t in
  let p := curr_piece_ t in
  (∀ r : nat,
      r ∈ R ↔
      block_y (location p) + y_min (get_extent p) ≤ Z.of_nat r
        ≤ block_y (location p) + y_max (get_extent p) ∧
      row_full (board_ t) r = true) ∧
  curr_piece_ t' = p ∧ tick_cnt_ t' = tick_cnt_ t ∧
  (R = ∅ → t' = t) ∧
  (R ≠ ∅ →
   score_ t' = size_add (score_ t) (Z.of_nat (size R)) ∧
   board_dims (board_ t') ∧
   (∀ r, (r < height_)%nat → r ∉ R →
         board_ t' !! (r + removed_below R r)%nat = board_ t !! r) ∧
   (∀ d, (d < size R)%nat → board_ t' !! d = Some (replicate width_ 0)) ∧
   (∀ d, (size R ≤ d < height_)%nat →
         ∃ r, (r < height_)%nat ∧ (r ∉ R) ∧ (r + removed_below R r)%nat = d)).
Proof.
  intros Hwf R t' p. pose proof (cc_piece_rows t Hwf) as Hrows. cbv zeta in Hrows.
  fold p in Hrows.
  assert (∀ r : nat,
            r ∈ R ↔
            block_y (location p) + y_min (get_extent p) ≤ Z.of_nat r
              ≤ block_y (location p) + y_max (get_extent p) ∧
            row_full (board_ t) r = true) as HR.
  { intros r. unfold R. rewrite cc_lines_to_remove_spec. cbv zeta. fold p. split.
    - intros (i & Hi & -> & Hfull). rewrite Z2Nat.id by lia. done.
    - intros [Hr Hfull]. exists (Z.of_nat r). rewrite Nat2Z.id. done. }
  split; [exact HR |].
  unfold t', TetrisCc.try_remove_line. cbv zeta. fold R.
  destruct (decide (R = ∅)) as [Hemp | Hne].
  - split_and!; try done.
  - split_and!; try done. intros _. split; [done |].
    cbn [board_ set_board set_score].
    apply cc_remove_lines_compacts; [apply Hwf | done |].
    intros q Hq. apply HR in Hq as [Hq _]. lia.
Qed.

(** ** The engine keeps its states well formed *)

Lemma cc_try_remove_line_dims (t : tetris) :
  wf t → board_dims (board_ (try_remove_line t)).
Proof.
  intros Hwf. pose proof (cc_piece_rows t Hwf) as Hrows. cbv zeta in Hrows.
  unfold TetrisCc.try_remove_line. cbv zeta.
  destruct (decide (lines_to_remove t = ∅)) as [Hemp | Hne]; [apply Hwf |].
  cbn [board_ set_board set_score].
  apply cc_remove_lines_compacts; [apply Hwf | done |].
  intros q Hq. apply cc_lines_to_remove_spec in Hq as (i & Hi & -> & _).
  cbv zeta in Hi. lia.
Qed.

Lemma cc_new_piece_wf (t : tetris) (ds : list Z) (t' : tetris) (ds' : list Z) :
  board_dims (board_ t) → run (new_piece t) ds = Some (Ok t', ds') → wf t'.
Proof.
  intros Hd Hrun.
  apply cc_new_piece_run in Hrun as (s & c & r & Hs & Hc & Hr & Hcases).
  cbv zeta in Hcases.
  pose proof (cc_shapes_nonempty s Hs) as Hne.
  set (sh := map (block_rotate r) (shapes_ !!! Z.to_nat s)) in *.
  assert (sh ≠ []) as Hsh.
  { intros Hnil. apply Hne. by apply fmap_nil_inv in Hnil. }
  destruct Hcases as [[[=] _] | (x & Hx & Hy & [[[=] _] | [[= ->] _]])].
  destruct (cc_placed_in_grid sh x Hsh Hx Hy) as [Hgrid _].
  match goal with |- wf (update_piece c 0 0 ?T) =>
    change (wf (update_piece (color (curr_piece_ T)) 0 0 T)) end.
  apply cc_update_piece_wf; [done | done |].
  apply Forall_forall. intros b Hb. apply cc_check_boundary_spec.
  pose proof (Hgrid b Hb). lia.
Qed.

(** X18.  The earlier engine keeps its states well formed: from a
    well-formed state, a move, or a rotation by a count that is not
    negative, whether it succeeds or not, a tick that ends normally,
    and a hard drop that ends normally each leave a well-formed state
    -- the grid has its dimensions and the piece, which has a block,
    lies inside it and is stamped on it in its colour. *)
Theorem cc_engine_keeps_wf (t : tetris) :
  wf t →
  (∀ y x, wf (move_piece y x t).2) ∧
  (∀ cnt, 0 ≤ cnt → wf (rotate_piece cnt t).2) ∧
  (∀ ds t' ds', run (tick t) ds = Some (Ok t', ds') → wf t') ∧
  (∀ m ds t' ds', hard_drop t = Some m → run m ds = Some (Ok t', ds') → wf t').
Proof.
  intros Hwf. split_and!.
  - intros y x. by apply cc_move_piece_wf.
  - intros cnt _. by apply cc_rotate_piece_wf.
  - intros ds t' ds'. unfold TetrisCc.tick. cbv zeta. cbn [tick_cnt_ set_tick_cnt].
    destruct (move_ticks_ <=? tick_cnt_ t + 1).
    + set (t0 := set_tick_cnt 0 (set_tick_cnt (tick_cnt_ t + 1) t)).
      assert (wf t0) as Hwf0 by exact Hwf.
      pose proof (cc_move_piece_wf 1 0 t0 Hwf0) as Hwf1.
      rewrite (cc_move_piece_pair 1 0 t0).
      destruct (move_piece 1 0 t0).1; cbn [negb].
      * rewrite run_ret. by intros [= <- _].
      * apply cc_new_piece_wf. by apply cc_try_remove_line_dims.
    + rewrite run_ret. intros [= <- _]. exact Hwf.
  - intros m ds t' ds' Hm Hrun.
    destruct (cc_drop_loop_ends t Hwf) as (t1 & Hdrop & _ & Hwf1 & _).
    unfold TetrisCc.hard_drop in Hm. rewrite Hdrop in Hm. injection Hm as <-.
    apply cc_new_piece_wf in Hrun; [done |].
    change (board_ (set_tick_cnt 0 (try_remove_line t1)))
      with (board_ (try_remove_line t1)).
    by apply cc_try_remove_line_dims.
Qed.

End facts.

(** ** The earlier engine at work on the samples *)

Example cc_rotate_piece_sample :
  rotate_piece 4 4 1 sample_turn =
    (true,
     Tetris 3 0
            [ [0; 4; 0; 0]; [0; 4; 4; 0]; [0; 4; 0; 0]; [0; 0; 0; 0] ]
            (Piece 6 [B 0 0; B 0 1; B (-1) 0; B 1 0] (Block 1 1) 4)).
Proof. vm_compute. reflexivity. Qed.

Example cc_new_piece_sample :
  run (new_piece 4 4 sample_empty) [1; 3; 0; 2] = Some (Ok sample_spawned, []).
Proof. vm_compute. reflexivity. Qed.

Example cc_try_remove_line_sample :
  try_remove_line 4 4 sample_landed =
    Tetris 7 2 (replicate 4 (replicate 4 0))
           (Piece 1 [B 0 0; B 0 1; B 1 0; B 1 1] (Block 2 2) 3).
Proof. vm_compute. reflexivity. Qed.

Lemma block_rotate_turns_witness :
  let blk := Block 1 2 in
  block_rotate 1 blk = Block (block_x blk) (- block_y blk) ∧
  block_rotate 5 blk = block_rotate (5 mod 4) blk ∧
  block_rotate 4 blk = blk ∧
  block_rotate 2 (block_rotate 5 blk) = block_rotate (5 + 2) blk ∧
  block_rotate (4 - 5 mod 4) (block_rotate 5 blk) = blk.
Proof. apply (block_rotate_turns 5 2 (Block 1 2)); lia. Defined.

Lemma cc_rotate_piece_spec_witness :
  let t := sample_turn in
  let p := curr_piece_ t in
  ((rotate_piece 4 4 1 t).1 = false ↔
   ∃ c, c ∈ cells_at (location p) (map (block_rotate 1) (shape p)) ∧
        (check_boundary 4 4 c 0 0 = false ∨
         (board_cell (board_ t) c 0 0 ≠ 0 ∧ c ∉ piece_cells p))) ∧
  ((rotate_piece 4 4 1 t).1 = false → (rotate_piece 4 4 1 t).2 = t) ∧
  ((rotate_piece 4 4 1 t).1 = true →
   curr_piece_ (rotate_piece 4 4 1 t).2 =
     Piece (shape_index p) (map (block_rotate 1) (shape p)) (location p) (color p)).
Proof.
  apply (cc_rotate_piece_spec 4 4 1 sample_turn); [lia |].
  unfold wf, board_dims. by_computation.
Defined.

Lemma cc_move_piece_spec_witness :
  let t := sample_drop in
  let p := curr_piece_ t in
  ((move_piece 4 4 1 0 t).1 = false ↔
   ∃ c, c ∈ piece_cells p ∧
        (check_boundary 4 4 c 1 0 = false ∨
         (board_cell (board_ t) c 1 0 ≠ 0 ∧
          Block (block_y c + 1) (block_x c + 0) ∉ piece_cells p))) ∧
  ((move_piece 4 4 1 0 t).1 = false → (move_piece 4 4 1 0 t).2 = t) ∧
  ((move_piece 4 4 1 0 t).1 = true →
   curr_piece_ (move_piece 4 4 1 0 t).2 =
     Piece (shape_index p) (shape p)
           (Block (block_y (location p) + 1) (block_x (location p) + 0)) (color p)).
Proof.
  apply (cc_move_piece_spec 4 4 1 0 sample_drop).
  unfold wf, board_dims. by_computation.
Defined.

Lemma cc_hard_drop_locks_witness :
  let t := sample_drop in
  ∃ t1, falls 4 4 t t1 ∧ wf 4 4 t1 ∧ (move_piece 4 4 1 0 t1).1 = false ∧
        hard_drop 4 4 t =
          Some (new_piece 4 4 (set_tick_cnt 0 (try_remove_line 4 4 t1))) ∧
        hard_drop 4 4 t = Some (tick 4 4 (set_tick_cnt (move_ticks_ - 1) t1)) ∧
        ∀ m ds o ds', hard_drop 4 4 t = Some m → run m ds = Some (o, ds') →
                      tick_cnt_ (outcome_state o) = 0.
Proof.
  apply (cc_hard_drop_locks 4 4 sample_drop).
  unfold wf, board_dims. by_computation.
Defined.

Lemma cc_new_piece_spec_witness :
  let t := sample_empty in
  let t' := sample_spawned in
  let p := curr_piece_ t' in
  let ext := get_extent p in
  (∃ s rot, 0 ≤ s < n_shapes_ ∧ 0 ≤ rot ≤ 3 ∧ shape_index p = Z.to_nat s ∧
            shape p = map (block_rotate rot) (shapes_ !!! Z.to_nat s)) ∧
  1 ≤ color p ≤ 7 ∧
  tick_cnt_ t' = tick_cnt_ t ∧
  score_ t' = score_ t ∧
  x_max ext - x_min ext + 1 ≤ Z.of_nat 4 ∧
  y_max ext - y_min ext < Z.of_nat 4 ∧
  (∃ b, b ∈ piece_cells p ∧ block_y b = 0) ∧
  (∀ b, b ∈ piece_cells p → board_cell (board_ t) b 0 0 = 0) ∧
  wf 4 4 t' ∧
  (∀ y x, 0 ≤ y < Z.of_nat 4 → 0 ≤ x < Z.of_nat 4 →
          cell (board_ t') y x =
            if decide (Block y x ∈ piece_cells p) then color p
            else cell (board_ t) y x).
Proof.
  apply (cc_new_piece_spec 4 4 sample_empty [1; 3; 0; 2] (Ok sample_spawned) []).
  - unfold board_dims. by_computation.
  - vm_compute. reflexivity.
Defined.

Lemma cc_try_remove_line_spec_witness :
  let t := sample_landed in
  let R := lines_to_remove t in
  let t' := try_remove_line 4 4 t in
  let p := curr_piece_ t in
  (∀ r : nat,
      r ∈ R ↔
      block_y (location p) + y_min (get_extent p) ≤ Z.of_nat r
        ≤ block_y (location p) + y_max (get_extent p) ∧
      row_full (board_ t) r = true) ∧
  curr_piece_ t' = p ∧ tick_cnt_ t' = tick_cnt_ t ∧
  (R = ∅ → t' = t) ∧
  (R ≠ ∅ →
   score_ t' = size_add (score_ t) (Z.of_nat (size R)) ∧
   board_dims 4 4 (board_ t') ∧
   (∀ r, (r < 4)%nat → r ∉ R →
         board_ t' !! (r + removed_below R r)%nat = board_ t !! r) ∧
   (∀ d, (d < size R)%nat → board_ t' !! d = Some (replicate 4 0)) ∧
   (∀ d, (size R ≤ d < 4)%nat →
         ∃ r, (r < 4)%nat ∧ (r ∉ R) ∧ (r + removed_below R r)%nat = d)).
Proof.
  apply (cc_try_remove_line_spec 4 4 sample_landed).
  unfold wf, board_dims. by_computation.
Defined.

Lemma cc_engine_keeps_wf_witness :
  let t := sample_drop in
  (∀ y x, wf 4 4 (move_piece 4 4 y x t).2) ∧
  (∀ cnt, 0 ≤ cnt → wf 4 4 (rotate_piece 4 4 cnt t).2) ∧
  (∀ ds t' ds', run (tick 4 4 t) ds = Some (Ok t', ds') → wf 4 4 t') ∧
  (∀ m ds t' ds', hard_drop 4 4 t = Some m → run m ds = Some (Ok t', ds') → wf 4 4 t').
Proof.
  apply (cc_engine_keeps_wf 4 4 sample_drop).
  unfold wf, board_dims. by_computation.
Defined.

End TetrisCcFacts.
